(** * The gRPC invocation service of chapar, embedded in Rocq

    The service ([package grpc]: [Dial], [Invoke], [invokeUnary],
    [invokeServerStream], [prepareAuth], [getMethodDesc], [GetServices],
    [getActiveEnvironment]) is translated function by function.  What the
    service reaches outside itself (the file system, the gRPC transport, the
    protobuf JSON codec, the variable substitution package) is a field of
    the record [World]; what it mutates (the registry cache, the two header
    cells of a call) is a field of [State]; and a run of a function records
    the input and output it has performed as a list of events. *)

From stdpp Require Import base strings gmap list pretty.
From Stdlib Require Import ZArith Lia Ascii.
From Stdlib Require OrderedTypeEx.
From Stdlib Require Import Sorted.

Local Open Scope Z_scope.

(** ** Strings *)

(** [strings.ToLower] on the ASCII range, which is the range of gRPC
    metadata keys. *)
Definition ascii_to_lower (c : ascii) : ascii :=
  let n := Ascii.N_of_ascii c in
  if ((65 <=? n) && (n <=? 90))%N then Ascii.ascii_of_N (n + 32) else c.

Fixpoint ToLower (s : string) : string :=
  match s with
  | EmptyString => EmptyString
  | String c rest => String (ascii_to_lower c) (ToLower rest)
  end.

(** [strings.Replace(s, "/", ".", 1)]: the first slash becomes a dot. *)
Fixpoint replace_first_slash (s : string) : string :=
  match s with
  | EmptyString => EmptyString
  | String c rest =>
      if Ascii.eqb c "/"%char then String "."%char rest
      else String c (replace_first_slash rest)
  end.

(** [len(s)], in bytes. *)
Definition len (s : string) : Z := Z.of_nat (String.length s).

(** ** Machine integers *)

(** A Go [int64] (and [int] on the 64-bit targets of the build) keeps the
    low 64 bits of a result, read as a signed number. *)
Definition wrap64 (z : Z) : Z := (z + 2 ^ 63) mod 2 ^ 64 - 2 ^ 63.

(** [time.Millisecond], a [time.Duration] counted in nanoseconds. *)
Definition Millisecond : Z := 1000000.

(** ** Errors *)

(** The error values the service tells apart: [io.EOF], which ends the
    receive loop; errors made from a text ([errors.New], [fmt.Errorf], the
    errors of [os] and [crypto/tls]); and gRPC status errors. *)
Inductive error : Type :=
  | io_EOF
  | errors_New (msg : string)
  | status_Error (code : Z) (msg : string).

Global Instance error_eq_dec : EqDecision error.
Proof. solve_decision. Defined.

Definition ErrRequestNotFound : error := errors_New "request not found".

(** [codes.Code.String]. *)
Definition Code_String (c : Z) : string :=
  match c with
  | 0 => "OK" | 1 => "Canceled" | 2 => "Unknown" | 3 => "InvalidArgument"
  | 4 => "DeadlineExceeded" | 5 => "NotFound" | 6 => "AlreadyExists"
  | 7 => "PermissionDenied" | 8 => "ResourceExhausted"
  | 9 => "FailedPrecondition" | 10 => "Aborted" | 11 => "OutOfRange"
  | 12 => "Unimplemented" | 13 => "Internal" | 14 => "Unavailable"
  | 15 => "DataLoss" | 16 => "Unauthenticated"
  | _ => "Code(" +:+ pretty c +:+ ")"
  end.

(** [err.Error()]. *)
Definition Error (e : error) : string :=
  match e with
  | io_EOF => "EOF"
  | errors_New msg => msg
  | status_Error c msg =>
      "rpc error: code = " +:+ Code_String c +:+ " desc = " +:+ msg
  end.

(** [status.Code(err)]: [OK] for a nil error, the code of a status error,
    [Unknown] for any other error. *)
Definition status_Code (err : option error) : Z :=
  match err with
  | None => 0
  | Some (status_Error c _) => c
  | Some _ => 2
  end.

(** What an external call hands back: a value or an error. *)
Inductive result (A : Type) : Type :=
  | ok (a : A)
  | fail (e : error).
Arguments ok {A} a.
Arguments fail {A} e.

(** ** The request model of package [domain] *)

Module KeyValue.
Record t : Type := mk { Key : string; Value : string; Enable : bool }.
End KeyValue.

Module TokenAuth.
Record t : Type := mk { Token : string }.
End TokenAuth.

Module BasicAuth.
Record t : Type := mk { Username : string; Password : string }.
End BasicAuth.

Module APIKeyAuth.
Record t : Type := mk { Key : string; Value : string }.
End APIKeyAuth.

(** The [Type] tag of an auth config is a string that [prepareAuth] compares
    with four constants of package [domain]; [AuthTypeOther] stands for
    every other string. *)
Inductive AuthType : Type :=
  | AuthTypeNone
  | AuthTypeBasic
  | AuthTypeToken
  | AuthTypeAPIKey
  | AuthTypeOther (tag : string).

Global Instance AuthType_eq_dec : EqDecision AuthType.
Proof. solve_decision. Defined.

(** [BasicAuth] is compared with nil in [prepareAuth], so it is a pointer;
    [TokenAuth] and [APIKeyAuth] are pointers of the same struct, and
    reading a field through an absent one panics.  [Type_] is the field
    [Type]. *)
Module Auth.
Record t : Type := mk {
  Type_ : AuthType;
  BasicAuth : option BasicAuth.t;
  TokenAuth : option TokenAuth.t;
  APIKeyAuth : option APIKeyAuth.t
}.
End Auth.

Module ServerInfo.
Record t : Type := mk {
  Address : string;
  ServerReflection : bool;
  ProtoFiles : list string
}.
End ServerInfo.

(** Modelled from the spec: the field [ClientKeyFile], the client key path
    of the security settings (spec section 3: "client cert/key paths"),
    which no function under src/ reads. *)
Module Settings.
Record t : Type := mk {
  Insecure : bool;
  TimeoutMilliseconds : Z;
  RootCertFile : string;
  ClientCertFile : string;
  ClientKeyFile : string
}.
End Settings.

Module GRPCRequestSpec.
Record t : Type := mk {
  LasSelectedMethod : string;
  Metadata : list KeyValue.t;
  Auth : Auth.t;
  ServerInfo : ServerInfo.t;
  Settings : Settings.t;
  Body : string
}.
End GRPCRequestSpec.

(** Of an environment, [Invoke] reads the id and hands the spec to the
    substitution. *)
Module Environment.
Record t : Type := mk {
  MetaData_ID : string;
  Spec : list KeyValue.t
}.
End Environment.

Module ProtoFile.
Record t : Type := mk { Spec_Path : string }.
End ProtoFile.

Module GRPCMethod.
Record t : Type := mk {
  FullName : string;
  Name : string;
  IsStreamingClient : bool;
  IsStreamingServer : bool
}.
End GRPCMethod.

Module GRPCService.
Record t : Type := mk { Name : string; Methods : list GRPCMethod.t }.
End GRPCService.

(** ** Package [metadata] of the gRPC library *)

(** [metadata.MD] is a [map[string][]string]. *)
Abbreviation MD := (gmap string (list string)).

(** [metadata.New(nil)]. *)
Definition MD_New : MD := ∅.

(** [md.Append(k, v)]: the key is lower-cased, the value goes to the end of
    the key's values. *)
Definition MD_Append (md : MD) (k v : string) : MD :=
  let k := ToLower k in
  <[k := default [] (md !! k) ++ [v]]> md.

(** [md.Get(k)]: the values under the lower-cased key. *)
Definition MD_Get (md : MD) (k : string) : list string :=
  default [] (md !! ToLower k).

(** [md.Len()]. *)
Definition MD_Len (md : MD) : nat := size md.

(** The outgoing metadata of a context: the map given to
    [NewOutgoingContext] and the pairs added since by
    [AppendToOutgoingContext]. *)
Record rawMD : Type := mk_rawMD {
  raw_md : MD;
  raw_added : list (string * string)
}.

(** A [context.Context], as far as the service uses one: the outgoing
    metadata and the timeout its deadline was computed from. *)
Record Context : Type := mk_Context {
  ctx_outgoing : option rawMD;
  ctx_timeout : option Z
}.

(** [context.Background()]. *)
Definition Background : Context :=
  {| ctx_outgoing := None; ctx_timeout := None |}.

(** [metadata.NewOutgoingContext(ctx, md)]: the context's outgoing metadata
    becomes [md]; pairs appended before are not carried over. *)
Definition NewOutgoingContext (ctx : Context) (md : MD) : Context :=
  {| ctx_outgoing := Some {| raw_md := md; raw_added := [] |};
     ctx_timeout := ctx_timeout ctx |}.

(** [metadata.AppendToOutgoingContext(ctx, k, v)]. *)
Definition AppendToOutgoingContext (ctx : Context) (k v : string) : Context :=
  let raw := default {| raw_md := ∅; raw_added := [] |} (ctx_outgoing ctx) in
  {| ctx_outgoing :=
       Some {| raw_md := raw_md raw; raw_added := raw_added raw ++ [(k, v)] |};
     ctx_timeout := ctx_timeout ctx |}.

(** [metadata.FromOutgoingContext(ctx)]: the metadata a call on [ctx]
    sends, the added pairs merged into the map in the order they were
    added. *)
Definition FromOutgoingContext (ctx : Context) : MD :=
  match ctx_outgoing ctx with
  | None => ∅
  | Some raw =>
      fold_left (fun out kv => MD_Append out (fst kv) (snd kv))
                (raw_added raw) (raw_md raw)
  end.

(** [context.WithTimeout(ctx, d)]; the parent contexts of the service carry
    no deadline of their own. *)
Definition WithTimeout (ctx : Context) (d : Z) : Context :=
  {| ctx_outgoing := ctx_outgoing ctx; ctx_timeout := Some d |}.

(** [context.WithCancel(ctx)]: the child keeps metadata and deadline. *)
Definition WithCancel (ctx : Context) : Context := ctx.

(** ** Transport security and channels *)

(** A [tls.Certificate], by the two PEM blocks [tls.X509KeyPair] made it
    from. *)
Record Certificate : Type := mk_Certificate {
  cert_certPEMBlock : string;
  cert_keyPEMBlock : string
}.

(** An [x509.CertPool], by the PEM data offered to it. *)
Abbreviation CertPool := (list string) (only parsing).

Module tls.
Record Config : Type := mk_Config {
  InsecureSkipVerify : bool;
  Certificates : list Certificate;
  RootCAs : CertPool
}.
End tls.

Inductive TransportCredentials : Type :=
  | credentials_NewTLS (cfg : tls.Config)
  | insecure_NewCredentials.

Inductive DialOption : Type :=
  | WithUserAgent (ua : string)
  | WithTransportCredentials (creds : TransportCredentials).

(** A [grpc.ClientConn], by what [grpc.NewClient] was given. *)
Record ClientConn : Type := mk_ClientConn {
  conn_target : string;
  conn_opts : list DialOption
}.

Record StreamDesc : Type := mk_StreamDesc {
  StreamName : string;
  ClientStreams : bool;
  ServerStreams : bool
}.

(** ** Descriptors and messages *)

Module MethodDescriptor.
Record t : Type := mk {
  Name : string;
  IsStreamingClient : bool;
  IsStreamingServer : bool;
  Input : string;
  Output : string
}.
End MethodDescriptor.

Module ServiceDescriptor.
Record t : Type := mk {
  Name : string;
  FullName : string;
  Methods : list MethodDescriptor.t
}.
End ServiceDescriptor.

(** A file of a registry: its services, and the full name and Go type of
    each of its other declarations (messages, enums, ...). *)
Module FileDescriptor.
Record t : Type := mk {
  Services : list ServiceDescriptor.t;
  Others : list (string * string)
}.
End FileDescriptor.

(** A [protoregistry.Files], its files in the order [RangeFiles] visits
    them. *)
Abbreviation Files := (list FileDescriptor.t).

Inductive Descriptor : Type :=
  | DescMethod (m : MethodDescriptor.t)
  | DescService (s : ServiceDescriptor.t)
  | DescOther (goType : string).

(** A [dynamicpb.Message]: the full name of its message type and its
    content. *)
Record Message : Type := mk_Message {
  msg_type : string;
  msg_content : string
}.

(** [dynamicpb.NewMessage(desc)]. *)
Definition dynamicpb_NewMessage (desc : string) : Message :=
  {| msg_type := desc; msg_content := "" |}.

Module protojson.
Record MarshalOptions : Type := mk_MarshalOptions {
  Indent : string;
  EmitUnpopulated : bool;
  UseProtoNames : bool
}.
Record UnmarshalOptions : Type := mk_UnmarshalOptions {
  DiscardUnknown : bool
}.
End protojson.

(** ** The world outside the service *)

(** What the peer does with one call: the reply to a unary call; for a
    stream, whether it opens, takes the request and closes its send side,
    the messages it then delivers (each by its content) and the error that
    ends it ([io.EOF] for a regular end); the headers and trailers it sends
    and the time the call takes.  Every stream ends: the deadline of the
    call fails the receive that is pending when it expires. *)
Record CallScript : Type := mk_CallScript {
  unary_reply : result string;
  stream_open : option error;
  stream_send : option error;
  stream_close : option error;
  stream_msgs : list string;
  stream_end : error;
  peer_headers : MD;
  peer_trailers : MD;
  elapsed : Z
}.

(** The packages the service calls.  Those of the repository that are not
    part of the service ([variables], [domain], [state], and the two
    discovery functions of package [grpc]) are parameters like the
    libraries. *)
Record World : Type := mk_World {
  (* package variables *)
  GetVariables : list (string * string);
  ApplyToEnv : list (string * string) -> list KeyValue.t -> list KeyValue.t;
  ApplyToGRPCRequest :
    list (string * string) -> GRPCRequestSpec.t -> GRPCRequestSpec.t;
  (* domain.Environment.ApplyToGRPCRequest, domain.MetadataToKeyValue *)
  Environment_ApplyToGRPCRequest :
    Environment.t -> GRPCRequestSpec.t -> GRPCRequestSpec.t;
  MetadataToKeyValue : MD -> list KeyValue.t;
  (* os, crypto/tls, crypto/x509, path/filepath *)
  ReadFile : string -> result string;
  X509KeyPair : string -> string -> option error;
  SystemCertPool : result CertPool;
  filepath_Dir : string -> string;
  filepath_Base : string -> string;
  (* grpc *)
  NewClient : string -> list DialOption -> option error;
  peer : ClientConn -> Context -> string -> Message -> CallScript;
  (* protojson *)
  Marshal : protojson.MarshalOptions -> Message -> result string;
  Unmarshal : protojson.UnmarshalOptions -> string -> Message -> result Message;
  (* the rest of package grpc and state.ProtoFiles *)
  ProtoFilesFromReflectionAPI : ClientConn -> result Files;
  ProtoFilesFromDisk : list string -> list string -> result Files;
  LoadProtoFilesFromDisk : result (list ProtoFile.t)
}.

(** ** Effects *)

(** The input and output of the service, in the order it happens. *)
Inductive Event : Type :=
  | EvReadFile (path : string)
  | EvNewClient (target : string) (opts : list DialOption)
  | EvReflection (conn : ClientConn)
  | EvLoadProtoFiles
  | EvParseProtoFiles (importPaths fileNames : list string)
  | EvInvoke (conn : ClientConn) (ctx : Context) (method : string)
             (req : Message)
  | EvNewStream (conn : ClientConn) (ctx : Context) (sd : StreamDesc)
                (method : string)
  | EvSendMsg (ctx : Context) (req : Message)
  | EvCloseSend (ctx : Context)
  | EvRecvMsg (ctx : Context).

(** The mutable state: the registry cache of the service, the two cells
    the call options [grpc.Header] and [grpc.Trailer] point to, and the
    clock read by [time.Now]. *)
Record State : Type := mk_State {
  protoFilesRegistry : gmap string Files;
  respHeaders : MD;
  respTrailers : MD;
  clock : Z
}.

(** How a function ends: with its value and a nil error, with an error
    and the zero value, or in a panic. *)
Inductive Outcome (A : Type) : Type :=
  | Ok (a : A)
  | Err (e : error)
  | Panic.
Arguments Ok {A} a.
Arguments Err {A} e.
Arguments Panic {A}.

(** A run of a function from a state: how it ends, the state it leaves and
    the events it has caused, oldest first. *)
Record Run (A : Type) : Type := mk_Run {
  outcome : Outcome A;
  final : State;
  events : list Event
}.
Arguments mk_Run {A} outcome final events.
Arguments outcome {A} r.
Arguments final {A} r.
Arguments events {A} r.

Definition M (A : Type) : Type := State -> Run A.

Definition ret {A} (a : A) : M A := fun st => mk_Run (Ok a) st [].

Definition bind {A B} (c : M A) (k : A -> M B) : M B :=
  fun st =>
    let r := c st in
    match outcome r with
    | Ok a =>
        let r' := k a (final r) in
        mk_Run (outcome r') (final r') (events r ++ events r')
    | Err e => mk_Run (Err e) (final r) (events r)
    | Panic => mk_Run Panic (final r) (events r)
    end.

Definition raise {A} (e : error) : M A := fun st => mk_Run (Err e) st [].

Definition panic {A} : M A := fun st => mk_Run Panic st [].

Definition lift {A} (r : result A) : M A :=
  match r with
  | ok a => ret a
  | fail e => raise e
  end.

Definition check (r : option error) : M unit :=
  match r with
  | None => ret tt
  | Some e => raise e
  end.

(** A function that neither reads the state nor causes events, but may
    panic. *)
Definition pure {A} (o : Outcome A) : M A := fun st => mk_Run o st [].

Definition emit (ev : Event) : M unit := fun st => mk_Run (Ok tt) st [ev].

(** [s.protoFilesRegistry.Get(id)]. *)
Definition registry_Get (id : string) : M (option Files) :=
  fun st => mk_Run (Ok (protoFilesRegistry st !! id)) st [].

(** [s.protoFilesRegistry.Set(id, files)]. *)
Definition registry_Set (id : string) (files : Files) : M unit :=
  fun st =>
    mk_Run (Ok tt)
      (mk_State (<[id := files]> (protoFilesRegistry st)) (respHeaders st)
                (respTrailers st) (clock st))
      [].

(** The transport fills the two header cells and time passes. *)
Definition peer_answers (script : CallScript) : M unit :=
  fun st =>
    mk_Run (Ok tt)
      (mk_State (protoFilesRegistry st) (peer_headers script)
                (peer_trailers script) (clock st + elapsed script))
      [].

(** [var respHeaders, respTrailers metadata.MD]. *)
Definition declare_captured : M unit :=
  fun st =>
    mk_Run (Ok tt) (mk_State (protoFilesRegistry st) ∅ ∅ (clock st)) [].

Definition get_captured : M (MD * MD) :=
  fun st => mk_Run (Ok (respHeaders st, respTrailers st)) st [].

(** [time.Now()]. *)
Definition time_Now : M Z := fun st => mk_Run (Ok (clock st)) st [].

Notation "x <- c ;; k" := (bind c (fun x => k))
  (at level 100, c at next level, right associativity).
Notation "c ;;; k" := (bind c (fun _ => k))
  (at level 100, right associativity).

(** ** [Dial] *)

Definition appName : string := "Chapar".
Definition semver : string := "0.1.0-beta1".

Definition os_ReadFile (w : World) (path : string) : M string :=
  emit (EvReadFile path) ;;; lift (ReadFile w path).

Definition tls_X509KeyPair (w : World) (certPEMBlock keyPEMBlock : string)
  : M Certificate :=
  check (X509KeyPair w certPEMBlock keyPEMBlock) ;;;
  ret {| cert_certPEMBlock := certPEMBlock; cert_keyPEMBlock := keyPEMBlock |}.

Definition grpc_NewClient (w : World) (target : string)
  (opts : list DialOption) : M ClientConn :=
  emit (EvNewClient target opts) ;;;
  check (NewClient w target opts) ;;;
  ret {| conn_target := target; conn_opts := opts |}.

Definition set_Certificates (cfg : tls.Config) (certs : list Certificate)
  : tls.Config :=
  tls.mk_Config (tls.InsecureSkipVerify cfg) certs (tls.RootCAs cfg).

Definition set_RootCAs (cfg : tls.Config) (pool : CertPool) : tls.Config :=
  tls.mk_Config (tls.InsecureSkipVerify cfg) (tls.Certificates cfg) pool.

Definition Dial (w : World) (req : GRPCRequestSpec.t) : M ClientConn :=
  let settings := GRPCRequestSpec.Settings req in
  let opts := [WithUserAgent (appName +:+ "/" +:+ semver)] in
  opts <-
    (if negb (Settings.Insecure settings) then
       let tlsCfg := tls.mk_Config (Settings.Insecure settings) [] [] in
       tlsCfg <-
         (if bool_decide (Settings.ClientCertFile settings ≠ "") then
            certFile <- os_ReadFile w (Settings.ClientCertFile settings) ;;
            keyFile <- os_ReadFile w (Settings.ClientCertFile settings) ;;
            cert <- tls_X509KeyPair w certFile keyFile ;;
            ret (set_Certificates tlsCfg [cert])
          else ret tlsCfg) ;;
       let tlsCfg :=
         match SystemCertPool w with
         | ok pool => set_RootCAs tlsCfg pool
         | fail _ => set_RootCAs tlsCfg []
         end in
       tlsCfg <-
         (if bool_decide (Settings.RootCertFile settings ≠ "") then
            rootFile <- os_ReadFile w (Settings.RootCertFile settings) ;;
            ret (set_RootCAs tlsCfg (tls.RootCAs tlsCfg ++ [rootFile]))
          else ret tlsCfg) ;;
       ret (opts ++ [WithTransportCredentials (credentials_NewTLS tlsCfg)])
     else
       ret (opts ++ [WithTransportCredentials insecure_NewCredentials])) ;;
  grpc_NewClient w (ServerInfo.Address (GRPCRequestSpec.ServerInfo req)) opts.

(** ** The service *)

(** A stored request of the gRPC kind.  [Spec_GRPC] is what the pointer
    [req.Spec.GRPC] points to: the requests the service works on are the
    ones that have a gRPC part, and a request whose pointer is nil, on
    which the service panics at its first use of the call definition, is
    outside of the model.  Every property of a stored request below is a
    property of a request with a gRPC part. *)
Module Request.
Record t : Type := mk { MetaData_ID : string; Spec_GRPC : GRPCRequestSpec.t }.
(** [req.Clone()]: a deep copy, which a value already is. *)
Definition Clone (req : t) : t := req.
End Request.

(** The stores the service reads: [state.Requests] and
    [state.Environments], by what [GetRequest] and [GetEnvironment] find
    under an id. *)
Record Service : Type := mk_Service {
  requests : gmap string Request.t;
  environments : gmap string Environment.t
}.

(** The field [Cookies], which the service never sets, is left out;
    [Error_] is the field [Error]. *)
Module Response.
Record t : Type := mk {
  Body : string;
  Metadata : list KeyValue.t;
  Trailers : list KeyValue.t;
  TimePassed : Z;
  Size : Z;
  Error_ : option error;
  StatueCode : Z;
  Status : string
}.
Definition set_Body (r : t) (body : string) : t :=
  mk body (Metadata r) (Trailers r) (TimePassed r) (Size r) (Error_ r)
     (StatueCode r) (Status r).
End Response.

Definition getActiveEnvironment (s : Service) (id : string)
  : option Environment.t :=
  if bool_decide (id = "") then None
  else
    match environments s !! id with
    | None => None
    | Some activeEnvironment => Some activeEnvironment
    end.

(** [variables.ApplyToEnv(vars, &env.Spec)], which rewrites the
    environment's spec in place. *)
Definition variables_ApplyToEnv (w : World) (vars : list (string * string))
  (env : Environment.t) : Environment.t :=
  Environment.mk (Environment.MetaData_ID env)
                 (ApplyToEnv w vars (Environment.Spec env)).

(** *** [prepareAuth] *)

Definition prepareAuth (req : GRPCRequestSpec.t) : Outcome (option MD) :=
  let auth := GRPCRequestSpec.Auth req in
  if bool_decide (Auth.Type_ auth = AuthTypeNone) then Ok None
  else
    let md := MD_New in
    if bool_decide (Auth.Type_ auth = AuthTypeToken) then
      match Auth.TokenAuth auth with
      | None => Panic
      | Some tokenAuth =>
          Ok (Some (MD_Append md "Authorization"
                      ("Bearer " +:+ TokenAuth.Token tokenAuth)))
      end
    else
      match bool_decide (Auth.Type_ auth = AuthTypeBasic), Auth.BasicAuth auth
      with
      | true, Some basicAuth =>
          Ok (Some (MD_Append md "Authorization"
                      ("Basic " +:+ BasicAuth.Username basicAuth +:+ ":"
                       +:+ BasicAuth.Password basicAuth)))
      | _, _ =>
          if bool_decide (Auth.Type_ auth = AuthTypeAPIKey) then
            match Auth.APIKeyAuth auth with
            | None => Panic
            | Some apiKeyAuth =>
                Ok (Some (MD_Append md (APIKeyAuth.Key apiKeyAuth)
                            (APIKeyAuth.Value apiKeyAuth)))
            end
          else Ok None
      end.

(** *** [invokeUnary] and [invokeServerStream] *)

Definition nl : string := String (ascii_of_nat 10) EmptyString.

(** [protojson.MarshalOptions{Indent: "  "}]. *)
Definition indent_two : protojson.MarshalOptions :=
  protojson.mk_MarshalOptions "  " false false.

(** [stream.RecvMsg(resp)] and [conn.Invoke(.., resp, ..)] fill [resp]. *)
Definition fill (resp : Message) (content : string) : Message :=
  {| msg_type := msg_type resp; msg_content := content |}.

(** Both functions return a [(string, error)] pair, kept as a pair here:
    the text that comes with an error is part of what they return. *)
Definition invokeUnary (w : World) (ctx : Context) (conn : option ClientConn)
  (method : string) (req : Message) (md : MethodDescriptor.t)
  : M (string * option error) :=
  match conn with
  | None => ret ("", Some (errors_New "no connection"))
  | Some conn =>
      let resp := dynamicpb_NewMessage (MethodDescriptor.Output md) in
      emit (EvInvoke conn ctx method req) ;;;
      let script := peer w conn ctx method req in
      peer_answers script ;;;
      match unary_reply script with
      | fail err => ret ("", Some err)
      | ok content =>
          let resp := fill resp content in
          match Marshal w indent_two resp with
          | fail err => ret ("", Some err)
          | ok respJSON => ret (respJSON, None)
          end
      end
  end.

(** The receive loop of [invokeServerStream].  [pending] is what the peer
    has still to deliver before the stream ends with [final]; each turn of
    the loop is one [stream.RecvMsg]. *)
Fixpoint recvLoop (w : World) (ctx : Context) (md : MethodDescriptor.t)
  (final : error) (pending : list string) (out : string) (counter : Z)
  : M (string * option error) :=
  let resp := dynamicpb_NewMessage (MethodDescriptor.Output md) in
  emit (EvRecvMsg ctx) ;;;
  match pending with
  | [] =>
      if bool_decide (final = io_EOF) then ret (out, None)
      else ret ("", Some final)
  | content :: rest =>
      let resp := fill resp content in
      match Marshal w indent_two resp with
      | fail err => ret ("", Some err)
      | ok respJSON =>
          let out :=
            out +:+ ("Message " +:+ pretty counter +:+ ":" +:+ nl
                     +:+ respJSON +:+ nl +:+ nl) in
          recvLoop w ctx md final rest out (wrap64 (counter + 1))
      end
  end.

Definition invokeServerStream (w : World) (ctx : Context)
  (conn : option ClientConn) (method : string) (req : Message)
  (md : MethodDescriptor.t) : M (string * option error) :=
  match conn with
  | None => ret ("", Some (errors_New "no connection"))
  | Some conn =>
      let sd := {| StreamName := method; ClientStreams := false;
                   ServerStreams := true |} in
      let ctx := WithCancel ctx in
      emit (EvNewStream conn ctx sd method) ;;;
      let script := peer w conn ctx method req in
      (* the call takes its time also when the stream does not open *)
      peer_answers script ;;;
      match stream_open script with
      | Some err => ret ("", Some err)
      | None =>
          emit (EvSendMsg ctx req) ;;;
          match stream_send script with
          | Some err => ret ("", Some err)
          | None =>
              emit (EvCloseSend ctx) ;;;
              match stream_close script with
              | Some err => ret ("", Some err)
              | None =>
                  recvLoop w ctx md (stream_end script) (stream_msgs script)
                           "" 0
              end
          end
      end
  end.

(** *** Discovery: [GetServices] and its helpers *)

Definition getImportPaths (w : World) (protoFiles : list ProtoFile.t)
  (files : list string) : list string * list string :=
  let importPaths :=
    map (filepath_Dir w) files
    ++ map (fun protoFile => filepath_Dir w (ProtoFile.Spec_Path protoFile))
           protoFiles in
  let fileNames :=
    map (filepath_Base w) files
    ++ map (fun protoFile => filepath_Base w (ProtoFile.Spec_Path protoFile))
           protoFiles in
  (importPaths, fileNames).

(** [sort.SliceStable]: an insertion sort that leaves equal elements in
    the order they came. *)
Fixpoint insert_stable {A} (less : A -> A -> bool) (x : A) (l : list A)
  : list A :=
  match l with
  | [] => [x]
  | y :: l' => if less y x then y :: insert_stable less x l' else x :: l
  end.

Definition SliceStable {A} (less : A -> A -> bool) (l : list A) : list A :=
  foldr (insert_stable less) [] l.

Definition parseRegistryFiles (registry : Files) : list GRPCService.t :=
  let services :=
    flat_map
      (fun ds =>
         map
           (fun svc =>
              let methods :=
                map
                  (fun mth =>
                     let fname :=
                       "/" +:+ ServiceDescriptor.FullName svc +:+ "/"
                       +:+ MethodDescriptor.Name mth in
                     GRPCMethod.mk fname (MethodDescriptor.Name mth)
                       (MethodDescriptor.IsStreamingClient mth)
                       (MethodDescriptor.IsStreamingServer mth))
                  (ServiceDescriptor.Methods svc) in
              GRPCService.mk (ServiceDescriptor.Name svc)
                (SliceStable
                   (fun a b => String.ltb (GRPCMethod.Name a) (GRPCMethod.Name b))
                   methods))
           (FileDescriptor.Services ds))
      registry in
  SliceStable
    (fun a b => String.ltb (GRPCService.Name a) (GRPCService.Name b))
    services.

Definition grpc_ProtoFilesFromReflectionAPI (w : World) (conn : ClientConn)
  : M Files :=
  emit (EvReflection conn) ;;; lift (ProtoFilesFromReflectionAPI w conn).

Definition protoFiles_LoadProtoFilesFromDisk (w : World)
  : M (list ProtoFile.t) :=
  emit EvLoadProtoFiles ;;; lift (LoadProtoFilesFromDisk w).

Definition grpc_ProtoFilesFromDisk (w : World)
  (paths : list string * list string) : M Files :=
  emit (EvParseProtoFiles (fst paths) (snd paths)) ;;;
  lift (ProtoFilesFromDisk w (fst paths) (snd paths)).

Definition GetServices (s : Service) (w : World)
  (id activeEnvironmentID : string) : M (list GRPCService.t) :=
  match requests s !! id with
  | None => raise ErrRequestNotFound
  | Some req =>
      let req := Request.Clone req in
      let activeEnvironment := getActiveEnvironment s activeEnvironmentID in
      let vars := GetVariables w in
      let spec := ApplyToGRPCRequest w vars (Request.Spec_GRPC req) in
      let spec :=
        match activeEnvironment with
        | Some activeEnvironment =>
            let activeEnvironment :=
              variables_ApplyToEnv w vars activeEnvironment in
            Environment_ApplyToGRPCRequest w activeEnvironment spec
        | None => spec
        end in
      conn <- Dial w spec ;;
      let serverInfo := GRPCRequestSpec.ServerInfo spec in
      if ServerInfo.ServerReflection serverInfo then
        protoRegistryFiles <- grpc_ProtoFilesFromReflectionAPI w conn ;;
        registry_Set id protoRegistryFiles ;;;
        ret (parseRegistryFiles protoRegistryFiles)
      else if (0 <? length (ServerInfo.ProtoFiles serverInfo))%nat then
        protoFiles <- protoFiles_LoadProtoFilesFromDisk w ;;
        protoRegistryFiles <-
          grpc_ProtoFilesFromDisk w
            (getImportPaths w protoFiles (ServerInfo.ProtoFiles serverInfo)) ;;
        registry_Set id protoRegistryFiles ;;;
        ret (parseRegistryFiles protoRegistryFiles)
      else raise (errors_New "no server reflection or proto files found")
  end.

(** *** [getMethodDesc] *)

Definition protoregistry_NotFound : error := errors_New "proto: not found".

Fixpoint first_some {A B} (f : A -> option B) (l : list A) : option B :=
  match l with
  | [] => None
  | x :: l' =>
      match f x with
      | Some y => Some y
      | None => first_some f l'
      end
  end.

(** The declaration of a file with a given full name, if it has one. *)
Definition find_in_file (name : string) (fd : FileDescriptor.t)
  : option Descriptor :=
  match find (fun o => String.eqb (fst o) name) (FileDescriptor.Others fd) with
  | Some o => Some (DescOther (snd o))
  | None =>
      first_some
        (fun svc =>
           if String.eqb (ServiceDescriptor.FullName svc) name
           then Some (DescService svc)
           else
             option_map DescMethod
               (find
                  (fun mth =>
                     String.eqb
                       (ServiceDescriptor.FullName svc +:+ "."
                        +:+ MethodDescriptor.Name mth) name)
                  (ServiceDescriptor.Methods svc)))
        (FileDescriptor.Services fd)
  end.

(** [registryFiles.FindDescriptorByName(name)]; a nil registry finds
    nothing. *)
Definition FindDescriptorByName (registryFiles : option Files) (name : string)
  : result Descriptor :=
  match registryFiles with
  | None => fail protoregistry_NotFound
  | Some files =>
      match first_some (find_in_file name) files with
      | Some desc => ok desc
      | None => fail protoregistry_NotFound
      end
  end.

(** The Go type that [%T] prints for a descriptor. *)
Definition type_name (desc : Descriptor) : string :=
  match desc with
  | DescMethod _ => "*filedesc.Method"
  | DescService _ => "*filedesc.Service"
  | DescOther goType => goType
  end.

(** The first half of [getMethodDesc]: the registry of the request, from
    the cache or, when the cache has none, from a run of [GetServices]. *)
Definition registryFiles_of (s : Service) (w : World) (id envID : string)
  : M (option Files) :=
  cached <- registry_Get id ;;
  match cached with
  | Some registryFiles => ret (Some registryFiles)
  | None =>
      (* reload the proto files we don't have them in registry *)
      GetServices s w id envID ;;;
      (* get the proto files from the registry *)
      registry_Get id
  end.

(** The second half of [getMethodDesc]: the method of that name in the
    registry. *)
Definition methodDesc_in (registryFiles : option Files) (fullname : string)
  : Outcome MethodDescriptor.t :=
  match fullname with
  | EmptyString => Panic (* fullname[1:] of the empty string *)
  | String _ tail =>
      let name := replace_first_slash tail in
      match FindDescriptorByName registryFiles name with
      | fail err =>
          Err (errors_New ("app: failed to find descriptor: " +:+ Error err))
      | ok desc =>
          match desc with
          | DescMethod methodDesc => Ok methodDesc
          | _ =>
              Err (errors_New ("app: descriptor was not a method: "
                               +:+ type_name desc))
          end
      end
  end.

Definition getMethodDesc (s : Service) (w : World) (id envID fullname : string)
  : M MethodDescriptor.t :=
  registryFiles <- registryFiles_of s w id envID ;;
  pure (methodDesc_in registryFiles fullname).

(** *** [Invoke] *)

(** The loop of [Invoke] over [spec.Metadata]. *)
Definition attach_metadata (ctx : Context) (items : list KeyValue.t)
  : Context :=
  fold_left
    (fun ctx item =>
       if negb (KeyValue.Enable item) then ctx
       else AppendToOutgoingContext ctx (KeyValue.Key item)
                                    (KeyValue.Value item))
    items ctx.

(** The timeout of [Invoke], a [time.Duration]. *)
Definition timeOut_of (spec : GRPCRequestSpec.t) : Z :=
  let timeOut := wrap64 (5000 * Millisecond) in
  let ms := Settings.TimeoutMilliseconds (GRPCRequestSpec.Settings spec) in
  if 0 <? ms then wrap64 (ms * Millisecond) else timeOut.

(** The context [Invoke] makes for the call, from the metadata loop to
    [context.WithTimeout]. *)
Definition call_context (spec : GRPCRequestSpec.t) (authHeaders : option MD)
  : Context :=
  let ctx := NewOutgoingContext Background MD_New in
  let ctx := attach_metadata ctx (GRPCRequestSpec.Metadata spec) in
  let ctx :=
    match authHeaders with
    | Some authHeaders => NewOutgoingContext ctx authHeaders
    | None => ctx
    end in
  let timeOut := timeOut_of spec in
  WithTimeout ctx timeOut.

(** The response [Invoke] makes from what the call returned, and the pair
    it returns. *)
Definition make_response (w : World) (captured : MD * MD) (elapsed : Z)
  (respStr : string) (respErr : option error) : Response.t * option error :=
  let out :=
    {| Response.Body := "";
       Response.Metadata := MetadataToKeyValue w (fst captured);
       Response.Trailers := MetadataToKeyValue w (snd captured);
       Response.TimePassed := elapsed;
       Response.Size := len respStr;
       Response.Error_ := respErr;
       Response.StatueCode := status_Code respErr;
       Response.Status := Code_String (status_Code respErr) |} in
  match respErr with
  | Some respErr => (out, Some respErr)
  | None => (Response.set_Body out respStr, None)
  end.

(** [Invoke] returns a response pointer and an error: [Ok (out, respErr)]
    is a response together with the error of the call (nil or not),
    [Err e] is a nil response together with [e]. *)
Definition Invoke (s : Service) (w : World) (id activeEnvironmentID : string)
  : M (Response.t * option error) :=
  match requests s !! id with
  | None => raise ErrRequestNotFound
  | Some req =>
      let spec := Request.Spec_GRPC (Request.Clone req) in
      let activeEnvironment := getActiveEnvironment s activeEnvironmentID in
      let vars := GetVariables w in
      match activeEnvironment with
      | None => panic (* &activeEnvironment.Spec through a nil pointer *)
      | Some activeEnvironment =>
          let activeEnvironment :=
            variables_ApplyToEnv w vars activeEnvironment in
          let spec := ApplyToGRPCRequest w vars spec in
          let spec :=
            Environment_ApplyToGRPCRequest w activeEnvironment spec in
          let method := GRPCRequestSpec.LasSelectedMethod spec in
          if bool_decide (method = "") then
            raise (errors_New "no method selected")
          else
            let rawJSON := GRPCRequestSpec.Body spec in
            conn <- Dial w spec ;;
            (* get the method descriptor *)
            md <- getMethodDesc s w id
                    (Environment.MetaData_ID activeEnvironment) method ;;
            (* create the message *)
            let request :=
              dynamicpb_NewMessage (MethodDescriptor.Input md) in
            request <-
              lift (Unmarshal w (protojson.mk_UnmarshalOptions true)
                              rawJSON request) ;;
            authHeaders <- pure (prepareAuth spec) ;;
            let ctx := call_context spec authHeaders in
            declare_captured ;;;
            start <- time_Now ;;
            r <-
              (if MethodDescriptor.IsStreamingServer md then
                 invokeServerStream w ctx (Some conn) method request md
               else
                 invokeUnary w ctx (Some conn) method request md) ;;
            now <- time_Now ;;
            let elapsed := wrap64 (now - start) in
            captured <- get_captured ;;
            ret (make_response w captured elapsed (fst r) (snd r))
      end
  end.

(** ** Decidable equality of events *)

Global Instance Certificate_eq_dec : EqDecision Certificate.
Proof. solve_decision. Defined.

Global Instance tls_Config_eq_dec : EqDecision tls.Config.
Proof. solve_decision. Defined.

Global Instance TransportCredentials_eq_dec : EqDecision TransportCredentials.
Proof. solve_decision. Defined.

Global Instance DialOption_eq_dec : EqDecision DialOption.
Proof. solve_decision. Defined.

Global Instance ClientConn_eq_dec : EqDecision ClientConn.
Proof. solve_decision. Defined.

Global Instance StreamDesc_eq_dec : EqDecision StreamDesc.
Proof. solve_decision. Defined.

Global Instance Message_eq_dec : EqDecision Message.
Proof. solve_decision. Defined.

Global Instance rawMD_eq_dec : EqDecision rawMD.
Proof. solve_decision. Defined.

Global Instance Context_eq_dec : EqDecision Context.
Proof. solve_decision. Defined.

Global Instance Event_eq_dec : EqDecision Event.
Proof. solve_decision. Defined.

(** * The vocabulary of the properties *)

(** The header set has one key, [k], with the one value [v]. *)
Definition single_entry (md : MD) (k v : string) : Prop :=
  MD_Len md = 1%nat ∧ MD_Get md k = [v].

(** The header set of an auth config as the specification states it,
    variant by variant. *)
Definition resolved_as_stated (req : GRPCRequestSpec.t) : Prop :=
  let auth := GRPCRequestSpec.Auth req in
  match Auth.Type_ auth with
  | AuthTypeNone => prepareAuth req = Ok None
  | AuthTypeToken =>
      ∀ tokenAuth, Auth.TokenAuth auth = Some tokenAuth →
      ∃ md, prepareAuth req = Ok (Some md) ∧
            single_entry md "Authorization"
              ("Bearer " +:+ TokenAuth.Token tokenAuth)
  | AuthTypeBasic =>
      ∃ md value, prepareAuth req = Ok (Some md) ∧
                  single_entry md "Authorization" value
  | AuthTypeAPIKey =>
      ∀ apiKeyAuth, Auth.APIKeyAuth auth = Some apiKeyAuth →
      ∃ md, prepareAuth req = Ok (Some md) ∧
            single_entry md (APIKeyAuth.Key apiKeyAuth)
              (APIKeyAuth.Value apiKeyAuth) ∧
            MD_Get md "Authorization" = []
  | AuthTypeOther _ => True
  end.

(** The same, as the code has it: basic credentials may be absent, and
    then nothing is resolved; the entry of an API key is an Authorization
    entry when that is the configured header name. *)
Definition resolved (req : GRPCRequestSpec.t) : Prop :=
  let auth := GRPCRequestSpec.Auth req in
  match Auth.Type_ auth with
  | AuthTypeNone => prepareAuth req = Ok None
  | AuthTypeToken =>
      ∀ tokenAuth, Auth.TokenAuth auth = Some tokenAuth →
      ∃ md, prepareAuth req = Ok (Some md) ∧
            single_entry md "Authorization"
              ("Bearer " +:+ TokenAuth.Token tokenAuth)
  | AuthTypeBasic =>
      match Auth.BasicAuth auth with
      | Some basicAuth =>
          ∃ md, prepareAuth req = Ok (Some md) ∧
                single_entry md "Authorization"
                  ("Basic " +:+ BasicAuth.Username basicAuth +:+ ":"
                   +:+ BasicAuth.Password basicAuth)
      | None => prepareAuth req = Ok None
      end
  | AuthTypeAPIKey =>
      ∀ apiKeyAuth, Auth.APIKeyAuth auth = Some apiKeyAuth →
      ∃ md, prepareAuth req = Ok (Some md) ∧
            single_entry md (APIKeyAuth.Key apiKeyAuth)
              (APIKeyAuth.Value apiKeyAuth) ∧
            (ToLower (APIKeyAuth.Key apiKeyAuth) ≠ "authorization" →
             MD_Get md "Authorization" = [])
  | AuthTypeOther _ => prepareAuth req = Ok None
  end.

(** The block of the message that arrived as number [i], counted from 0:
    the label, the encoded text, a blank line. *)
Definition block (i : nat) (json : string) : string :=
  "Message " +:+ pretty (Z.of_nat i) +:+ ":" +:+ nl +:+ json +:+ nl +:+ nl.

(** The strings of a list, one after the other. *)
Definition join (l : list string) : string := foldr String.append "" l.

(** The blocks of the encoded texts, in the order of the list. *)
Definition blocks (texts : list string) : string := join (imap block texts).

(** [texts] are the encodings of the messages with contents [contents],
    received into messages of the output type of [md]. *)
Definition encoded (w : World) (md : MethodDescriptor.t)
  (contents texts : list string) : Prop :=
  Forall2
    (fun content json =>
       Marshal w indent_two
         (fill (dynamicpb_NewMessage (MethodDescriptor.Output md)) content)
       = ok json)
    contents texts.

(** What the receive loop returns once its messages are known to
    encode. *)
Definition loop_result (fin : error) (out : string)
  : string * option error :=
  if bool_decide (fin = io_EOF) then (out, None) else ("", Some fin).

(** The state after the peer has answered. *)
Definition answered (st : State) (script : CallScript) : State :=
  mk_State (protoFilesRegistry st) (peer_headers script)
           (peer_trailers script) (clock st + elapsed script).

(** Every event a computation causes satisfies [P]. *)
Definition emits (P : Event → Prop) {A} (c : M A) : Prop :=
  ∀ st, Forall P (events (c st)).

(** A computation leaves the state as it found it. *)
Definition pure_state {A} (c : M A) : Prop := ∀ st, final (c st) = st.

(** The events of [Dial]: reading a file, making the client. *)
Definition is_dial_event (ev : Event) : Prop :=
  match ev with
  | EvReadFile _ | EvNewClient _ _ => True
  | _ => False
  end.

(** The context an event of the transport was caused under. *)
Definition event_ctx (ev : Event) : option Context :=
  match ev with
  | EvInvoke _ ctx _ _ | EvNewStream _ ctx _ _ | EvSendMsg ctx _
  | EvCloseSend ctx | EvRecvMsg ctx => Some ctx
  | _ => None
  end.

(** The environment and the call definition [Invoke] works with, after
    substitution and overlay. *)
Definition built_spec (s : Service) (w : World) (id envid : string)
  : option (Environment.t * GRPCRequestSpec.t) :=
  match requests s !! id, getActiveEnvironment s envid with
  | Some req, Some activeEnvironment =>
      let vars := GetVariables w in
      let activeEnvironment := variables_ApplyToEnv w vars activeEnvironment in
      Some (activeEnvironment,
            Environment_ApplyToGRPCRequest w activeEnvironment
              (ApplyToGRPCRequest w vars
                 (Request.Spec_GRPC (Request.Clone req))))
  | _, _ => None
  end.

(** [Invoke] gets as far as the call: the request and the environment are
    stored, a method is selected, [Dial] gives [conn], the method resolves
    to [md], the body decodes to [request], the auth config resolves, and
    [ctx] is the context made for the call; [st'] is the state and [evs]
    are the events at that point. *)
Inductive reaches_call (s : Service) (w : World) (id envid : string)
  (st : State)
  : GRPCRequestSpec.t → ClientConn → MethodDescriptor.t → Message →
    Context → State → list Event → Prop :=
  | reaches_call_intro env spec conn md request authHeaders evs1 st2 evs2 :
      built_spec s w id envid = Some (env, spec) →
      GRPCRequestSpec.LasSelectedMethod spec ≠ "" →
      Dial w spec st = mk_Run (Ok conn) st evs1 →
      getMethodDesc s w id (Environment.MetaData_ID env)
        (GRPCRequestSpec.LasSelectedMethod spec) st
      = mk_Run (Ok md) st2 evs2 →
      Unmarshal w (protojson.mk_UnmarshalOptions true)
        (GRPCRequestSpec.Body spec)
        (dynamicpb_NewMessage (MethodDescriptor.Input md))
      = ok request →
      prepareAuth spec = Ok authHeaders →
      reaches_call s w id envid st spec conn md request
        (call_context spec authHeaders)
        (mk_State (protoFilesRegistry st2) ∅ ∅ (clock st2))
        (evs1 ++ evs2).

(** What [Invoke] does from the call on. *)
Definition call_and_respond (w : World) (spec : GRPCRequestSpec.t)
  (conn : ClientConn) (md : MethodDescriptor.t) (request : Message)
  (ctx : Context) : M (Response.t * option error) :=
  start <- time_Now ;;
  r <-
    (if MethodDescriptor.IsStreamingServer md then
       invokeServerStream w ctx (Some conn)
         (GRPCRequestSpec.LasSelectedMethod spec) request md
     else
       invokeUnary w ctx (Some conn)
         (GRPCRequestSpec.LasSelectedMethod spec) request md) ;;
  now <- time_Now ;;
  let elapsed := wrap64 (now - start) in
  captured <- get_captured ;;
  ret (make_response w captured elapsed (fst r) (snd r)).

(** An event of the transport, caused under [ctx]. *)
Definition under (ctx : Context) (ev : Event) : Prop :=
  event_ctx ev = Some ctx.

(** An event that is none of the transport. *)
Definition no_call (ev : Event) : Prop := event_ctx ev = None.

(** A call function has returned properly: with a pair, and with the
    empty text whenever the error of the pair is not nil. *)
Definition returns_pair (r : Run (string * option error)) : Prop :=
  ∃ respStr respErr,
    outcome r = Ok (respStr, respErr) ∧ (respErr ≠ None → respStr = "").

(** The pairs that the metadata loop of [Invoke] appends. *)
Definition enabled_pairs (items : list KeyValue.t) : list (string * string) :=
  map (fun item => (KeyValue.Key item, KeyValue.Value item))
      (filter (fun item => KeyValue.Enable item = true) items).

(** The metadata sent with each event of the transport. *)
Definition sent_metadata (evs : list Event) : list MD :=
  omap (fun ev => FromOutgoingContext <$> event_ctx ev) evs.

(** The response of [Invoke] comes with the error [e] and has the blocks
    of [texts] in its body. *)
Definition partial_body_retained (r : Run (Response.t * option error))
  (texts : list string) (e : error) : Prop :=
  ∃ out, outcome r = Ok (out, Some e) ∧ Response.Body out = blocks texts.

(** A run has ended in an error before anything went to the transport. *)
Definition rejected_before_call {A} (r : Run A) : Prop :=
  (∃ e, outcome r = Err e) ∧ Forall no_call (events r).

(** The event that begins a call of [method]: the opening of a stream
    that only the server writes to, or the request of a unary call. *)
Definition first_call_event (conn : ClientConn) (ctx : Context)
  (method : string) (request : Message) (md : MethodDescriptor.t) : Event :=
  if MethodDescriptor.IsStreamingServer md
  then EvNewStream conn ctx (mk_StreamDesc method false true) method
  else EvInvoke conn ctx method request.

(** A computation does not panic, whatever the state. *)
Definition never_panics {A} (c : M A) : Prop := ∀ st, outcome (c st) ≠ Panic.

(** The events that begin a discovery: the reflection query, and the
    loading of the tracked schema files, which comes before they are
    parsed. *)
Definition starts_discovery (ev : Event) : bool :=
  match ev with
  | EvReflection _ | EvLoadProtoFiles => true
  | _ => false
  end.

(** How many discoveries a list of events holds. *)
Definition discovery_runs (evs : list Event) : nat :=
  length (filter (fun ev => starts_discovery ev = true) evs).

(** ** A test double

    A registry with one service, a peer that answers every call by one
    script, a codec that wraps a content in braces, and a file system
    where every file reads as its own name in angle brackets. *)

Definition Echo : MethodDescriptor.t :=
  MethodDescriptor.mk "Echo" false false "pkg.Msg" "pkg.Msg".
Definition Feed : MethodDescriptor.t :=
  MethodDescriptor.mk "Feed" false true "pkg.Msg" "pkg.Msg".
Definition Upload : MethodDescriptor.t :=
  MethodDescriptor.mk "Upload" true false "pkg.Msg" "pkg.Msg".
Definition Svc : ServiceDescriptor.t :=
  ServiceDescriptor.mk "Svc" "pkg.Svc" [Echo; Feed; Upload].
Definition double_registry : Files :=
  [FileDescriptor.mk [Svc] [("pkg.Msg", "*filedesc.Message")]].

Definition double_world (script : CallScript) : World :=
  {| GetVariables := [];
     ApplyToEnv := fun _ spec => spec;
     ApplyToGRPCRequest := fun _ spec => spec;
     Environment_ApplyToGRPCRequest := fun _ spec => spec;
     MetadataToKeyValue := fun _ => [];
     ReadFile := fun path => ok ("<" +:+ path +:+ ">");
     X509KeyPair := fun _ _ => None;
     SystemCertPool := ok [];
     filepath_Dir := fun path => path;
     filepath_Base := fun path => path;
     NewClient := fun _ _ => None;
     peer := fun _ _ _ _ => script;
     Marshal := fun _ m => ok ("{" +:+ msg_content m +:+ "}");
     Unmarshal := fun _ json m => ok (fill m json);
     ProtoFilesFromReflectionAPI := fun _ => ok double_registry;
     ProtoFilesFromDisk := fun _ _ => ok double_registry;
     LoadProtoFilesFromDisk := ok [] |}.

Definition no_auth : Auth.t := Auth.mk AuthTypeNone None None None.

Definition double_spec (method : string) (metadata : list KeyValue.t)
  (auth : Auth.t) : GRPCRequestSpec.t :=
  {| GRPCRequestSpec.LasSelectedMethod := method;
     GRPCRequestSpec.Metadata := metadata;
     GRPCRequestSpec.Auth := auth;
     GRPCRequestSpec.ServerInfo := ServerInfo.mk "localhost:9090" true [];
     GRPCRequestSpec.Settings := Settings.mk true 0 "" "" "";
     GRPCRequestSpec.Body := "hi" |}.

Definition double_service (spec : GRPCRequestSpec.t) : Service :=
  {| requests := {[ "req-1" := Request.mk "req-1" spec ]};
     environments := {[ "env-1" := Environment.mk "env-1" [] ]} |}.

Definition fresh : State := mk_State ∅ ∅ ∅ 0.

Definition basic_without_credentials : GRPCRequestSpec.t :=
  double_spec "/pkg.Svc/Echo" [] (Auth.mk AuthTypeBasic None None None).

Definition api_key_in_authorization : GRPCRequestSpec.t :=
  double_spec "/pkg.Svc/Echo" []
    (Auth.mk AuthTypeAPIKey None None
       (Some (APIKeyAuth.mk "Authorization" "secret123"))).

Definition three_messages : CallScript :=
  {| unary_reply := ok "";
     stream_open := None; stream_send := None; stream_close := None;
     stream_msgs := ["n:0"; "n:1"; "n:2"];
     stream_end := io_EOF;
     peer_headers := ∅; peer_trailers := ∅; elapsed := 3 |}.

Definition mutual_tls : GRPCRequestSpec.t :=
  {| GRPCRequestSpec.LasSelectedMethod := "/pkg.Svc/Echo";
     GRPCRequestSpec.Metadata := [];
     GRPCRequestSpec.Auth := no_auth;
     GRPCRequestSpec.ServerInfo := ServerInfo.mk "localhost:9090" true [];
     GRPCRequestSpec.Settings :=
       Settings.mk false 0 "" "client.crt" "client.key";
     GRPCRequestSpec.Body := "hi" |}.

(** The world of the double, but with no file at the client key path. *)
Definition double_world_without_key : World :=
  let w := double_world three_messages in
  {| GetVariables := GetVariables w;
     ApplyToEnv := ApplyToEnv w;
     ApplyToGRPCRequest := ApplyToGRPCRequest w;
     Environment_ApplyToGRPCRequest := Environment_ApplyToGRPCRequest w;
     MetadataToKeyValue := MetadataToKeyValue w;
     ReadFile := fun path =>
       if String.eqb path "client.key"
       then fail (errors_New "open client.key: no such file or directory")
       else ReadFile w path;
     X509KeyPair := X509KeyPair w;
     SystemCertPool := SystemCertPool w;
     filepath_Dir := filepath_Dir w;
     filepath_Base := filepath_Base w;
     NewClient := NewClient w;
     peer := peer w;
     Marshal := Marshal w;
     Unmarshal := Unmarshal w;
     ProtoFilesFromReflectionAPI := ProtoFilesFromReflectionAPI w;
     ProtoFilesFromDisk := ProtoFilesFromDisk w;
     LoadProtoFilesFromDisk := LoadProtoFilesFromDisk w |}.

Definition traced_with_token : GRPCRequestSpec.t :=
  double_spec "/pkg.Svc/Echo" [KeyValue.mk "X-Trace" "abc" true]
    (Auth.mk AuthTypeToken None (Some (TokenAuth.mk "t0k3n")) None).

Definition traced_without_auth : GRPCRequestSpec.t :=
  double_spec "/pkg.Svc/Echo" [KeyValue.mk "X-Trace" "abc" true] no_auth.

Definition echo_reply : CallScript :=
  {| unary_reply := ok "hi";
     stream_open := None; stream_send := None; stream_close := None;
     stream_msgs := []; stream_end := io_EOF;
     peer_headers := ∅; peer_trailers := ∅; elapsed := 1 |}.

Definition two_then_unavailable : CallScript :=
  {| unary_reply := ok "";
     stream_open := None; stream_send := None; stream_close := None;
     stream_msgs := ["n:0"; "n:1"];
     stream_end := status_Error 14 "connection lost";
     peer_headers := ∅; peer_trailers := ∅; elapsed := 40 |}.

Definition feed_spec : GRPCRequestSpec.t :=
  {| GRPCRequestSpec.LasSelectedMethod := "/pkg.Svc/Feed";
     GRPCRequestSpec.Metadata := [];
     GRPCRequestSpec.Auth := no_auth;
     GRPCRequestSpec.ServerInfo := ServerInfo.mk "localhost:9090" true [];
     GRPCRequestSpec.Settings := Settings.mk true 200 "" "" "";
     GRPCRequestSpec.Body := "hi" |}.

Definition double_conn : ClientConn :=
  mk_ClientConn "localhost:9090"
    [WithUserAgent "Chapar/0.1.0-beta1";
     WithTransportCredentials insecure_NewCredentials].

Definition double_dialled : Event :=
  EvNewClient "localhost:9090"
    [WithUserAgent "Chapar/0.1.0-beta1";
     WithTransportCredentials insecure_NewCredentials].

Definition discovered : State :=
  mk_State {[ "req-1" := double_registry ]} ∅ ∅ 0.

Definition upload_spec : GRPCRequestSpec.t :=
  double_spec "/pkg.Svc/Upload" [] no_auth.

Definition nothing_selected : GRPCRequestSpec.t := double_spec "" [] no_auth.

(** * More of the service *)

(** ** [GetRequestStruct] *)

(** [protojson.MarshalOptions{Indent: "  ", EmitUnpopulated: true,
    UseProtoNames: true}]. *)
Definition preview_options : protojson.MarshalOptions :=
  protojson.mk_MarshalOptions "  " true true.

Definition GetRequestStruct (s : Service) (w : World)
  (id environmentID : string) : M string :=
  match requests s !! id with
  | None => raise ErrRequestNotFound
  | Some req =>
      let method :=
        GRPCRequestSpec.LasSelectedMethod (Request.Spec_GRPC req) in
      if bool_decide (method = "") then
        raise (errors_New "no method selected")
      else
        (* get the method descriptor *)
        md <- getMethodDesc s w id environmentID method ;;
        let request := dynamicpb_NewMessage (MethodDescriptor.Input md) in
        reqJSON <- lift (Marshal w preview_options request) ;;
        ret reqJSON
  end.

(** ** More vocabulary *)

(** A run with events put before its own. *)
Definition prepend {A} (evs : list Event) (r : Run A) : Run A :=
  mk_Run (outcome r) (final r) (evs ++ events r).

(** The entry [parseRegistryFiles] makes for a method of a service. *)
Definition listed_method (svc : ServiceDescriptor.t)
  (mth : MethodDescriptor.t) : GRPCMethod.t :=
  GRPCMethod.mk
    ("/" +:+ ServiceDescriptor.FullName svc +:+ "/" +:+ MethodDescriptor.Name mth)
    (MethodDescriptor.Name mth)
    (MethodDescriptor.IsStreamingClient mth)
    (MethodDescriptor.IsStreamingServer mth).

(** The order of [sort.SliceStable] in [parseRegistryFiles]. *)
Definition method_less (a b : GRPCMethod.t) : bool :=
  String.ltb (GRPCMethod.Name a) (GRPCMethod.Name b).

Definition service_less (a b : GRPCService.t) : bool :=
  String.ltb (GRPCService.Name a) (GRPCService.Name b).

(** The entry [parseRegistryFiles] makes for a service. *)
Definition listed_service (svc : ServiceDescriptor.t) : GRPCService.t :=
  GRPCService.mk (ServiceDescriptor.Name svc)
    (SliceStable method_less
       (map (listed_method svc) (ServiceDescriptor.Methods svc))).

(** The services of a registry, in the order [RangeFiles] and the files
    have them. *)
Definition services_of (registry : Files) : list ServiceDescriptor.t :=
  flat_map FileDescriptor.Services registry.

Fixpoint contains_slash (s : string) : bool :=
  match s with
  | EmptyString => false
  | String c rest => Ascii.eqb c "/"%char || contains_slash rest
  end.

(** The declarations of a file, each with its full name, in the order
    [find_in_file] looks at them. *)
Definition declarations_of (fd : FileDescriptor.t)
  : list (string * Descriptor) :=
  map (fun o => (fst o, DescOther (snd o))) (FileDescriptor.Others fd)
  ++ flat_map
       (fun svc =>
          (ServiceDescriptor.FullName svc, DescService svc)
          :: map
               (fun mth =>
                  (ServiceDescriptor.FullName svc +:+ "."
                   +:+ MethodDescriptor.Name mth, DescMethod mth))
               (ServiceDescriptor.Methods svc))
       (FileDescriptor.Services fd).

Definition declarations (registry : Files) : list (string * Descriptor) :=
  flat_map declarations_of registry.

(** The call definition [GetServices] dials with: after the variables,
    and after the overlay of the environment when there is one. *)
Definition discovery_spec (s : Service) (w : World) (req : Request.t)
  (envid : string) : GRPCRequestSpec.t :=
  let vars := GetVariables w in
  let spec := ApplyToGRPCRequest w vars (Request.Spec_GRPC (Request.Clone req)) in
  match getActiveEnvironment s envid with
  | Some activeEnvironment =>
      Environment_ApplyToGRPCRequest w
        (variables_ApplyToEnv w vars activeEnvironment) spec
  | None => spec
  end.

(** What a discovery for a request delivers from a state: [files] is the
    registry handed over by the source that the call definition names, on
    the connection that [Dial] gives; the answer of server reflection when
    the call definition has server reflection on, and otherwise the parse
    of the schema files of the call definition and of the tracked ones. *)
Definition discovered_registry (s : Service) (w : World) (id envid : string)
  (st : State) (files : Files) : Prop :=
  ∃ req conn,
    requests s !! id = Some req ∧
    outcome (Dial w (discovery_spec s w req envid) st) = Ok conn ∧
    if ServerInfo.ServerReflection
         (GRPCRequestSpec.ServerInfo (discovery_spec s w req envid))
    then ProtoFilesFromReflectionAPI w conn = ok files
    else
      ServerInfo.ProtoFiles
        (GRPCRequestSpec.ServerInfo (discovery_spec s w req envid)) ≠ [] ∧
      ∃ protoFiles,
        LoadProtoFilesFromDisk w = ok protoFiles ∧
        ProtoFilesFromDisk w
          (getImportPaths w protoFiles
             (ServerInfo.ProtoFiles
                (GRPCRequestSpec.ServerInfo (discovery_spec s w req envid)))).1
          (getImportPaths w protoFiles
             (ServerInfo.ProtoFiles
                (GRPCRequestSpec.ServerInfo (discovery_spec s w req envid)))).2
        = ok files.

(** Every run of a computation relates the state it begins in to the
    state it ends in. *)
Definition preserves (R : State → State → Prop) {A} (c : M A) : Prop :=
  ∀ st, R st (final (c st)).

(** The registry cache is the same in both states. *)
Definition same_registry (st st' : State) : Prop :=
  protoFilesRegistry st' = protoFilesRegistry st.

(** The registry cache is the same in both states, but for the entry of
    [id]. *)
Definition same_registry_but (id : string) (st st' : State) : Prop :=
  ∀ id', id' ≠ id → protoFilesRegistry st' !! id' = protoFilesRegistry st !! id'.

(** An event with which the service turns to the peer for a call. *)
Definition is_call (ev : Event) : Prop := event_ctx ev ≠ None.

(** How many clients a list of events has made. *)
Definition makes_client (ev : Event) : bool :=
  match ev with
  | EvNewClient _ _ => true
  | _ => false
  end.

Definition clients_made (evs : list Event) : nat :=
  length (filter (fun ev => makes_client ev = true) evs).

(** ** More of the test double *)

Definition insecure_with_paths : GRPCRequestSpec.t :=
  {| GRPCRequestSpec.LasSelectedMethod := "/pkg.Svc/Echo";
     GRPCRequestSpec.Metadata := [];
     GRPCRequestSpec.Auth := no_auth;
     GRPCRequestSpec.ServerInfo := ServerInfo.mk "localhost:9090" true [];
     GRPCRequestSpec.Settings :=
       Settings.mk true 0 "ca.pem" "client.crt" "client.key";
     GRPCRequestSpec.Body := "hi" |}.

Definition with_root_ca : GRPCRequestSpec.t :=
  {| GRPCRequestSpec.LasSelectedMethod := "/pkg.Svc/Echo";
     GRPCRequestSpec.Metadata := [];
     GRPCRequestSpec.Auth := no_auth;
     GRPCRequestSpec.ServerInfo := ServerInfo.mk "localhost:9090" true [];
     GRPCRequestSpec.Settings := Settings.mk false 0 "ca.pem" "" "";
     GRPCRequestSpec.Body := "hi" |}.

(** A call definition with neither server reflection nor schema files. *)
Definition without_source : GRPCRequestSpec.t :=
  {| GRPCRequestSpec.LasSelectedMethod := "/pkg.Svc/Echo";
     GRPCRequestSpec.Metadata := [];
     GRPCRequestSpec.Auth := no_auth;
     GRPCRequestSpec.ServerInfo := ServerInfo.mk "localhost:9090" false [];
     GRPCRequestSpec.Settings := Settings.mk true 0 "" "" "";
     GRPCRequestSpec.Body := "hi" |}.

(** A call definition with server reflection and a schema file. *)
Definition with_both_sources : GRPCRequestSpec.t :=
  {| GRPCRequestSpec.LasSelectedMethod := "/pkg.Svc/Echo";
     GRPCRequestSpec.Metadata := [];
     GRPCRequestSpec.Auth := no_auth;
     GRPCRequestSpec.ServerInfo :=
       ServerInfo.mk "localhost:9090" true ["api/svc.proto"];
     GRPCRequestSpec.Settings := Settings.mk true 0 "" "" "";
     GRPCRequestSpec.Body := "hi" |}.

(** A peer that refuses the call. *)
Definition refused : CallScript :=
  {| unary_reply := fail (status_Error 7 "not allowed");
     stream_open := None; stream_send := None; stream_close := None;
     stream_msgs := []; stream_end := io_EOF;
     peer_headers := ∅; peer_trailers := ∅; elapsed := 2 |}.

(** The world of the double, but with no file at the root certificate
    path. *)
Definition double_world_without_root : World :=
  let w := double_world echo_reply in
  {| GetVariables := GetVariables w;
     ApplyToEnv := ApplyToEnv w;
     ApplyToGRPCRequest := ApplyToGRPCRequest w;
     Environment_ApplyToGRPCRequest := Environment_ApplyToGRPCRequest w;
     MetadataToKeyValue := MetadataToKeyValue w;
     ReadFile := fun path =>
       if String.eqb path "ca.pem"
       then fail (errors_New "open ca.pem: no such file or directory")
       else ReadFile w path;
     X509KeyPair := X509KeyPair w;
     SystemCertPool := SystemCertPool w;
     filepath_Dir := filepath_Dir w;
     filepath_Base := filepath_Base w;
     NewClient := NewClient w;
     peer := peer w;
     Marshal := Marshal w;
     Unmarshal := Unmarshal w;
     ProtoFilesFromReflectionAPI := ProtoFilesFromReflectionAPI w;
     ProtoFilesFromDisk := ProtoFilesFromDisk w;
     LoadProtoFilesFromDisk := LoadProtoFilesFromDisk w |}.

(** The world of the double, but with an encoder that fails on the
    content [bad]. *)
Definition double_world_strict (script : CallScript) : World :=
  let w := double_world script in
  {| GetVariables := GetVariables w;
     ApplyToEnv := ApplyToEnv w;
     ApplyToGRPCRequest := ApplyToGRPCRequest w;
     Environment_ApplyToGRPCRequest := Environment_ApplyToGRPCRequest w;
     MetadataToKeyValue := MetadataToKeyValue w;
     ReadFile := ReadFile w;
     X509KeyPair := X509KeyPair w;
     SystemCertPool := SystemCertPool w;
     filepath_Dir := filepath_Dir w;
     filepath_Base := filepath_Base w;
     NewClient := NewClient w;
     peer := peer w;
     Marshal := fun opts m =>
       if String.eqb (msg_content m) "bad"
       then fail (errors_New "proto: invalid UTF-8")
       else Marshal w opts m;
     Unmarshal := Unmarshal w;
     ProtoFilesFromReflectionAPI := ProtoFilesFromReflectionAPI w;
     ProtoFilesFromDisk := ProtoFilesFromDisk w;
     LoadProtoFilesFromDisk := LoadProtoFilesFromDisk w |}.

(** A stream whose second message does not encode. *)
Definition good_bad_good : CallScript :=
  {| unary_reply := ok "";
     stream_open := None; stream_send := None; stream_close := None;
     stream_msgs := ["n:0"; "bad"; "n:2"];
     stream_end := io_EOF;
     peer_headers := ∅; peer_trailers := ∅; elapsed := 5 |}.

(** A peer that refuses to open a stream. *)
Definition no_stream : CallScript :=
  {| unary_reply := ok "";
     stream_open := Some (status_Error 12 "unknown method Feed");
     stream_send := None; stream_close := None;
     stream_msgs := ["n:0"]; stream_end := io_EOF;
     peer_headers := ∅; peer_trailers := ∅; elapsed := 5 |}.

(** A call definition with two entries for one metadata key, in two
    spellings, and a disabled entry. *)
Definition two_spellings : GRPCRequestSpec.t :=
  double_spec "/pkg.Svc/Upload"
    [KeyValue.mk "X-Trace" "abc" true;
     KeyValue.mk "x-trace" "hidden" false;
     KeyValue.mk "x-TRACE" "def" true;
     KeyValue.mk "other" "ghi" true]
    no_auth.

(** A call definition with token auth selected and no token config. *)
Definition token_without_config : GRPCRequestSpec.t :=
  double_spec "/pkg.Svc/Upload" [] (Auth.mk AuthTypeToken None None None).

(** * Properties *)

(** ** Authentication headers *)

Lemma MD_Append_New (k v : string) :
  MD_Append MD_New k v = {[ ToLower k := [v] ]}.
Proof.
  unfold MD_Append, MD_New. rewrite lookup_empty. simpl.
  by rewrite insert_empty.
Qed.

Lemma MD_Len_single (k v : string) : MD_Len (MD_Append MD_New k v) = 1%nat.
Proof. rewrite MD_Append_New. unfold MD_Len. apply map_size_singleton. Qed.

Lemma MD_Get_single (k v k' : string) :
  MD_Get (MD_Append MD_New k v) k' =
  if bool_decide (ToLower k = ToLower k') then [v] else [].
Proof.
  rewrite MD_Append_New. unfold MD_Get.
  case_bool_decide as Hk.
  - by rewrite Hk, lookup_singleton_eq.
  - by rewrite lookup_singleton_ne.
Qed.

Lemma single_entry_Append (k v : string) :
  single_entry (MD_Append MD_New k v) k v.
Proof.
  split; [apply MD_Len_single |].
  rewrite MD_Get_single. by rewrite bool_decide_eq_true_2.
Qed.

(** C8, amended.  [prepareAuth] resolves at most one header set, by the
    variant of the auth config: none, and any unknown type, resolve
    nothing; a bearer token resolves the single entry
    [Authorization: Bearer <token>]; basic credentials resolve the single
    entry [Authorization: Basic <username>:<password>], the two joined as
    they are, and nothing when the credentials are absent; an API key
    resolves the single entry of the configured header name and value,
    and that entry is the only one, so there is no Authorization entry
    unless the configured name is Authorization itself. *)
Theorem prepareAuth_resolved (req : GRPCRequestSpec.t) : resolved req.
Proof.
  unfold resolved, prepareAuth.
  destruct (Auth.Type_ (GRPCRequestSpec.Auth req)) eqn:Htype; simpl.
  - done.
  - destruct (Auth.BasicAuth (GRPCRequestSpec.Auth req)) as [basicAuth|].
    + eexists. split; [done |]. apply single_entry_Append.
    + done.
  - intros tokenAuth ->. eexists. split; [done |]. apply single_entry_Append.
  - destruct (Auth.BasicAuth (GRPCRequestSpec.Auth req));
      intros apiKeyAuth ->; (eexists; split; [done |]);
      (split; [apply single_entry_Append |]);
      intros Hname; rewrite MD_Get_single;
      by rewrite bool_decide_eq_false_2.
  - by destruct (Auth.BasicAuth (GRPCRequestSpec.Auth req)).
Qed.

(** The double with a bearer token. *)
Lemma prepareAuth_resolved_witness :
  ∃ md,
    prepareAuth traced_with_token = Ok (Some md) ∧
    single_entry md "Authorization" "Bearer t0k3n".
Proof.
  exact (prepareAuth_resolved traced_with_token (TokenAuth.mk "t0k3n") eq_refl).
Defined.

(** C8 as stated fails at two auth configs: basic without credentials
    resolves no entry, and an API key configured under the header name
    Authorization resolves an Authorization entry. *)
Lemma prepareAuth_not_as_stated :
  ¬ resolved_as_stated basic_without_credentials ∧
  ¬ resolved_as_stated api_key_in_authorization.
Proof.
  split.
  - intros (md & value & Hrun & _). discriminate Hrun.
  - intros H. destruct (H _ eq_refl) as (md & Hrun & _ & Hnone).
    injection Hrun as <-. vm_compute in Hnone. discriminate Hnone.
Qed.

(** ** The receive loop *)

Lemma app_assoc_string (s1 s2 s3 : string) :
  (s1 +:+ s2) +:+ s3 = s1 +:+ (s2 +:+ s3).
Proof.
  induction s1 as [| c s1 IH]; [done |].
  change (String c ((s1 +:+ s2) +:+ s3) = String c (s1 +:+ (s2 +:+ s3))).
  by rewrite IH.
Qed.

Lemma app_nil_r_string (s : string) : s +:+ "" = s.
Proof.
  induction s as [| c s IH]; [done |].
  change (String c (s +:+ "") = String c s). by rewrite IH.
Qed.

Lemma wrap64_small (z : Z) : - 2 ^ 63 ≤ z < 2 ^ 63 → wrap64 z = z.
Proof. intros Hz. unfold wrap64. rewrite Z.mod_small; lia. Qed.

Lemma recvLoop_encoded (w : World) (ctx : Context) (md : MethodDescriptor.t)
  (fin : error) (contents texts : list string) :
  encoded w md contents texts →
  ∀ (k : nat) (out : string) (st : State),
    Z.of_nat (k + length contents) < 2 ^ 63 →
    recvLoop w ctx md fin contents out (Z.of_nat k) st =
    mk_Run
      (Ok (loop_result fin
             (out +:+ join (imap (fun i => block (k + i)) texts))))
      st (replicate (S (length contents)) (EvRecvMsg ctx)).
Proof.
  induction 1 as [| content json contents texts Hjson _ IH];
    intros k out st Hk.
  - unfold loop_result, join. cbn. rewrite app_nil_r_string.
    by case_bool_decide.
  - simpl in Hk. cbn [recvLoop]. unfold bind at 1.
    cbn [emit outcome final events].
    rewrite Hjson.
    rewrite wrap64_small by lia.
    replace (Z.of_nat k + 1) with (Z.of_nat (S k)) by lia.
    rewrite IH by lia.
    cbn [outcome final events length replicate app]. f_equal.
    rewrite imap_cons. unfold join. cbn [foldr].
    rewrite app_assoc_string. rewrite Nat.add_0_r.
    replace (imap ((fun i => block (k + i)) ∘ S) texts)
      with (imap (fun i => block (S k + i)) texts); [done |].
    apply imap_ext. intros i x _. simpl. f_equal. lia.
Qed.

(** The run of a server-streaming call whose stream opens, takes the
    request and delivers messages that encode. *)
Lemma invokeServerStream_run (w : World) (ctx : Context)
  (conn : ClientConn) (method : string) (req : Message)
  (md : MethodDescriptor.t) (script : CallScript)
  (contents texts : list string) (st : State) :
  peer w conn ctx method req = script →
  stream_open script = None →
  stream_send script = None →
  stream_close script = None →
  stream_msgs script = contents →
  encoded w md contents texts →
  Z.of_nat (length contents) < 2 ^ 63 →
  invokeServerStream w ctx (Some conn) method req md st =
  mk_Run (Ok (loop_result (stream_end script) (blocks texts)))
         (answered st script)
         ([EvNewStream conn ctx (mk_StreamDesc method false true) method;
           EvSendMsg ctx req; EvCloseSend ctx]
          ++ replicate (S (length contents)) (EvRecvMsg ctx)).
Proof.
  intros Hscript Hopen Hsend Hclose Hmsgs Henc Hlen.
  unfold invokeServerStream, WithCancel. rewrite Hscript.
  unfold bind. cbn [peer_answers emit outcome final events].
  rewrite Hopen. cbn [emit outcome final events].
  rewrite Hsend. cbn [emit outcome final events].
  rewrite Hclose, Hmsgs.
  change 0 with (Z.of_nat 0).
  rewrite (recvLoop_encoded w _ md _ contents texts Henc) by (simpl; lia).
  cbn [outcome final events]. done.
Qed.

Example blocks_of_three :
  blocks ["{n:0}"; "{n:1}"; "{n:2}"] =
  "Message 0:" +:+ nl +:+ "{n:0}" +:+ nl +:+ nl +:+
  "Message 1:" +:+ nl +:+ "{n:1}" +:+ nl +:+ nl +:+
  "Message 2:" +:+ nl +:+ "{n:2}" +:+ nl +:+ nl.
Proof. vm_compute. reflexivity. Qed.

(** ** Reasoning about runs *)

Section Combinators.
Context (P : Event → Prop).

Lemma emits_ret {A} (a : A) : emits P (ret a).
Proof. intros st. constructor. Qed.

Lemma emits_raise {A} (e : error) : emits P (@raise A e).
Proof. intros st. constructor. Qed.

Lemma emits_panic {A} : emits P (@panic A).
Proof. intros st. constructor. Qed.

Lemma emits_pure {A} (o : Outcome A) : emits P (pure o).
Proof. intros st. constructor. Qed.

Lemma emits_lift {A} (r : result A) : emits P (lift r).
Proof. destruct r; [apply emits_ret | apply emits_raise]. Qed.

Lemma emits_check (r : option error) : emits P (check r).
Proof. destruct r; [apply emits_raise | apply emits_ret]. Qed.

Lemma emits_emit (ev : Event) : P ev → emits P (emit ev).
Proof. intros Hev st. by repeat constructor. Qed.

Lemma emits_bind {A B} (c : M A) (k : A → M B) :
  emits P c → (∀ a, emits P (k a)) → emits P (bind c k).
Proof.
  intros Hc Hk st. unfold bind.
  destruct (outcome (c st)); cbn [events]; [| apply Hc ..].
  apply Forall_app. split; [apply Hc | apply Hk].
Qed.

Lemma emits_registry_Get (id : string) : emits P (registry_Get id).
Proof. intros st. constructor. Qed.

Lemma emits_registry_Set (id : string) (files : Files) :
  emits P (registry_Set id files).
Proof. intros st. constructor. Qed.
End Combinators.

Lemma pure_state_ret {A} (a : A) : pure_state (ret a).
Proof. done. Qed.

Lemma pure_state_raise {A} (e : error) : pure_state (@raise A e).
Proof. done. Qed.

Lemma pure_state_lift {A} (r : result A) : pure_state (lift r).
Proof. by destruct r. Qed.

Lemma pure_state_check (r : option error) : pure_state (check r).
Proof. by destruct r. Qed.

Lemma pure_state_emit (ev : Event) : pure_state (emit ev).
Proof. done. Qed.

Lemma pure_state_bind {A B} (c : M A) (k : A → M B) :
  pure_state c → (∀ a, pure_state (k a)) → pure_state (bind c k).
Proof.
  intros Hc Hk st. unfold bind.
  destruct (outcome (c st)); cbn [final]; [| apply Hc ..].
  rewrite Hk. apply Hc.
Qed.

Create HintDb runs discriminated.
#[local] Hint Resolve emits_ret emits_raise emits_panic emits_pure emits_lift
  emits_check emits_registry_Get emits_registry_Set
  pure_state_ret pure_state_raise pure_state_lift pure_state_check
  pure_state_emit : runs.

(** Walks through a computation written with [bind]. *)
Ltac step_run :=
  repeat first
    [ apply emits_bind; [| intros ?]
    | apply pure_state_bind; [| intros ?]
    | apply emits_emit
    | solve [eauto with runs]
    | match goal with
      | |- emits _ (if ?b then _ else _) => destruct b
      | |- pure_state (if ?b then _ else _) => destruct b
      | |- emits _ (match ?x with _ => _ end) => destruct x
      | |- pure_state (match ?x with _ => _ end) => destruct x
      end ].

(** ** [Dial] *)

Lemma Dial_pure_state (w : World) (req : GRPCRequestSpec.t) :
  pure_state (Dial w req).
Proof.
  unfold Dial, os_ReadFile, tls_X509KeyPair, grpc_NewClient. step_run.
Qed.

Lemma Dial_emits (w : World) (req : GRPCRequestSpec.t) :
  emits is_dial_event (Dial w req).
Proof.
  unfold Dial, os_ReadFile, tls_X509KeyPair, grpc_NewClient.
  step_run; exact I.
Qed.

(** [Dial] never reads the client key path, unless that path is also the
    client certificate path or the root certificate path. *)
Lemma Dial_never_reads_ClientKeyFile (w : World) (req : GRPCRequestSpec.t) :
  let settings := GRPCRequestSpec.Settings req in
  Settings.ClientKeyFile settings ≠ Settings.ClientCertFile settings →
  Settings.ClientKeyFile settings ≠ Settings.RootCertFile settings →
  emits (fun ev => ev ≠ EvReadFile (Settings.ClientKeyFile settings))
        (Dial w req).
Proof.
  intros settings Hcert Hroot.
  unfold Dial, os_ReadFile, tls_X509KeyPair, grpc_NewClient. fold settings.
  step_run; congruence.
Qed.

(** C5, at a call definition with a client certificate path and a client
    key path.  [Dial] reads the certificate path twice and the key path
    never, and pairs the certificate file with itself; with no file at the
    key path it does not fail. *)
Theorem Dial_reads_certificate_twice :
  let r := Dial (double_world three_messages) mutual_tls fresh in
  events r =
    [EvReadFile "client.crt"; EvReadFile "client.crt";
     EvNewClient "localhost:9090"
       [WithUserAgent "Chapar/0.1.0-beta1";
        WithTransportCredentials
          (credentials_NewTLS
             (tls.mk_Config false
                [mk_Certificate "<client.crt>" "<client.crt>"] []))]] ∧
  (EvReadFile "client.key" ∉ events r) ∧
  ReadFile double_world_without_key "client.key"
  = fail (errors_New "open client.key: no such file or directory") ∧
  Dial double_world_without_key mutual_tls fresh = r ∧
  ∃ conn, outcome r = Ok conn.
Proof.
  intros r.
  assert (events r =
    [EvReadFile "client.crt"; EvReadFile "client.crt";
     EvNewClient "localhost:9090"
       [WithUserAgent "Chapar/0.1.0-beta1";
        WithTransportCredentials
          (credentials_NewTLS
             (tls.mk_Config false
                [mk_Certificate "<client.crt>" "<client.crt>"] []))]])
    as Hevents by reflexivity.
  split; [done |]. split.
  - rewrite Hevents, !elem_of_cons, elem_of_nil.
    intros [H | [H | [H | H]]]; [discriminate H .. | done].
  - split; [reflexivity |]. split; [reflexivity |]. by eexists.
Qed.

(** ** Runs of [Invoke] *)

Lemma bind_run {A B} (c : M A) (k : A → M B) (st st' : State) (a : A)
  (evs : list Event) :
  c st = mk_Run (Ok a) st' evs →
  bind c k st =
  mk_Run (outcome (k a st')) (final (k a st')) (evs ++ events (k a st')).
Proof. intros Hc. unfold bind. by rewrite Hc. Qed.

Lemma bind_run_Err {A B} (c : M A) (k : A → M B) (st st' : State) (e : error)
  (evs : list Event) :
  c st = mk_Run (Err e) st' evs → bind c k st = mk_Run (Err e) st' evs.
Proof. intros Hc. unfold bind. by rewrite Hc. Qed.

Lemma bind_run_Panic {A B} (c : M A) (k : A → M B) (st st' : State)
  (evs : list Event) :
  c st = mk_Run Panic st' evs → bind c k st = mk_Run Panic st' evs.
Proof. intros Hc. unfold bind. by rewrite Hc. Qed.

Lemma Invoke_from_call (s : Service) (w : World) (id envid : string)
  (st : State) spec conn md request ctx st' evs :
  reaches_call s w id envid st spec conn md request ctx st' evs →
  let r := call_and_respond w spec conn md request ctx st' in
  Invoke s w id envid st = mk_Run (outcome r) (final r) (evs ++ events r).
Proof.
  intros [env spec' conn' md' request' authHeaders evs1 st2 evs2
            Hbuilt Hmethod Hdial Hdesc Hjson Hauth] r.
  subst r. unfold built_spec in Hbuilt. unfold Invoke.
  destruct (requests s !! id) as [req |]; [| discriminate].
  destruct (getActiveEnvironment s envid) as [env0 |]; [| discriminate].
  injection Hbuilt as <- <-.
  rewrite bool_decide_eq_false_2 by done.
  erewrite bind_run by exact Hdial. cbn [outcome final events].
  erewrite bind_run by exact Hdesc. cbn [outcome final events].
  erewrite bind_run by (unfold lift; rewrite Hjson; reflexivity).
  cbn [outcome final events].
  erewrite bind_run by (unfold pure; rewrite Hauth; reflexivity).
  cbn [outcome final events].
  erewrite bind_run by reflexivity.
  cbn [outcome final events app].
  by rewrite app_assoc.
Qed.

(** *** What the two kinds of call return and cause *)

Lemma recvLoop_returns w ctx md fin pending :
  ∀ out counter st,
    returns_pair (recvLoop w ctx md fin pending out counter st).
Proof.
  induction pending as [| content rest IH]; intros out counter st.
  - cbn. case_bool_decide; eexists _, _; split; done.
  - cbn [recvLoop]. unfold bind. cbn [emit outcome final events].
    destruct (Marshal w indent_two _) as [respJSON | err].
    + destruct (IH (out +:+ ("Message " +:+ pretty counter +:+ ":" +:+ nl
                              +:+ respJSON +:+ nl +:+ nl))
                   (wrap64 (counter + 1)) st)
        as (respStr & respErr & Hrun & Hempty).
      rewrite Hrun. by eexists _, _.
    + eexists _, _; split; done.
Qed.

Lemma recvLoop_emits w ctx md fin pending :
  ∀ out counter, emits (under ctx) (recvLoop w ctx md fin pending out counter).
Proof.
  induction pending as [| content rest IH]; intros out counter;
    cbn [recvLoop].
  - step_run; done.
  - apply emits_bind; [by apply emits_emit | intros _].
    destruct (Marshal w indent_two _); [apply IH | step_run].
Qed.

Lemma invokeServerStream_returns w ctx conn method req md st :
  returns_pair (invokeServerStream w ctx conn method req md st).
Proof.
  unfold invokeServerStream, WithCancel.
  destruct conn as [conn |]; [| by eexists _, _].
  unfold bind. cbn [emit peer_answers outcome final events].
  destruct (stream_open _); [by eexists _, _ |].
  cbn [emit peer_answers outcome final events].
  destruct (stream_send _); [by eexists _, _ |].
  cbn [emit peer_answers outcome final events].
  destruct (stream_close _); [by eexists _, _ |].
  cbn [outcome final events].
  match goal with
  | |- context [recvLoop ?w ?c ?m ?f ?p ?o ?k ?s] =>
      destruct (recvLoop_returns w c m f p o k s)
        as (respStr & respErr & Hrun & Hempty)
  end.
  rewrite Hrun. by eexists _, _.
Qed.

Lemma emits_peer_answers P script : emits P (peer_answers script).
Proof. intros st. constructor. Qed.

Lemma invokeServerStream_emits w ctx conn method req md :
  emits (under ctx) (invokeServerStream w ctx conn method req md).
Proof.
  unfold invokeServerStream, WithCancel.
  destruct conn as [conn |]; [| step_run].
  apply emits_bind; [by apply emits_emit | intros _].
  apply emits_bind; [apply emits_peer_answers | intros _].
  destruct (stream_open _); [step_run |].
  apply emits_bind; [by apply emits_emit | intros _].
  destruct (stream_send _); [step_run |].
  apply emits_bind; [by apply emits_emit | intros _].
  destruct (stream_close _); [step_run |].
  apply recvLoop_emits.
Qed.

Lemma invokeUnary_returns w ctx conn method req md st :
  returns_pair (invokeUnary w ctx conn method req md st).
Proof.
  unfold invokeUnary.
  destruct conn as [conn |]; [| by eexists _, _].
  unfold bind. cbn [emit peer_answers outcome final events].
  destruct (unary_reply _); [| by eexists _, _].
  destruct (Marshal w indent_two _); by eexists _, _.
Qed.

Lemma invokeUnary_emits w ctx conn method req md :
  emits (under ctx) (invokeUnary w ctx conn method req md).
Proof.
  unfold invokeUnary.
  destruct conn as [conn |]; [| step_run].
  apply emits_bind; [by apply emits_emit | intros _].
  apply emits_bind; [apply emits_peer_answers | intros _].
  step_run.
Qed.

(** From the call on, [Invoke] returns a response; when the call has
    failed, the response comes with the error and has no body. *)
Lemma call_and_respond_returns w spec conn md request ctx st :
  ∃ out respErr,
    outcome (call_and_respond w spec conn md request ctx st)
    = Ok (out, respErr) ∧
    Response.Error_ out = respErr ∧
    Response.StatueCode out = status_Code respErr ∧
    Response.Status out = Code_String (status_Code respErr) ∧
    (respErr ≠ None → Response.Body out = "" ∧ Response.Size out = 0).
Proof.
  unfold call_and_respond.
  unfold bind at 1. cbn [time_Now outcome final events].
  unfold bind at 1.
  assert (returns_pair
            ((if MethodDescriptor.IsStreamingServer md
              then invokeServerStream w ctx (Some conn)
                     (GRPCRequestSpec.LasSelectedMethod spec) request md
              else invokeUnary w ctx (Some conn)
                     (GRPCRequestSpec.LasSelectedMethod spec) request md) st))
    as (respStr & respErr & Hrun & Hempty).
  { destruct (MethodDescriptor.IsStreamingServer md);
      [apply invokeServerStream_returns | apply invokeUnary_returns]. }
  rewrite Hrun. cbn [outcome final events fst snd].
  unfold bind. cbn [time_Now get_captured ret outcome final events].
  unfold make_response.
  destruct respErr as [e |]; eexists _, _; (split; [reflexivity |]);
    cbn; repeat split; try done.
  by rewrite Hempty.
Qed.

Lemma call_and_respond_emits w spec conn md request ctx :
  emits (under ctx) (call_and_respond w spec conn md request ctx).
Proof.
  unfold call_and_respond.
  apply emits_bind; [intros st; constructor | intros start].
  apply emits_bind.
  { destruct (MethodDescriptor.IsStreamingServer md);
      [apply invokeServerStream_emits | apply invokeUnary_emits]. }
  intros r. apply emits_bind; [intros st; constructor | intros now].
  apply emits_bind; [intros st; constructor | intros captured].
  apply emits_ret.
Qed.

(** *** Discovery causes no call *)

Lemma emits_weaken (P Q : Event → Prop) {A} (c : M A) :
  (∀ ev, P ev → Q ev) → emits P c → emits Q c.
Proof. intros HPQ Hc st. eapply Forall_impl; [apply Hc | done]. Qed.

Lemma Dial_no_call (w : World) (req : GRPCRequestSpec.t) :
  emits no_call (Dial w req).
Proof.
  eapply emits_weaken; [| apply Dial_emits]. by intros [].
Qed.

Lemma GetServices_no_call s w id envid : emits no_call (GetServices s w id envid).
Proof.
  unfold GetServices.
  destruct (requests s !! id) as [req |]; [| step_run].
  apply emits_bind; [apply Dial_no_call | intros conn].
  unfold grpc_ProtoFilesFromReflectionAPI, protoFiles_LoadProtoFilesFromDisk,
    grpc_ProtoFilesFromDisk.
  step_run; done.
Qed.

Lemma getMethodDesc_no_call s w id envid fullname :
  emits no_call (getMethodDesc s w id envid fullname).
Proof.
  unfold getMethodDesc, registryFiles_of.
  apply emits_bind; [| intros registryFiles; step_run].
  apply emits_bind; [step_run | intros cached].
  destruct cached; [step_run |].
  apply emits_bind; [apply GetServices_no_call | intros _; step_run].
Qed.

Lemma reaches_call_no_call s w id envid st spec conn md request ctx st' evs :
  reaches_call s w id envid st spec conn md request ctx st' evs →
  Forall no_call evs.
Proof.
  intros [env spec' conn' md' request' authHeaders evs1 st2 evs2
            _ _ Hdial Hdesc _ _].
  apply Forall_app. split.
  - change evs1 with (events (mk_Run (Ok conn') st evs1)).
    rewrite <- Hdial. apply Dial_no_call.
  - change evs2 with (events (mk_Run (Ok md') st2 evs2)).
    rewrite <- Hdesc. apply getMethodDesc_no_call.
Qed.

(** A run of [Invoke] either gets as far as the call, or ends without a
    response and without an event of the transport. *)
Lemma Invoke_cases (s : Service) (w : World) (id envid : string) (st : State) :
  (∃ spec conn md request ctx st' evs,
      reaches_call s w id envid st spec conn md request ctx st' evs) ∨
  ((∀ a, outcome (Invoke s w id envid st) ≠ Ok a) ∧
   Forall no_call (events (Invoke s w id envid st))).
Proof.
  pose proof (eq_refl (built_spec s w id envid)) as Hbuilt.
  unfold built_spec at 2 in Hbuilt. unfold Invoke.
  destruct (requests s !! id) as [req |]; [| right; split; [done | constructor]].
  destruct (getActiveEnvironment s envid) as [env0 |];
    [| right; split; [done | constructor]].
  cbn zeta in *.
  set (env := variables_ApplyToEnv w (GetVariables w) env0) in *.
  set (spec := Environment_ApplyToGRPCRequest w env _) in *.
  case_bool_decide as Hmethod; [right; split; [done | constructor] |].
  destruct (Dial w spec st) as [o1 st1 evs1] eqn:Hdial.
  assert (st1 = st) as ->.
  { change st1 with (final (mk_Run o1 st1 evs1)). rewrite <- Hdial.
    apply Dial_pure_state. }
  assert (Forall no_call evs1) as Hevs1.
  { change evs1 with (events (mk_Run o1 st evs1)). rewrite <- Hdial.
    apply Dial_no_call. }
  destruct o1 as [conn | e | ];
    [| erewrite bind_run_Err by exact Hdial; right; by split
     | erewrite bind_run_Panic by exact Hdial; right; by split].
  erewrite bind_run by exact Hdial. cbn [outcome final events].
  destruct (getMethodDesc s w id (Environment.MetaData_ID env)
              (GRPCRequestSpec.LasSelectedMethod spec) st)
    as [o2 st2 evs2] eqn:Hdesc.
  assert (Forall no_call evs2) as Hevs2.
  { change evs2 with (events (mk_Run o2 st2 evs2)). rewrite <- Hdesc.
    apply getMethodDesc_no_call. }
  destruct o2 as [md | e | ];
    [| erewrite bind_run_Err by exact Hdesc; right;
       (split; [done | by apply Forall_app])
     | erewrite bind_run_Panic by exact Hdesc; right;
       (split; [done | by apply Forall_app])].
  erewrite bind_run by exact Hdesc. cbn [outcome final events].
  destruct (Unmarshal w (protojson.mk_UnmarshalOptions true)
              (GRPCRequestSpec.Body spec)
              (dynamicpb_NewMessage (MethodDescriptor.Input md)))
    as [request | e] eqn:Hjson.
  2:{ right. erewrite bind_run_Err by reflexivity. cbn [outcome events].
      rewrite app_nil_r. split; [done | by apply Forall_app]. }
  destruct (prepareAuth spec) as [authHeaders | e | ] eqn:Hauth.
  2:{ right. erewrite bind_run by reflexivity.
      erewrite bind_run_Err by reflexivity. cbn [outcome events].
      rewrite !app_nil_r. split; [done | by apply Forall_app]. }
  2:{ right. erewrite bind_run by reflexivity.
      erewrite bind_run_Panic by reflexivity. cbn [outcome events].
      rewrite !app_nil_r. split; [done | by apply Forall_app]. }
  left. eexists _, _, _, _, _, _, _.
  eapply reaches_call_intro; eauto.
Qed.

Lemma reaches_call_context s w id envid st spec conn md request ctx st' evs :
  reaches_call s w id envid st spec conn md request ctx st' evs →
  ∃ env authHeaders,
    built_spec s w id envid = Some (env, spec) ∧
    prepareAuth spec = Ok authHeaders ∧
    ctx = call_context spec authHeaders.
Proof. intros []. by eexists _, _. Qed.

(** Every event of the transport in a run of [Invoke] is caused under the
    context made from the call definition as built and its auth
    headers. *)
Lemma Invoke_call_context (s : Service) (w : World) (id envid : string)
  (st : State) (ev : Event) (ctx : Context) :
  ev ∈ events (Invoke s w id envid st) →
  event_ctx ev = Some ctx →
  ∃ env spec authHeaders,
    built_spec s w id envid = Some (env, spec) ∧
    prepareAuth spec = Ok authHeaders ∧
    ctx = call_context spec authHeaders.
Proof.
  intros Hin Hctx.
  destruct (Invoke_cases s w id envid st)
    as [(spec & conn & md & request & ctx' & st' & evs & Hreach)
       | [_ Hnone]].
  - rewrite (Invoke_from_call _ _ _ _ _ _ _ _ _ _ _ _ Hreach) in Hin.
    cbn [events] in Hin. apply elem_of_app in Hin as [Hin | Hin].
    + pose proof (reaches_call_no_call _ _ _ _ _ _ _ _ _ _ _ _ Hreach) as Hno.
      rewrite Forall_forall in Hno. specialize (Hno _ Hin).
      unfold no_call in Hno. congruence.
    + pose proof (call_and_respond_emits w spec conn md request ctx' st')
        as Hunder.
      rewrite Forall_forall in Hunder. specialize (Hunder _ Hin).
      unfold under in Hunder.
      destruct (reaches_call_context _ _ _ _ _ _ _ _ _ _ _ _ Hreach)
        as (env & authHeaders & Hbuilt & Hauth & ->).
      exists env, spec, authHeaders. repeat split; [done .. | congruence].
  - rewrite Forall_forall in Hnone. specialize (Hnone _ Hin).
    unfold no_call in Hnone. congruence.
Qed.

(** ** The deadline *)

Lemma timeOut_of_cases (spec : GRPCRequestSpec.t) :
  let ms := Settings.TimeoutMilliseconds (GRPCRequestSpec.Settings spec) in
  (0 < ms → timeOut_of spec = wrap64 (ms * Millisecond)) ∧
  (0 < ms → ms * Millisecond < 2 ^ 63 → timeOut_of spec = ms * Millisecond) ∧
  (ms ≤ 0 → timeOut_of spec = 5000 * Millisecond).
Proof.
  intros ms. unfold timeOut_of. fold ms.
  destruct (Z.ltb_spec 0 ms) as [Hpos | Hnonpos];
    (split; [| split]); intros; try lia; try reflexivity.
  apply wrap64_small. unfold Millisecond in *. lia.
Qed.

(** C7.  Whatever [Invoke] sends to or receives from the peer, the
    request of a unary call, the opening of a stream, the request sent on
    it, the closing of its send side and every receive, happens under one
    context, whose timeout is the configured number of milliseconds when
    that number is strictly positive and 5000 ms when it is zero.  The
    product with [time.Millisecond] is an [int64]: it is the configured
    time as long as that fits. *)
Theorem Invoke_deadline (s : Service) (w : World) (id envid : string)
  (st : State) (ev : Event) (ctx : Context) :
  ev ∈ events (Invoke s w id envid st) →
  event_ctx ev = Some ctx →
  ∃ env spec,
    built_spec s w id envid = Some (env, spec) ∧
    let ms := Settings.TimeoutMilliseconds (GRPCRequestSpec.Settings spec) in
    (0 < ms → ctx_timeout ctx = Some (wrap64 (ms * Millisecond))) ∧
    (0 < ms → ms * Millisecond < 2 ^ 63 →
     ctx_timeout ctx = Some (ms * Millisecond)) ∧
    (ms = 0 → ctx_timeout ctx = Some (5000 * Millisecond)).
Proof.
  intros Hin Hctx.
  destruct (Invoke_call_context s w id envid st ev ctx Hin Hctx)
    as (env & spec & authHeaders & Hbuilt & _ & ->).
  exists env, spec. split; [done |].
  destruct (timeOut_of_cases spec) as (Hpos & Hfits & Hzero).
  cbn. repeat split.
  - intros H. by rewrite Hpos.
  - intros H1 H2. by rewrite Hfits.
  - intros H. rewrite Hzero; [done | lia].
Qed.

(** The double with a timeout of 200 ms, at a receive of its stream. *)
Lemma Invoke_deadline_witness :
  EvRecvMsg (call_context feed_spec None)
  ∈ events (Invoke (double_service feed_spec) (double_world three_messages)
              "req-1" "env-1" fresh) ∧
  ∃ env spec,
    built_spec (double_service feed_spec) (double_world three_messages)
      "req-1" "env-1" = Some (env, spec) ∧
    let ms := Settings.TimeoutMilliseconds (GRPCRequestSpec.Settings spec) in
    (0 < ms →
     ctx_timeout (call_context feed_spec None)
     = Some (wrap64 (ms * Millisecond))) ∧
    (0 < ms → ms * Millisecond < 2 ^ 63 →
     ctx_timeout (call_context feed_spec None) = Some (ms * Millisecond)) ∧
    (ms = 0 →
     ctx_timeout (call_context feed_spec None) = Some (5000 * Millisecond)).
Proof.
  assert (EvRecvMsg (call_context feed_spec None)
          ∈ events (Invoke (double_service feed_spec)
                      (double_world three_messages) "req-1" "env-1" fresh))
    as Hin.
  { apply (bool_decide_unpack _). vm_compute. exact I. }
  split; [exact Hin |].
  exact (Invoke_deadline _ _ _ _ _ _ _ Hin eq_refl).
Defined.

Example feed_deadline :
  ctx_timeout (call_context feed_spec None) = Some (200 * Millisecond).
Proof. reflexivity. Qed.

(** ** Outgoing metadata *)

Lemma MD_Get_Append (md : MD) (k v k' : string) :
  MD_Get (MD_Append md k v) k' =
  if bool_decide (ToLower k = ToLower k') then MD_Get md k' ++ [v]
  else MD_Get md k'.
Proof.
  unfold MD_Get, MD_Append. case_bool_decide as Hk.
  - by rewrite Hk, lookup_insert_eq.
  - by rewrite lookup_insert_ne.
Qed.

Lemma attach_metadata_cons (ctx : Context) (item : KeyValue.t)
  (items : list KeyValue.t) :
  attach_metadata ctx (item :: items) =
  attach_metadata
    (if negb (KeyValue.Enable item) then ctx
     else AppendToOutgoingContext ctx (KeyValue.Key item) (KeyValue.Value item))
    items.
Proof. reflexivity. Qed.

Lemma attach_metadata_added (items : list KeyValue.t) :
  ∀ md added timeout,
    attach_metadata (mk_Context (Some (mk_rawMD md added)) timeout) items =
    mk_Context (Some (mk_rawMD md (added ++ enabled_pairs items))) timeout.
Proof.
  unfold enabled_pairs.
  induction items as [| item items IH]; intros md added timeout.
  - cbn. by rewrite app_nil_r.
  - rewrite attach_metadata_cons, filter_cons.
    destruct (KeyValue.Enable item) eqn:Henable; cbn [negb].
    + rewrite decide_True by done.
      unfold AppendToOutgoingContext. cbn [ctx_outgoing ctx_timeout default
        from_option raw_md raw_added].
      rewrite IH. by rewrite <- app_assoc.
    + rewrite decide_False by done. apply IH.
Qed.

Lemma fold_Append_keeps (pairs : list (string * string)) :
  ∀ (md : MD) (k v : string),
    v ∈ MD_Get md k →
    v ∈ MD_Get (fold_left (fun out kv => MD_Append out kv.1 kv.2) pairs md) k.
Proof.
  induction pairs as [| [k0 v0] pairs IH]; intros md k v Hin; [done |].
  cbn [fold_left]. apply IH. rewrite MD_Get_Append.
  case_bool_decide; [apply elem_of_app; by left | done].
Qed.

Lemma fold_Append_has (pairs : list (string * string)) :
  ∀ (md : MD) (k v : string),
    (k, v) ∈ pairs →
    v ∈ MD_Get (fold_left (fun out kv => MD_Append out kv.1 kv.2) pairs md) k.
Proof.
  induction pairs as [| [k0 v0] pairs IH]; intros md k v Hin.
  - by apply elem_of_nil in Hin.
  - cbn [fold_left]. apply elem_of_cons in Hin as [Heq | Hin].
    + injection Heq as -> ->. apply fold_Append_keeps.
      rewrite MD_Get_Append, bool_decide_eq_true_2 by done.
      apply elem_of_app. right. by apply list_elem_of_singleton.
    + by apply IH.
Qed.

(** Without auth headers, the call sends every enabled metadata entry. *)
Lemma call_context_without_auth (spec : GRPCRequestSpec.t)
  (item : KeyValue.t) :
  item ∈ GRPCRequestSpec.Metadata spec →
  KeyValue.Enable item = true →
  KeyValue.Value item
  ∈ MD_Get (FromOutgoingContext (call_context spec None)) (KeyValue.Key item).
Proof.
  intros Hin Henable. unfold call_context, NewOutgoingContext, Background.
  cbn [ctx_timeout]. rewrite attach_metadata_added.
  unfold FromOutgoingContext, WithTimeout. cbn.
  apply fold_Append_has. unfold enabled_pairs.
  apply (list_elem_of_fmap_2
           (fun item => (KeyValue.Key item, KeyValue.Value item))).
  by apply list_elem_of_filter.
Qed.

(** With auth headers, the call sends the auth headers and nothing else:
    [NewOutgoingContext] replaces what the metadata loop has appended. *)
Lemma call_context_with_auth (spec : GRPCRequestSpec.t) (authHeaders : MD) :
  FromOutgoingContext (call_context spec (Some authHeaders)) = authHeaders.
Proof. reflexivity. Qed.

(** Whenever the auth config resolves to a header set, every call of
    [Invoke] is sent with that set and nothing else. *)
Lemma Invoke_sends_auth_alone (s : Service) (w : World) (id envid : string)
  (st : State) (ev : Event) (ctx : Context) (env : Environment.t)
  (spec : GRPCRequestSpec.t) (authHeaders : MD) :
  built_spec s w id envid = Some (env, spec) →
  prepareAuth spec = Ok (Some authHeaders) →
  ev ∈ events (Invoke s w id envid st) →
  event_ctx ev = Some ctx →
  FromOutgoingContext ctx = authHeaders.
Proof.
  intros Hbuilt Hauth Hin Hctx.
  destruct (Invoke_call_context s w id envid st ev ctx Hin Hctx)
    as (env' & spec' & authHeaders' & Hbuilt' & Hauth' & ->).
  rewrite Hbuilt in Hbuilt'. injection Hbuilt' as <- <-.
  rewrite Hauth in Hauth'. injection Hauth' as <-.
  apply call_context_with_auth.
Qed.

(** C1, at a call definition with one enabled metadata entry and a bearer
    token.  The one call [Invoke] makes sends the Authorization entry
    alone: the enabled entry [X-Trace] is not in the outgoing context.
    The same call definition without auth sends [X-Trace]. *)
Theorem Invoke_auth_replaces_metadata :
  sent_metadata
    (events (Invoke (double_service traced_with_token)
               (double_world echo_reply) "req-1" "env-1" fresh))
  = [ {[ "authorization" := ["Bearer t0k3n"] ]} ] ∧
  sent_metadata
    (events (Invoke (double_service traced_without_auth)
               (double_world echo_reply) "req-1" "env-1" fresh))
  = [ {[ "x-trace" := ["abc"] ]} ].
Proof. split; vm_compute; reflexivity. Qed.

(** ** A stream that fails after some messages *)

Lemma recvLoop_error (w : World) (ctx : Context) (md : MethodDescriptor.t)
  (fin : error) (contents texts : list string) :
  encoded w md contents texts →
  fin ≠ io_EOF →
  ∀ (out : string) (counter : Z) (st : State),
    recvLoop w ctx md fin contents out counter st =
    mk_Run (Ok ("", Some fin)) st
           (replicate (S (length contents)) (EvRecvMsg ctx)).
Proof.
  intros Henc Hfin.
  induction Henc as [| content json contents texts Hjson _ IH];
    intros out counter st.
  - cbn. by rewrite bool_decide_eq_false_2.
  - cbn [recvLoop]. unfold bind at 1. cbn [emit outcome final events].
    rewrite Hjson, IH. done.
Qed.

(** The run of a server-streaming call whose stream opens, delivers
    messages that encode and then fails. *)
Lemma invokeServerStream_error_run (w : World) (ctx : Context)
  (conn : ClientConn) (method : string) (req : Message)
  (md : MethodDescriptor.t) (script : CallScript)
  (contents texts : list string) (st : State) :
  peer w conn ctx method req = script →
  stream_open script = None →
  stream_send script = None →
  stream_close script = None →
  stream_msgs script = contents →
  encoded w md contents texts →
  stream_end script ≠ io_EOF →
  invokeServerStream w ctx (Some conn) method req md st =
  mk_Run (Ok ("", Some (stream_end script)))
         (answered st script)
         ([EvNewStream conn ctx (mk_StreamDesc method false true) method;
           EvSendMsg ctx req; EvCloseSend ctx]
          ++ replicate (S (length contents)) (EvRecvMsg ctx)).
Proof.
  intros Hscript Hopen Hsend Hclose Hmsgs Henc Hend.
  unfold invokeServerStream, WithCancel. rewrite Hscript.
  unfold bind. cbn [peer_answers emit outcome final events].
  rewrite Hopen. cbn [emit outcome final events].
  rewrite Hsend. cbn [emit outcome final events].
  rewrite Hclose, Hmsgs.
  rewrite (recvLoop_error w _ md _ contents texts Henc Hend).
  cbn [outcome final events]. done.
Qed.

(** What [Invoke] answers once the stream has run. *)
Lemma call_and_respond_stream (w : World) (spec : GRPCRequestSpec.t)
  (conn : ClientConn) (md : MethodDescriptor.t) (request : Message)
  (ctx : Context) (script : CallScript) (st : State)
  (res : string * option error) (evs : list Event) :
  MethodDescriptor.IsStreamingServer md = true →
  invokeServerStream w ctx (Some conn)
    (GRPCRequestSpec.LasSelectedMethod spec) request md st
  = mk_Run (Ok res) (answered st script) evs →
  outcome (call_and_respond w spec conn md request ctx st) =
  Ok (make_response w (peer_headers script, peer_trailers script)
        (wrap64 (elapsed script)) res.1 res.2).
Proof.
  intros Hserver Hstream.
  unfold call_and_respond. rewrite Hserver.
  erewrite bind_run by reflexivity. cbn [outcome final events].
  erewrite bind_run by exact Hstream.
  cbn [outcome final events].
  erewrite bind_run by reflexivity. cbn [outcome final events].
  erewrite bind_run by reflexivity. cbn [outcome final events].
  unfold ret, answered. cbn [outcome clock respHeaders respTrailers].
  do 3 f_equal. lia.
Qed.

(** C2, amended.  When a server-streaming call has received messages and
    a receive then fails with an error other than the end of the stream,
    [Invoke] returns a response together with that error; the response
    carries the error, its status code, the headers and trailers of the
    peer and the time passed, but its body is empty and its size is 0:
    the text of the messages received before the error is discarded. *)
Theorem Invoke_stream_error_discards_body (s : Service) (w : World)
  (id envid : string) (st : State) spec conn md request ctx st' evs
  (script : CallScript) (contents texts : list string) (e : error) :
  reaches_call s w id envid st spec conn md request ctx st' evs →
  MethodDescriptor.IsStreamingServer md = true →
  peer w conn ctx (GRPCRequestSpec.LasSelectedMethod spec) request = script →
  stream_open script = None →
  stream_send script = None →
  stream_close script = None →
  stream_msgs script = contents →
  encoded w md contents texts →
  stream_end script = e →
  e ≠ io_EOF →
  ∃ out,
    outcome (Invoke s w id envid st) = Ok (out, Some e) ∧
    Response.Body out = "" ∧
    Response.Size out = 0 ∧
    Response.Error_ out = Some e ∧
    Response.StatueCode out = status_Code (Some e) ∧
    Response.Status out = Code_String (status_Code (Some e)) ∧
    Response.Metadata out = MetadataToKeyValue w (peer_headers script) ∧
    Response.Trailers out = MetadataToKeyValue w (peer_trailers script) ∧
    Response.TimePassed out = wrap64 (elapsed script).
Proof.
  intros Hreach Hserver Hscript Hopen Hsend Hclose Hmsgs Henc Hend Hne.
  rewrite (Invoke_from_call _ _ _ _ _ _ _ _ _ _ _ _ Hreach).
  cbn [outcome]. subst e.
  erewrite call_and_respond_stream;
    [| done | by eapply invokeServerStream_error_run].
  eexists. split; [reflexivity |]. by repeat split.
Qed.

(** C2 as stated fails for a stream that delivers two messages and then
    breaks: the response does not have their two blocks in its body. *)
Lemma Invoke_partial_body_not_retained :
  ¬ partial_body_retained
      (Invoke (double_service feed_spec) (double_world two_then_unavailable)
         "req-1" "env-1" fresh)
      ["{n:0}"; "{n:1}"] (status_Error 14 "connection lost").
Proof.
  intros (out & Hrun & Hbody).
  vm_compute in Hrun. injection Hrun as <-.
  vm_compute in Hbody. discriminate Hbody.
Qed.

(** The double reaches the call of [/pkg.Svc/Feed]. *)
Lemma feed_reaches_call (script : CallScript) :
  reaches_call (double_service feed_spec) (double_world script)
    "req-1" "env-1" fresh feed_spec double_conn Feed
    (mk_Message "pkg.Msg" "hi") (call_context feed_spec None) discovered
    ([double_dialled] ++ [double_dialled; EvReflection double_conn]).
Proof.
  exact (reaches_call_intro (double_service feed_spec) (double_world script)
           "req-1" "env-1" fresh (Environment.mk "env-1" []) feed_spec
           double_conn Feed (mk_Message "pkg.Msg" "hi") None
           [double_dialled] discovered
           [double_dialled; EvReflection double_conn]
           eq_refl (fun H => eq_ind "/pkg.Svc/Feed"
                               (fun s => match s with
                                         | EmptyString => False
                                         | String _ _ => True
                                         end) I "" H)
           eq_refl eq_refl eq_refl eq_refl).
Defined.

(** The double, with a stream that breaks after two messages. *)
Lemma Invoke_stream_error_discards_body_witness :
  ∃ out,
    outcome (Invoke (double_service feed_spec)
               (double_world two_then_unavailable) "req-1" "env-1" fresh)
    = Ok (out, Some (status_Error 14 "connection lost")) ∧
    Response.Body out = "" ∧
    Response.Size out = 0 ∧
    Response.Error_ out = Some (status_Error 14 "connection lost") ∧
    Response.StatueCode out = 14 ∧
    Response.Status out = "Unavailable" ∧
    Response.Metadata out = [] ∧
    Response.Trailers out = [] ∧
    Response.TimePassed out = 40.
Proof.
  refine (Invoke_stream_error_discards_body _ _ _ _ _ _ _ _ _ _ _ _
            two_then_unavailable ["n:0"; "n:1"] ["{n:0}"; "{n:1}"] _
            (feed_reaches_call two_then_unavailable)
            eq_refl eq_refl eq_refl eq_refl eq_refl eq_refl _ eq_refl _).
  - repeat constructor.
  - discriminate.
Defined.

(** *** A stream that ends regularly *)

(** C9.  A server-streaming call that receives the messages [contents],
    encoded to [texts], and then the end of the stream returns the blocks
    of [texts] in the order of arrival, the block of the i-th message
    (from 0) being the label [Message i:], a line break, the message's
    JSON text and a blank line; [Invoke] returns that text as the body
    of its response, with no error. *)
Theorem Invoke_stream_blocks (s : Service) (w : World)
  (id envid : string) (st : State) spec conn md request ctx st' evs
  (script : CallScript) (contents texts : list string) :
  reaches_call s w id envid st spec conn md request ctx st' evs →
  MethodDescriptor.IsStreamingServer md = true →
  peer w conn ctx (GRPCRequestSpec.LasSelectedMethod spec) request = script →
  stream_open script = None →
  stream_send script = None →
  stream_close script = None →
  stream_msgs script = contents →
  stream_end script = io_EOF →
  encoded w md contents texts →
  Z.of_nat (length contents) < 2 ^ 63 →
  outcome (invokeServerStream w ctx (Some conn)
             (GRPCRequestSpec.LasSelectedMethod spec) request md st')
  = Ok (blocks texts, None) ∧
  ∃ out,
    outcome (Invoke s w id envid st) = Ok (out, None) ∧
    Response.Body out = blocks texts ∧
    Response.Size out = len (blocks texts) ∧
    Response.Error_ out = None.
Proof.
  intros Hreach Hserver Hscript Hopen Hsend Hclose Hmsgs Hend Henc Hlen.
  split.
  - erewrite invokeServerStream_run by eassumption. by rewrite Hend.
  - rewrite (Invoke_from_call _ _ _ _ _ _ _ _ _ _ _ _ Hreach).
    cbn [outcome].
    erewrite call_and_respond_stream;
      [| done | by eapply invokeServerStream_run].
    rewrite Hend. unfold loop_result. rewrite bool_decide_eq_true_2 by done.
    eexists. split; [reflexivity |]. by repeat split.
Qed.

(** The double, with a stream of three messages. *)
Lemma Invoke_stream_blocks_witness :
  outcome (invokeServerStream (double_world three_messages)
             (call_context feed_spec None) (Some double_conn)
             "/pkg.Svc/Feed" (mk_Message "pkg.Msg" "hi") Feed discovered)
  = Ok (blocks ["{n:0}"; "{n:1}"; "{n:2}"], None) ∧
  ∃ out,
    outcome (Invoke (double_service feed_spec) (double_world three_messages)
               "req-1" "env-1" fresh) = Ok (out, None) ∧
    Response.Body out = blocks ["{n:0}"; "{n:1}"; "{n:2}"] ∧
    Response.Size out = 54 ∧
    Response.Error_ out = None.
Proof.
  refine (Invoke_stream_blocks _ _ _ _ _ _ _ _ _ _ _ _
            three_messages ["n:0"; "n:1"; "n:2"]
            ["{n:0}"; "{n:1}"; "{n:2}"]
            (feed_reaches_call three_messages)
            eq_refl eq_refl eq_refl eq_refl eq_refl eq_refl eq_refl _ _).
  - repeat constructor.
  - simpl. lia.
Defined.

(** ** Streaming shapes *)

Lemma call_and_respond_begins w spec conn md request ctx st :
  first_call_event conn ctx (GRPCRequestSpec.LasSelectedMethod spec) request md
  ∈ events (call_and_respond w spec conn md request ctx st).
Proof.
  unfold call_and_respond, first_call_event.
  erewrite bind_run by reflexivity. cbn [outcome final events app].
  unfold bind at 1.
  destruct (MethodDescriptor.IsStreamingServer md).
  - unfold invokeServerStream, WithCancel. unfold bind at 2.
    cbn [emit outcome final events].
    match goal with
    | |- context [match outcome ?r with _ => _ end] => destruct (outcome r)
    end; cbn [events app]; apply elem_of_app; left; apply elem_of_cons;
      by left.
  - unfold invokeUnary. unfold bind at 2.
    cbn [emit outcome final events].
    match goal with
    | |- context [match outcome ?r with _ => _ end] => destruct (outcome r)
    end; cbn [events app]; apply elem_of_app; left; apply elem_of_cons;
      by left.
Qed.

(** C4, amended.  A method with the client-streaming flag set is not
    rejected.  [Invoke] looks at the server-streaming flag alone: it
    sends the call to the transport, as a stream that only the server
    writes to when the server-streaming flag is set and as a unary call
    otherwise, and returns a response. *)
Theorem Invoke_dispatches_client_streaming (s : Service) (w : World)
  (id envid : string) (st : State) spec conn md request ctx st' evs :
  reaches_call s w id envid st spec conn md request ctx st' evs →
  MethodDescriptor.IsStreamingClient md = true →
  (∃ out respErr, outcome (Invoke s w id envid st) = Ok (out, respErr)) ∧
  first_call_event conn ctx (GRPCRequestSpec.LasSelectedMethod spec) request md
  ∈ events (Invoke s w id envid st).
Proof.
  intros Hreach _.
  rewrite (Invoke_from_call _ _ _ _ _ _ _ _ _ _ _ _ Hreach).
  cbn [outcome events]. split.
  - destruct (call_and_respond_returns w spec conn md request ctx st')
      as (out & respErr & Hrun & _).
    by exists out, respErr.
  - apply elem_of_app. right. apply call_and_respond_begins.
Qed.

(** C4 as stated fails for the client-streaming method
    [/pkg.Svc/Upload]: the run does not end in an error, and the call
    goes to the transport. *)
Lemma Invoke_client_streaming_not_rejected :
  MethodDescriptor.IsStreamingClient Upload = true ∧
  outcome (getMethodDesc (double_service upload_spec) (double_world echo_reply)
             "req-1" "env-1" "/pkg.Svc/Upload" fresh) = Ok Upload ∧
  ¬ rejected_before_call
      (Invoke (double_service upload_spec) (double_world echo_reply)
         "req-1" "env-1" fresh).
Proof.
  split; [reflexivity |]. split; [reflexivity |].
  intros [[e Herr] _]. vm_compute in Herr. discriminate Herr.
Qed.

Lemma upload_reaches_call :
  reaches_call (double_service upload_spec) (double_world echo_reply)
    "req-1" "env-1" fresh upload_spec double_conn Upload
    (mk_Message "pkg.Msg" "hi") (call_context upload_spec None) discovered
    ([double_dialled] ++ [double_dialled; EvReflection double_conn]).
Proof.
  exact (reaches_call_intro (double_service upload_spec)
           (double_world echo_reply)
           "req-1" "env-1" fresh (Environment.mk "env-1" []) upload_spec
           double_conn Upload (mk_Message "pkg.Msg" "hi") None
           [double_dialled] discovered
           [double_dialled; EvReflection double_conn]
           eq_refl (fun H => eq_ind "/pkg.Svc/Upload"
                               (fun s => match s with
                                         | EmptyString => False
                                         | String _ _ => True
                                         end) I "" H)
           eq_refl eq_refl eq_refl eq_refl).
Defined.

(** The double, at its client-streaming method. *)
Lemma Invoke_dispatches_client_streaming_witness :
  (∃ out respErr,
      outcome (Invoke (double_service upload_spec) (double_world echo_reply)
                 "req-1" "env-1" fresh) = Ok (out, respErr)) ∧
  EvInvoke double_conn (call_context upload_spec None) "/pkg.Svc/Upload"
    (mk_Message "pkg.Msg" "hi")
  ∈ events (Invoke (double_service upload_spec) (double_world echo_reply)
              "req-1" "env-1" fresh).
Proof.
  exact (Invoke_dispatches_client_streaming _ _ _ _ _ _ _ _ _ _ _ _
           upload_reaches_call eq_refl).
Defined.

(** ** The environment and the selected method *)

Lemma getActiveEnvironment_None (s : Service) (envid : string) :
  getActiveEnvironment s envid = None ↔
  envid = "" ∨ environments s !! envid = None.
Proof.
  unfold getActiveEnvironment. case_bool_decide as Hid.
  - split; [by left | done].
  - destruct (environments s !! envid); split; try done.
    + intros [? | ?]; done.
    + by right.
Qed.

(** With a stored environment, a call definition that has no method
    selected once it is built ends [Invoke] with the error "no method
    selected", before any dial and any discovery: no event, no change of
    state, no response. *)
Lemma Invoke_no_method_selected (s : Service) (w : World) (id envid : string)
  (st : State) (env : Environment.t) (spec : GRPCRequestSpec.t) :
  built_spec s w id envid = Some (env, spec) →
  GRPCRequestSpec.LasSelectedMethod spec = "" →
  Invoke s w id envid st = mk_Run (Err (errors_New "no method selected")) st [].
Proof.
  unfold built_spec, Invoke. intros Hbuilt Hmethod.
  destruct (requests s !! id) as [req |]; [| discriminate].
  destruct (getActiveEnvironment s envid) as [env0 |]; [| discriminate].
  injection Hbuilt as <- <-.
  by rewrite bool_decide_eq_true_2.
Qed.

(** C6, at a call definition with no method selected and an empty
    environment id.  [Invoke] does not return the error "no method
    selected": it panics on the nil environment before it looks at the
    method.  With the stored environment id it returns that error. *)
Theorem Invoke_no_method_without_environment :
  Invoke (double_service nothing_selected) (double_world echo_reply)
    "req-1" "" fresh
  = mk_Run Panic fresh [] ∧
  Invoke (double_service nothing_selected) (double_world echo_reply)
    "req-1" "env-1" fresh
  = mk_Run (Err (errors_New "no method selected")) fresh [].
Proof. split; reflexivity. Qed.

Lemma never_panics_bind {A B} (c : M A) (k : A → M B) :
  never_panics c → (∀ a, never_panics (k a)) → never_panics (bind c k).
Proof.
  intros Hc Hk st. unfold bind.
  destruct (outcome (c st)) eqn:Hout; cbn [outcome]; [apply Hk | done |].
  by apply Hc in Hout.
Qed.

Lemma never_panics_ret {A} (a : A) : never_panics (ret a).
Proof. done. Qed.

Lemma never_panics_raise {A} (e : error) : never_panics (@raise A e).
Proof. done. Qed.

Lemma never_panics_lift {A} (r : result A) : never_panics (lift r).
Proof. by destruct r. Qed.

Lemma never_panics_check (r : option error) : never_panics (check r).
Proof. by destruct r. Qed.

Lemma never_panics_emit (ev : Event) : never_panics (emit ev).
Proof. done. Qed.

Lemma never_panics_registry_Set id files : never_panics (registry_Set id files).
Proof. done. Qed.

#[local] Hint Resolve never_panics_ret never_panics_raise never_panics_lift
  never_panics_check never_panics_emit never_panics_registry_Set : runs.

Ltac step_total :=
  repeat first
    [ apply never_panics_bind; [| intros ?]
    | solve [eauto with runs]
    | match goal with
      | |- never_panics (if ?b then _ else _) => destruct b
      | |- never_panics (match ?x with _ => _ end) => destruct x
      end ].

Lemma Dial_never_panics (w : World) (req : GRPCRequestSpec.t) :
  never_panics (Dial w req).
Proof.
  unfold Dial, os_ReadFile, tls_X509KeyPair, grpc_NewClient. step_total.
Qed.

Lemma GetServices_never_panics s w id envid :
  never_panics (GetServices s w id envid).
Proof.
  unfold GetServices.
  destruct (requests s !! id) as [req |]; [| step_total].
  apply never_panics_bind; [apply Dial_never_panics | intros conn].
  unfold grpc_ProtoFilesFromReflectionAPI, protoFiles_LoadProtoFilesFromDisk,
    grpc_ProtoFilesFromDisk.
  step_total.
Qed.

Lemma bind_events_prefix {A B} (c : M A) (k : A → M B) (st : State) :
  events (c st) `prefix_of` events (bind c k st).
Proof.
  unfold bind. destruct (outcome (c st)); cbn [events]; [| done ..].
  by apply prefix_app_r.
Qed.

Lemma Invoke_on_nil_environment (s : Service) (w : World)
  (id envid : string) (st : State) (req : Request.t) :
  requests s !! id = Some req →
  getActiveEnvironment s envid = None →
  Invoke s w id envid st = mk_Run Panic st [].
Proof. intros Hreq Henv. unfold Invoke. by rewrite Hreq, Henv. Qed.

(** [Invoke] returns, or fails with an error, only with a stored
    environment. *)
Lemma Invoke_total_only_with_environment (s : Service) (w : World)
  (id envid : string) (st : State) (req : Request.t) :
  requests s !! id = Some req →
  outcome (Invoke s w id envid st) ≠ Panic →
  envid ≠ "" ∧ is_Some (environments s !! envid).
Proof.
  intros Hreq Hrun.
  destruct (getActiveEnvironment s envid) as [env |] eqn:Henv.
  - unfold getActiveEnvironment in Henv.
    case_bool_decide; [discriminate |].
    destruct (environments s !! envid); [by split | discriminate].
  - exfalso. apply Hrun.
    by rewrite (Invoke_on_nil_environment s w id envid st req).
Qed.

(** C10.  When the environment id is empty or names no stored
    environment, the lookup of the environment returns nil, and [Invoke]
    panics on it while it substitutes variables: before it has looked at
    the method, and before any event.  So [Invoke] returns only if the
    environment id is not empty and names a stored environment.
    [GetServices] checks the same lookup for nil: it does not panic, and
    goes on to dial with the call definition as the variables alone
    leave it. *)
Theorem Invoke_panics_without_environment (s : Service) (w : World)
  (id envid : string) (st : State) (req : Request.t) :
  requests s !! id = Some req →
  envid = "" ∨ environments s !! envid = None →
  getActiveEnvironment s envid = None ∧
  Invoke s w id envid st = mk_Run Panic st [] ∧
  outcome (GetServices s w id envid st) ≠ Panic ∧
  events (Dial w (ApplyToGRPCRequest w (GetVariables w)
                    (Request.Spec_GRPC req)) st)
  `prefix_of` events (GetServices s w id envid st).
Proof.
  intros Hreq Henv. apply getActiveEnvironment_None in Henv.
  split; [done |]. split; [| split].
  - by apply (Invoke_on_nil_environment s w id envid st req).
  - apply GetServices_never_panics.
  - unfold GetServices. rewrite Hreq, Henv. apply bind_events_prefix.
Qed.

(** The double, invoked with an empty environment id. *)
Lemma Invoke_panics_without_environment_witness :
  getActiveEnvironment (double_service feed_spec) "" = None ∧
  Invoke (double_service feed_spec) (double_world three_messages)
    "req-1" "" fresh = mk_Run Panic fresh [] ∧
  outcome (GetServices (double_service feed_spec)
             (double_world three_messages) "req-1" "" fresh) ≠ Panic ∧
  events (Dial (double_world three_messages) feed_spec fresh)
  `prefix_of` events (GetServices (double_service feed_spec)
                        (double_world three_messages) "req-1" "" fresh).
Proof.
  exact (Invoke_panics_without_environment (double_service feed_spec)
           (double_world three_messages) "req-1" "" fresh
           (Request.mk "req-1" feed_spec) eq_refl (or_introl eq_refl)).
Defined.

(** ** The registry cache *)

Lemma discovery_runs_app (evs1 evs2 : list Event) :
  discovery_runs (evs1 ++ evs2) = (discovery_runs evs1 + discovery_runs evs2)%nat.
Proof. unfold discovery_runs. by rewrite filter_app, length_app. Qed.

Lemma discovery_runs_dial (evs : list Event) :
  Forall is_dial_event evs → discovery_runs evs = 0%nat.
Proof.
  unfold discovery_runs. induction 1 as [| ev evs Hev _ IH]; [done |].
  rewrite filter_cons. destruct ev; try done; by rewrite decide_False.
Qed.

(** A run of [GetServices] that returns has discovered once and has
    stored what it discovered under the id. *)
Lemma GetServices_stores (s : Service) (w : World) (id envid : string)
  (st : State) (services : list GRPCService.t) :
  outcome (GetServices s w id envid st) = Ok services →
  ∃ files,
    final (GetServices s w id envid st)
    = mk_State (<[id := files]> (protoFilesRegistry st)) (respHeaders st)
               (respTrailers st) (clock st) ∧
    discovery_runs (events (GetServices s w id envid st)) = 1%nat.
Proof.
  unfold GetServices.
  destruct (requests s !! id) as [req |]; [| discriminate].
  cbn zeta. set (spec := match getActiveEnvironment s envid with
                         | Some _ => _ | None => _ end).
  destruct (Dial w spec st) as [o1 st1 evs1] eqn:Hdial.
  assert (st1 = st) as ->.
  { change st1 with (final (mk_Run o1 st1 evs1)). rewrite <- Hdial.
    apply Dial_pure_state. }
  assert (discovery_runs evs1 = 0%nat) as Hevs1.
  { apply discovery_runs_dial.
    change evs1 with (events (mk_Run o1 st evs1)). rewrite <- Hdial.
    apply Dial_emits. }
  destruct o1 as [conn | e | ];
    [| erewrite bind_run_Err by exact Hdial; discriminate
     | erewrite bind_run_Panic by exact Hdial; discriminate].
  erewrite bind_run by exact Hdial. cbn [outcome final events].
  destruct (ServerInfo.ServerReflection (GRPCRequestSpec.ServerInfo spec)).
  - unfold grpc_ProtoFilesFromReflectionAPI.
    destruct (ProtoFilesFromReflectionAPI w conn) as [files | e];
      unfold bind; cbn; [| discriminate].
    intros _. exists files.
    split; [done |]. by rewrite discovery_runs_app, Hevs1.
  - destruct (0 <? length _)%nat; [| discriminate].
    unfold protoFiles_LoadProtoFilesFromDisk, grpc_ProtoFilesFromDisk.
    destruct (LoadProtoFilesFromDisk w) as [protoFiles | e];
      [| unfold bind; cbn; discriminate].
    unfold bind.
    cbn [emit lift ret raise registry_Set outcome final events].
    destruct (ProtoFilesFromDisk w _ _) as [files | e];
      cbn [emit lift ret raise registry_Set outcome final events];
      [| discriminate].
    intros _. exists files.
    split; [done |]. rewrite discovery_runs_app, Hevs1. done.
Qed.

Lemma GetServices_discovery_spec (s : Service) (w : World)
  (id envid : string) (req : Request.t) (st : State) :
  requests s !! id = Some req →
  GetServices s w id envid st
  = bind (Dial w (discovery_spec s w req envid))
      (fun conn =>
         if ServerInfo.ServerReflection
              (GRPCRequestSpec.ServerInfo (discovery_spec s w req envid))
         then
           protoRegistryFiles <- grpc_ProtoFilesFromReflectionAPI w conn ;;
           registry_Set id protoRegistryFiles ;;;
           ret (parseRegistryFiles protoRegistryFiles)
         else if (0 <? length
                         (ServerInfo.ProtoFiles
                            (GRPCRequestSpec.ServerInfo
                               (discovery_spec s w req envid))))%nat
         then
           protoFiles <- protoFiles_LoadProtoFilesFromDisk w ;;
           protoRegistryFiles <-
             grpc_ProtoFilesFromDisk w
               (getImportPaths w protoFiles
                  (ServerInfo.ProtoFiles
                     (GRPCRequestSpec.ServerInfo
                        (discovery_spec s w req envid)))) ;;
           registry_Set id protoRegistryFiles ;;;
           ret (parseRegistryFiles protoRegistryFiles)
         else raise (errors_New "no server reflection or proto files found"))
      st.
Proof.
  intros Hreq. unfold GetServices, discovery_spec. rewrite Hreq.
  by destruct (getActiveEnvironment s envid).
Qed.

(** A run of [GetServices] that returns has stored, under the id, the
    registry that its discovery has delivered, and returns the list of
    that registry. *)
Lemma GetServices_discovers (s : Service) (w : World) (id envid : string)
  (st : State) (services : list GRPCService.t) :
  outcome (GetServices s w id envid st) = Ok services →
  ∃ files,
    discovered_registry s w id envid st files ∧
    final (GetServices s w id envid st)
    = mk_State (<[id := files]> (protoFilesRegistry st)) (respHeaders st)
               (respTrailers st) (clock st) ∧
    services = parseRegistryFiles files.
Proof.
  destruct (requests s !! id) as [req |] eqn:Hreq;
    [| unfold GetServices; rewrite Hreq; discriminate].
  rewrite (GetServices_discovery_spec s w id envid req st Hreq).
  unfold discovered_registry.
  destruct (Dial w (discovery_spec s w req envid) st) as [o1 st1 evs1]
    eqn:Hdial.
  assert (st1 = st) as ->.
  { change st1 with (final (mk_Run o1 st1 evs1)). rewrite <- Hdial.
    apply Dial_pure_state. }
  destruct o1 as [conn | e | ];
    [| erewrite bind_run_Err by exact Hdial; discriminate
     | erewrite bind_run_Panic by exact Hdial; discriminate].
  erewrite bind_run by exact Hdial. cbn [outcome final events].
  destruct (ServerInfo.ServerReflection _) eqn:Hreflection.
  - unfold grpc_ProtoFilesFromReflectionAPI.
    destruct (ProtoFilesFromReflectionAPI w conn) as [files | e] eqn:Hfiles;
      unfold bind;
      cbn [emit lift ret raise registry_Set outcome final events];
      [| discriminate].
    intros [= <-]. exists files. split; [| done].
    exists req, conn. rewrite Hdial, Hreflection. done.
  - destruct (ServerInfo.ProtoFiles _) as [| file files0] eqn:Hnamed;
      [discriminate |].
    cbn [length Nat.ltb Nat.leb].
    unfold protoFiles_LoadProtoFilesFromDisk, grpc_ProtoFilesFromDisk.
    destruct (LoadProtoFilesFromDisk w) as [protoFiles | e] eqn:Hloaded;
      [| unfold bind; cbn; discriminate].
    unfold bind.
    cbn [emit lift ret raise registry_Set outcome final events].
    destruct (ProtoFilesFromDisk w _ _) as [files | e] eqn:Hfiles;
      cbn [emit lift ret raise registry_Set outcome final events];
      [| discriminate].
    intros [= <-]. exists files. split; [| done].
    exists req, conn. rewrite Hdial, Hreflection, Hnamed.
    split; [done |]. split; [done |]. split; [done |].
    by exists protoFiles.
Qed.

(** C3.  [getMethodDesc] takes the registry of a request from the cache
    when the cache has an entry for the id, without discovery: no event,
    no change of state.  When the cache has none, it runs [GetServices],
    and if that returns, the registry just discovered (what server
    reflection has answered on the dialled connection or, without server
    reflection, what the parse of the schema files has given) is stored
    under the id and is the one returned; resolving again then returns
    the same registry without discovery, so the two resolutions have
    discovered exactly once. *)
Theorem registryFiles_of_cached (s : Service) (w : World) (id envid : string)
  (st : State) :
  (∀ files,
     protoFilesRegistry st !! id = Some files →
     registryFiles_of s w id envid st = mk_Run (Ok (Some files)) st []) ∧
  (∀ resolved,
     protoFilesRegistry st !! id = None →
     outcome (registryFiles_of s w id envid st) = Ok resolved →
     let first := registryFiles_of s w id envid st in
     let second := registryFiles_of s w id envid (final first) in
     ∃ files,
       resolved = Some files ∧
       discovered_registry s w id envid st files ∧
       protoFilesRegistry (final first) !! id = Some files ∧
       second = mk_Run (Ok (Some files)) (final first) [] ∧
       discovery_runs (events first ++ events second) = 1%nat).
Proof.
  assert (∀ st' files,
            protoFilesRegistry st' !! id = Some files →
            registryFiles_of s w id envid st' = mk_Run (Ok (Some files)) st' [])
    as Hhit.
  { intros st' files Hcached. unfold registryFiles_of, bind.
    cbn [registry_Get outcome final events]. rewrite Hcached. done. }
  split; [apply Hhit |].
  intros resolved Hmiss Hrun first second.
  change (outcome first = Ok resolved) in Hrun.
  destruct (GetServices s w id envid st) as [o f evs] eqn:Hget.
  assert (first =
          match o with
          | Ok _ => mk_Run (Ok (protoFilesRegistry f !! id)) f (evs ++ [])
          | Err e => mk_Run (Err e) f evs
          | Panic => mk_Run Panic f evs
          end) as Hfirst.
  { subst first. unfold registryFiles_of.
    erewrite bind_run by reflexivity.
    cbn [outcome final events app]. rewrite Hmiss.
    destruct o;
      [ erewrite bind_run by exact Hget
      | erewrite bind_run_Err by exact Hget
      | erewrite bind_run_Panic by exact Hget ]; reflexivity. }
  subst second. clearbody first. subst first.
  destruct o as [services | e | ]; [| discriminate Hrun ..].
  destruct (GetServices_discovers s w id envid st services)
    as (files & Hdiscovered & Hfinal & _).
  { by rewrite Hget. }
  destruct (GetServices_stores s w id envid st services) as (_ & _ & Hruns).
  { by rewrite Hget. }
  rewrite Hget in Hfinal, Hruns. cbn [final events] in Hfinal, Hruns.
  subst f. cbn [outcome final events protoFilesRegistry] in *.
  rewrite lookup_insert_eq in *. injection Hrun as <-.
  exists files. split; [done |]. split; [done |]. split; [done |].
  erewrite Hhit by (cbn; by rewrite lookup_insert_eq).
  split; [done |]. cbn [events]. by rewrite !app_nil_r.
Qed.

(** The double, resolved twice from an empty cache. *)
Lemma registryFiles_of_cached_witness :
  let first :=
    registryFiles_of (double_service feed_spec) (double_world three_messages)
      "req-1" "env-1" fresh in
  let second :=
    registryFiles_of (double_service feed_spec) (double_world three_messages)
      "req-1" "env-1" (final first) in
  ∃ files,
    Some double_registry = Some files ∧
    discovered_registry (double_service feed_spec)
      (double_world three_messages) "req-1" "env-1" fresh files ∧
    protoFilesRegistry (final first) !! "req-1" = Some files ∧
    second = mk_Run (Ok (Some files)) (final first) [] ∧
    discovery_runs (events first ++ events second) = 1%nat.
Proof.
  exact (proj2 (registryFiles_of_cached (double_service feed_spec)
                  (double_world three_messages) "req-1" "env-1" fresh)
               (Some double_registry) eq_refl eq_refl).
Defined.

(** * More properties *)

(** ** The laws of runs *)

Lemma bind_ret {A B} (a : A) (k : A → M B) (st : State) :
  bind (ret a) k st = k a st.
Proof. unfold bind. cbn. by destruct (k a st). Qed.

Lemma bind_raise {A B} (e : error) (k : A → M B) (st : State) :
  bind (raise e) k st = mk_Run (Err e) st [].
Proof. reflexivity. Qed.

Lemma bind_panic {A B} (k : A → M B) (st : State) :
  bind panic k st = mk_Run Panic st [].
Proof. reflexivity. Qed.

Lemma bind_emit {B} (ev : Event) (k : unit → M B) (st : State) :
  bind (emit ev) k st = prepend [ev] (k tt st).
Proof. reflexivity. Qed.

Lemma bind_bind {A B C} (c : M A) (k : A → M B) (k' : B → M C) (st : State) :
  bind (bind c k) k' st = bind c (fun a => bind (k a) k') st.
Proof.
  unfold bind. destruct (c st) as [[a | e | ] st1 evs1]; cbn; [| done ..].
  destruct (k a st1) as [[b | e | ] st2 evs2]; cbn; [| done ..].
  by rewrite app_assoc.
Qed.

Lemma prepend_mk {A} (evs evs' : list Event) (o : Outcome A) (st : State) :
  prepend evs (mk_Run o st evs') = mk_Run o st (evs ++ evs').
Proof. reflexivity. Qed.

Lemma outcome_prepend {A} (evs : list Event) (r : Run A) :
  outcome (prepend evs r) = outcome r.
Proof. reflexivity. Qed.

Lemma final_prepend {A} (evs : list Event) (r : Run A) :
  final (prepend evs r) = final r.
Proof. reflexivity. Qed.

Lemma events_prepend {A} (evs : list Event) (r : Run A) :
  events (prepend evs r) = evs ++ events r.
Proof. reflexivity. Qed.

Lemma bind_silent {A B} (c : M A) (k : A → M B) (st st' : State) (a : A) :
  c st = mk_Run (Ok a) st' [] → bind c k st = k a st'.
Proof. intros Hc. unfold bind. rewrite Hc. cbn. by destruct (k a st'). Qed.

Lemma bind_registry_Get {B} (id : string) (k : option Files → M B)
  (st : State) :
  bind (registry_Get id) k st = k (protoFilesRegistry st !! id) st.
Proof. by apply bind_silent. Qed.

Lemma bind_registry_Set {B} (id : string) (files : Files) (k : unit → M B)
  (st : State) :
  bind (registry_Set id files) k st
  = k tt (mk_State (<[id := files]> (protoFilesRegistry st)) (respHeaders st)
                   (respTrailers st) (clock st)).
Proof. by apply bind_silent. Qed.

Lemma bind_peer_answers {B} (script : CallScript) (k : unit → M B)
  (st : State) :
  bind (peer_answers script) k st = k tt (answered st script).
Proof. by apply bind_silent. Qed.

Lemma bind_declare_captured {B} (k : unit → M B) (st : State) :
  bind declare_captured k st
  = k tt (mk_State (protoFilesRegistry st) ∅ ∅ (clock st)).
Proof. by apply bind_silent. Qed.

Lemma bind_get_captured {B} (k : MD * MD → M B) (st : State) :
  bind get_captured k st = k (respHeaders st, respTrailers st) st.
Proof. by apply bind_silent. Qed.

Lemma bind_time_Now {B} (k : Z → M B) (st : State) :
  bind time_Now k st = k (clock st) st.
Proof. by apply bind_silent. Qed.

Lemma prepend_prepend {A} (evs1 evs2 : list Event) (r : Run A) :
  prepend evs1 (prepend evs2 r) = prepend (evs1 ++ evs2) r.
Proof. unfold prepend. cbn. by rewrite app_assoc. Qed.

(** A computation after one whose run is known. *)
Lemma bind_prepend {A B} (c : M A) (k : A → M B) (st st' : State) (a : A)
  (evs : list Event) :
  c st = mk_Run (Ok a) st' evs → bind c k st = prepend evs (k a st').
Proof. intros Hc. unfold bind. by rewrite Hc. Qed.

(** Runs a computation written with [bind] one step after the other,
    taking the cases of every test and of every answer of the world. *)
Ltac run_law :=
  first
    [ rewrite bind_bind
    | rewrite bind_ret
    | rewrite bind_raise
    | rewrite bind_panic
    | rewrite bind_emit
    | rewrite bind_registry_Get
    | rewrite bind_registry_Set
    | rewrite bind_peer_answers
    | rewrite bind_declare_captured
    | rewrite bind_get_captured
    | rewrite bind_time_Now
    | progress cbn [lift check pure]
    | progress cbv beta zeta ].

Ltac run_step :=
  first
    [ run_law
    | match goal with
      | |- context [bind (if ?b then _ else _) _ _] => destruct b eqn:?
      | |- context [bind (match ?x with _ => _ end) _ _] => destruct x eqn:?
      | |- context [bind (lift ?x) _ _] => destruct x eqn:?
      | |- context [bind (check ?x) _ _] => destruct x eqn:?
      end ].

Ltac run_end :=
  repeat
    match goal with
    | |- context [(if ?b then _ else _) ?st] => destruct b eqn:?
    | |- context [lift ?x ?st] => destruct x eqn:?; cbn [lift]
    | |- context [check ?x ?st] => destruct x eqn:?; cbn [check]
    end;
  unfold ret, raise, panic;
  rewrite ?prepend_mk; cbn [app outcome final events].

(** ** Channels *)

(** X1.  With the insecure flag set, [Dial] reads no file, whatever
    certificate paths are configured, and takes the plaintext
    credentials: all it does is make the client for the target address,
    and it fails only if that fails. *)
Theorem Dial_insecure (w : World) (req : GRPCRequestSpec.t) (st : State) :
  Settings.Insecure (GRPCRequestSpec.Settings req) = true →
  events (Dial w req st)
  = [EvNewClient (ServerInfo.Address (GRPCRequestSpec.ServerInfo req))
       [WithUserAgent "Chapar/0.1.0-beta1";
        WithTransportCredentials insecure_NewCredentials]] ∧
  final (Dial w req st) = st ∧
  outcome (Dial w req st) =
    match NewClient w (ServerInfo.Address (GRPCRequestSpec.ServerInfo req))
            [WithUserAgent "Chapar/0.1.0-beta1";
             WithTransportCredentials insecure_NewCredentials] with
    | None =>
        Ok (mk_ClientConn
              (ServerInfo.Address (GRPCRequestSpec.ServerInfo req))
              [WithUserAgent "Chapar/0.1.0-beta1";
               WithTransportCredentials insecure_NewCredentials])
    | Some e => Err e
    end.
Proof.
  intros Hinsecure. unfold Dial. rewrite Hinsecure. cbn [negb].
  rewrite bind_ret. unfold grpc_NewClient.
  rewrite bind_emit.
  change (appName +:+ "/" +:+ semver) with "Chapar/0.1.0-beta1".
  cbn [app].
  destruct (NewClient w _ _); cbn [check];
    [rewrite bind_raise | rewrite bind_ret; unfold ret];
    by rewrite prepend_mk.
Qed.

(** The double with the insecure flag and certificate paths. *)
Lemma Dial_insecure_witness :
  events (Dial (double_world echo_reply) insecure_with_paths fresh)
  = [EvNewClient "localhost:9090"
       [WithUserAgent "Chapar/0.1.0-beta1";
        WithTransportCredentials insecure_NewCredentials]].
Proof.
  exact (proj1 (Dial_insecure (double_world echo_reply) insecure_with_paths
                  fresh eq_refl)).
Defined.

(** X2.  A connection that [Dial] returns without the insecure flag is
    to the target address, carries the user agent of the application and
    TLS credentials that verify the peer ([InsecureSkipVerify] is false);
    the roots are the system pool, or nothing when there is no system
    pool, followed by the content of the root certificate file when one
    is configured; there is a client certificate exactly when a client
    certificate path is configured. *)
Theorem Dial_secure (w : World) (req : GRPCRequestSpec.t) (st : State)
  (conn : ClientConn) :
  Settings.Insecure (GRPCRequestSpec.Settings req) = false →
  outcome (Dial w req st) = Ok conn →
  ∃ cfg extra,
    conn = mk_ClientConn (ServerInfo.Address (GRPCRequestSpec.ServerInfo req))
             [WithUserAgent "Chapar/0.1.0-beta1";
              WithTransportCredentials (credentials_NewTLS cfg)] ∧
    tls.InsecureSkipVerify cfg = false ∧
    tls.RootCAs cfg =
      match SystemCertPool w with ok pool => pool | fail _ => [] end
      ++ extra ∧
    (if bool_decide
          (Settings.RootCertFile (GRPCRequestSpec.Settings req) = "")
     then extra = []
     else ∃ rootFile,
            ReadFile w (Settings.RootCertFile (GRPCRequestSpec.Settings req))
            = ok rootFile ∧
            extra = [rootFile]) ∧
    (tls.Certificates cfg = [] ↔
     Settings.ClientCertFile (GRPCRequestSpec.Settings req) = "").
Proof.
  intros Hsecure. unfold Dial. rewrite Hsecure. cbn [negb].
  unfold os_ReadFile, tls_X509KeyPair, grpc_NewClient.
  change (appName +:+ "/" +:+ semver) with "Chapar/0.1.0-beta1".
  repeat run_step; run_end.
  all: rewrite ?outcome_prepend; cbn [outcome].
  all: intros Hconn; try discriminate Hconn; injection Hconn as <-.
  all: destruct (SystemCertPool w); cbn [app].
  all: eexists _, _; split; [reflexivity|]; cbn.
  all: repeat split; try reflexivity; try done.
  all: repeat case_bool_decide; try done; try congruence.
  all: try (rewrite app_nil_r; reflexivity).
  all: by eexists.
Qed.

(** The double with a root certificate file and no client certificate. *)
Lemma Dial_secure_witness :
  ∃ cfg extra,
    mk_ClientConn "localhost:9090"
      [WithUserAgent "Chapar/0.1.0-beta1";
       WithTransportCredentials
         (credentials_NewTLS (tls.mk_Config false [] ["<ca.pem>"]))]
    = mk_ClientConn "localhost:9090"
        [WithUserAgent "Chapar/0.1.0-beta1";
         WithTransportCredentials (credentials_NewTLS cfg)] ∧
    tls.InsecureSkipVerify cfg = false ∧
    tls.RootCAs cfg = [] ++ extra ∧
    (∃ rootFile, ok "<ca.pem>" = ok rootFile ∧ extra = [rootFile]) ∧
    (tls.Certificates cfg = [] ↔ "" = "").
Proof.
  exact (Dial_secure (double_world echo_reply) with_root_ca fresh _
           eq_refl eq_refl).
Defined.

(** X3.  [Dial] makes the client last, and at most once: what it does
    before is to read files, and only the configured client certificate
    and root certificate files.  When it makes no client it has failed.
    And a certificate that cannot be loaded is never dialled around:
    without the insecure flag, when a configured certificate file cannot
    be read, or the client certificate that was read is refused as a key
    pair, [Dial] fails and makes no client. *)
Theorem Dial_reads_then_connects (w : World) (req : GRPCRequestSpec.t)
  (st : State) :
  (∃ paths,
     Forall
       (fun path =>
          path ≠ "" ∧
          (path = Settings.ClientCertFile (GRPCRequestSpec.Settings req) ∨
           path = Settings.RootCertFile (GRPCRequestSpec.Settings req)))
       paths ∧
     ((∃ e, outcome (Dial w req st) = Err e ∧
            events (Dial w req st) = map EvReadFile paths) ∨
      (∃ opts,
         events (Dial w req st)
         = map EvReadFile paths
           ++ [EvNewClient (ServerInfo.Address (GRPCRequestSpec.ServerInfo req))
                 opts]))) ∧
  (Settings.Insecure (GRPCRequestSpec.Settings req) = false →
   ∀ path e,
     path ≠ "" →
     path = Settings.ClientCertFile (GRPCRequestSpec.Settings req) ∨
     path = Settings.RootCertFile (GRPCRequestSpec.Settings req) →
     ReadFile w path = fail e →
     (∃ e', outcome (Dial w req st) = Err e') ∧
     clients_made (events (Dial w req st)) = 0%nat) ∧
  (Settings.Insecure (GRPCRequestSpec.Settings req) = false →
   Settings.ClientCertFile (GRPCRequestSpec.Settings req) ≠ "" →
   ∀ pem e,
     ReadFile w (Settings.ClientCertFile (GRPCRequestSpec.Settings req))
     = ok pem →
     X509KeyPair w pem pem = Some e →
     outcome (Dial w req st) = Err e ∧
     clients_made (events (Dial w req st)) = 0%nat).
Proof.
  split; [| split].
  - unfold Dial, os_ReadFile, tls_X509KeyPair, grpc_NewClient.
    repeat run_step; run_end.
    all: repeat match goal with
           | H : bool_decide _ = true |- _ => apply bool_decide_eq_true in H
           end.
    all: (let try_paths paths :=
            (exists paths; split;
             [repeat constructor; by auto
             | first [left; eexists; split; reflexivity
                     | right; eexists; reflexivity]]) in
          first
            [ try_paths (@nil string)
            | try_paths [Settings.ClientCertFile (GRPCRequestSpec.Settings req)]
            | try_paths [Settings.RootCertFile (GRPCRequestSpec.Settings req)]
            | try_paths [Settings.ClientCertFile (GRPCRequestSpec.Settings req);
                         Settings.ClientCertFile (GRPCRequestSpec.Settings req)]
            | try_paths [Settings.ClientCertFile (GRPCRequestSpec.Settings req);
                         Settings.ClientCertFile (GRPCRequestSpec.Settings req);
                         Settings.RootCertFile (GRPCRequestSpec.Settings req)] ]).
  - intros Hsecure path e Hpath Hnamed Hfail.
    unfold Dial, os_ReadFile, tls_X509KeyPair, grpc_NewClient.
    rewrite Hsecure. cbn [negb].
    destruct Hnamed as [-> | ->].
    all: repeat run_step; run_end.
    all: repeat match goal with
           | H : bool_decide _ = false |- _ => apply bool_decide_eq_false in H
           end.
    all: try congruence; try (by exfalso; auto).
    all: by split; [eexists |].
  - intros Hsecure Hcert pem e Hread Hpair.
    unfold Dial, os_ReadFile, tls_X509KeyPair, grpc_NewClient.
    rewrite Hsecure. cbn [negb].
    rewrite bool_decide_eq_true_2 by done.
    repeat first [rewrite Hread | rewrite Hpair | run_law].
    by unfold raise; rewrite !prepend_mk.
Qed.

(** The double with a root certificate path at which there is no file. *)
Lemma Dial_reads_then_connects_witness :
  (∃ e', outcome (Dial double_world_without_root with_root_ca fresh) = Err e') ∧
  clients_made (events (Dial double_world_without_root with_root_ca fresh))
  = 0%nat.
Proof.
  apply (proj1 (proj2 (Dial_reads_then_connects double_world_without_root
                         with_root_ca fresh))
           eq_refl "ca.pem"
           (errors_New "open ca.pem: no such file or directory")).
  - discriminate.
  - by right.
  - reflexivity.
Defined.

(** ** Listing the services *)

(** X4.  [getImportPaths] returns the directories and the base names of
    the same paths in the same order, the files of the call definition
    first and the tracked schema files after them: the entries of the two
    lists that stand at the same place come from the same path. *)
Theorem getImportPaths_aligned (w : World) (protoFiles : list ProtoFile.t)
  (files : list string) :
  getImportPaths w protoFiles files
  = (map (filepath_Dir w) (files ++ map ProtoFile.Spec_Path protoFiles),
     map (filepath_Base w) (files ++ map ProtoFile.Spec_Path protoFiles)) ∧
  length (getImportPaths w protoFiles files).1
  = length (getImportPaths w protoFiles files).2.
Proof.
  unfold getImportPaths. cbn [fst snd].
  rewrite !map_app, !map_map, !length_app, !length_map. done.
Qed.

Lemma leb_trans (s1 s2 s3 : string) :
  String.leb s1 s2 = true → String.leb s2 s3 = true → String.leb s1 s3 = true.
Proof.
  assert (∀ a b, String.leb a b = true ↔ OrderedTypeEx.String_as_OT.lt a b ∨ a = b)
    as Hleb.
  { intros a b. unfold String.leb.
    rewrite <- OrderedTypeEx.String_as_OT.cmp_lt.
    change OrderedTypeEx.String_as_OT.cmp with String.compare.
    destruct (String.compare a b) eqn:Hcmp.
    - apply String.compare_eq_iff in Hcmp. tauto.
    - tauto.
    - split; [done |]. intros [? | ->]; [done |].
      assert (String.compare b b = Eq) as Heq
        by (apply OrderedTypeEx.String_as_OT.cmp_eq; reflexivity).
      congruence. }
  rewrite !Hleb. intros [H12 | ->] [H23 | ->]; auto.
  left. by eapply OrderedTypeEx.String_as_OT.lt_trans.
Qed.

Lemma ltb_false_leb (s1 s2 : string) :
  String.ltb s1 s2 = false → String.leb s2 s1 = true.
Proof.
  unfold String.ltb, String.leb.
  rewrite (String.compare_antisym s2 s1).
  by destruct (String.compare s1 s2).
Qed.

Lemma ltb_true_leb (s1 s2 : string) :
  String.ltb s1 s2 = true → String.leb s1 s2 = true.
Proof.
  unfold String.ltb, String.leb.
  by destruct (String.compare s1 s2).
Qed.

Section StableSort.
Context {A : Type} (key : A → string).

Lemma insert_stable_perm (x : A) (l : list A) :
  insert_stable (fun a b => String.ltb (key a) (key b)) x l ≡ₚ x :: l.
Proof.
  induction l as [| y l IH]; [done |].
  cbn. destruct (String.ltb (key y) (key x)); [| done].
  rewrite IH. apply perm_swap.
Qed.

Lemma SliceStable_perm (l : list A) :
  SliceStable (fun a b => String.ltb (key a) (key b)) l ≡ₚ l.
Proof.
  unfold SliceStable. induction l as [| x l IH]; [done |].
  cbn. rewrite insert_stable_perm. by rewrite IH.
Qed.

Lemma insert_stable_sorted (x : A) (l : list A) :
  StronglySorted (fun a b => String.leb (key a) (key b) = true) l →
  StronglySorted (fun a b => String.leb (key a) (key b) = true)
    (insert_stable (fun a b => String.ltb (key a) (key b)) x l).
Proof.
  induction 1 as [| y l Hsorted IH Hall]; cbn.
  - repeat constructor.
  - destruct (String.ltb (key y) (key x)) eqn:Hless.
    + constructor; [done |].
      rewrite insert_stable_perm. constructor; [| done].
      by apply ltb_true_leb.
    + apply ltb_false_leb in Hless.
      constructor; [by constructor |].
      constructor; [done |].
      eapply Forall_impl; [exact Hall |].
      intros z Hz. cbn in *. by eapply leb_trans.
Qed.

Lemma SliceStable_sorted (l : list A) :
  StronglySorted (fun a b => String.leb (key a) (key b) = true)
    (SliceStable (fun a b => String.ltb (key a) (key b)) l).
Proof.
  unfold SliceStable. induction l as [| x l IH]; cbn.
  - constructor.
  - by apply insert_stable_sorted.
Qed.
End StableSort.

Lemma flat_map_map {A B C} (f : B → C) (g : A → list B) (l : list A) :
  flat_map (fun a => map f (g a)) l = map f (flat_map g l).
Proof.
  induction l as [| a l IH]; [done |]. cbn. by rewrite IH, map_app.
Qed.

Lemma parseRegistryFiles_listed (registry : Files) :
  parseRegistryFiles registry
  = SliceStable service_less (map listed_service (services_of registry)).
Proof.
  unfold parseRegistryFiles, services_of.
  by rewrite <- (flat_map_map listed_service FileDescriptor.Services).
Qed.

(** X5.  The list [parseRegistryFiles] returns is sorted by the names of
    the services, and in each entry the methods are sorted by their
    names (byte-wise, as Go compares strings). *)
Theorem parseRegistryFiles_sorted (registry : Files) :
  StronglySorted
    (fun a b => String.leb (GRPCService.Name a) (GRPCService.Name b) = true)
    (parseRegistryFiles registry) ∧
  Forall
    (fun srv =>
       StronglySorted
         (fun a b => String.leb (GRPCMethod.Name a) (GRPCMethod.Name b) = true)
         (GRPCService.Methods srv))
    (parseRegistryFiles registry).
Proof.
  rewrite parseRegistryFiles_listed. split.
  - apply (SliceStable_sorted GRPCService.Name).
  - unfold service_less. rewrite (SliceStable_perm GRPCService.Name).
    apply Forall_forall. intros srv Hsrv.
    apply list_elem_of_fmap in Hsrv as (svc & -> & _).
    apply (SliceStable_sorted GRPCMethod.Name).
Qed.

(** X6.  [parseRegistryFiles] loses and invents nothing: up to order, its
    entries are the services of the files of the registry, one entry for
    each, under the name of the service; and the methods of an entry are,
    up to order, the methods of that service, each with the full name
    [/<full name of the service>/<name of the method>], its name and its
    two streaming flags. *)
Theorem parseRegistryFiles_complete (registry : Files) :
  ∃ listed,
    parseRegistryFiles registry ≡ₚ listed ∧
    Forall2
      (fun srv svc =>
         GRPCService.Name srv = ServiceDescriptor.Name svc ∧
         GRPCService.Methods srv
         ≡ₚ map
              (fun mth =>
                 GRPCMethod.mk
                   ("/" +:+ ServiceDescriptor.FullName svc +:+ "/"
                    +:+ MethodDescriptor.Name mth)
                   (MethodDescriptor.Name mth)
                   (MethodDescriptor.IsStreamingClient mth)
                   (MethodDescriptor.IsStreamingServer mth))
              (ServiceDescriptor.Methods svc))
      listed (flat_map FileDescriptor.Services registry).
Proof.
  exists (map listed_service (services_of registry)). split.
  - rewrite parseRegistryFiles_listed.
    apply (SliceStable_perm GRPCService.Name).
  - unfold services_of. apply Forall2_fmap_l, Forall_Forall2_diag.
    apply Forall_forall. intros svc _. split; [done |].
    apply (SliceStable_perm GRPCMethod.Name).
Qed.

(** ** From the list back to the descriptor *)

Lemma append_String (c : ascii) (s1 s2 : string) :
  String c s1 +:+ s2 = String c (s1 +:+ s2).
Proof. reflexivity. Qed.

Lemma replace_first_slash_app (service method : string) :
  contains_slash service = false →
  replace_first_slash (service +:+ "/" +:+ method)
  = service +:+ "." +:+ method.
Proof.
  induction service as [| c service IH]; [done |].
  rewrite !append_String. cbn [contains_slash replace_first_slash].
  destruct (Ascii.eqb c "/"); [done |].
  intros Hslash. f_equal. by apply IH.
Qed.

Lemma find_app_first {A} (f : A → bool) (l1 l2 : list A) :
  find f (l1 ++ l2)
  = match find f l1 with Some x => Some x | None => find f l2 end.
Proof.
  induction l1 as [| x l1 IH]; [done |]. cbn. by destruct (f x).
Qed.

Lemma find_map_first {A B} (f : B → bool) (g : A → B) (l : list A) :
  find f (map g l) = option_map g (find (fun a => f (g a)) l).
Proof.
  induction l as [| x l IH]; [done |]. cbn. by destruct (f (g x)).
Qed.

Lemma elem_of_flat_map {A B} (f : A → list B) (l : list A) (y : B) :
  y ∈ flat_map f l ↔ ∃ x, x ∈ l ∧ y ∈ f x.
Proof.
  rewrite list_elem_of_In, in_flat_map.
  by setoid_rewrite list_elem_of_In.
Qed.

(** [find_in_file] looks a name up among the declarations of the file. *)
Lemma find_in_file_declarations (name : string) (fd : FileDescriptor.t) :
  find_in_file name fd
  = option_map snd
      (find (fun p => String.eqb (fst p) name) (declarations_of fd)).
Proof.
  unfold find_in_file, declarations_of.
  rewrite find_app_first, find_map_first. cbn [fst snd].
  destruct (find _ (FileDescriptor.Others fd)) as [o |]; [done |].
  cbn [option_map].
  induction (FileDescriptor.Services fd) as [| svc svcs IH]; [done |].
  cbn [first_some flat_map]. rewrite find_app_first. cbn [find fst].
  destruct (String.eqb (ServiceDescriptor.FullName svc) name); [done |].
  rewrite find_map_first. cbn [fst].
  destruct (find _ (ServiceDescriptor.Methods svc)) as [mth |]; [done |].
  cbn [option_map]. exact IH.
Qed.

Lemma first_some_declarations (name : string) (registry : Files) :
  first_some (find_in_file name) registry
  = option_map snd
      (find (fun p => String.eqb (fst p) name) (declarations registry)).
Proof.
  unfold declarations.
  induction registry as [| fd registry IH]; [done |].
  cbn [first_some flat_map]. rewrite find_app_first.
  rewrite find_in_file_declarations.
  by destruct (find _ (declarations_of fd)).
Qed.

Lemma find_NoDup {B} (l : list (string * B)) (name : string) (d : B) :
  NoDup (map fst l) → (name, d) ∈ l →
  find (fun p => String.eqb (fst p) name) l = Some (name, d).
Proof.
  induction l as [| [name' d'] l IH]; intros Hnodup Hin.
  - by apply elem_of_nil in Hin.
  - cbn in *. apply NoDup_cons in Hnodup as [Hfresh Hnodup].
    apply elem_of_cons in Hin as [Heq | Hin].
    + injection Heq as <- <-. by rewrite String.eqb_refl.
    + destruct (String.eqb name' name) eqn:Hname; [| by apply IH].
      apply String.eqb_eq in Hname as ->.
      exfalso. apply Hfresh.
      apply (list_elem_of_fmap_2 fst) in Hin. exact Hin.
Qed.

(** A method of a service of the registry is found under its full
    name. *)
Lemma FindDescriptorByName_method (registry : Files)
  (svc : ServiceDescriptor.t) (mth : MethodDescriptor.t) :
  NoDup (map fst (declarations registry)) →
  svc ∈ services_of registry →
  mth ∈ ServiceDescriptor.Methods svc →
  FindDescriptorByName (Some registry)
    (ServiceDescriptor.FullName svc +:+ "." +:+ MethodDescriptor.Name mth)
  = ok (DescMethod mth).
Proof.
  intros Hnodup Hsvc Hmth. unfold FindDescriptorByName.
  rewrite first_some_declarations.
  rewrite (find_NoDup _ _ (DescMethod mth)); [done | done |].
  unfold declarations, services_of in *.
  apply elem_of_flat_map in Hsvc as (fd & Hfd & Hsvc).
  apply elem_of_flat_map. exists fd. split; [done |].
  unfold declarations_of. apply elem_of_app. right.
  apply elem_of_flat_map. exists svc. split; [done |].
  apply elem_of_cons. right.
  by apply (list_elem_of_fmap_2
              (fun mth => (ServiceDescriptor.FullName svc +:+ "."
                           +:+ MethodDescriptor.Name mth, DescMethod mth))).
Qed.

(** The entries of the list come from the services and methods of the
    registry. *)
Lemma parseRegistryFiles_entry (registry : Files) (srv : GRPCService.t)
  (m : GRPCMethod.t) :
  srv ∈ parseRegistryFiles registry →
  m ∈ GRPCService.Methods srv →
  ∃ svc mth,
    svc ∈ services_of registry ∧ mth ∈ ServiceDescriptor.Methods svc ∧
    srv = listed_service svc ∧ m = listed_method svc mth.
Proof.
  rewrite parseRegistryFiles_listed. unfold service_less.
  rewrite (SliceStable_perm GRPCService.Name).
  intros Hsrv Hm.
  apply list_elem_of_fmap in Hsrv as (svc & -> & Hsvc).
  unfold listed_service in Hm. cbn [GRPCService.Methods] in Hm.
  unfold method_less in Hm. rewrite (SliceStable_perm GRPCMethod.Name) in Hm.
  apply list_elem_of_fmap in Hm as (mth & -> & Hmth).
  by exists svc, mth.
Qed.

(** X7.  What [parseRegistryFiles] lists can be resolved: in a registry
    whose declarations have distinct full names and whose service names
    hold no slash, the [FullName] of every listed method resolves, by the
    lookup of [getMethodDesc], to a method descriptor of that name and
    with the streaming flags that are listed. *)
Theorem listed_methods_resolve (registry : Files) (srv : GRPCService.t)
  (m : GRPCMethod.t) :
  NoDup (map fst (declarations registry)) →
  Forall (fun svc => contains_slash (ServiceDescriptor.FullName svc) = false)
         (services_of registry) →
  srv ∈ parseRegistryFiles registry →
  m ∈ GRPCService.Methods srv →
  ∃ mth,
    methodDesc_in (Some registry) (GRPCMethod.FullName m) = Ok mth ∧
    MethodDescriptor.Name mth = GRPCMethod.Name m ∧
    MethodDescriptor.IsStreamingClient mth = GRPCMethod.IsStreamingClient m ∧
    MethodDescriptor.IsStreamingServer mth = GRPCMethod.IsStreamingServer m.
Proof.
  intros Hnodup Hslash Hsrv Hm.
  destruct (parseRegistryFiles_entry registry srv m Hsrv Hm)
    as (svc & mth & Hsvc & Hmth & -> & ->).
  exists mth. split; [| done].
  unfold listed_method. cbn [GRPCMethod.FullName].
  change ("/" +:+ ServiceDescriptor.FullName svc +:+ "/"
          +:+ MethodDescriptor.Name mth)
    with (String "/" (ServiceDescriptor.FullName svc +:+ "/"
                      +:+ MethodDescriptor.Name mth)).
  cbn [methodDesc_in].
  rewrite replace_first_slash_app
    by (rewrite Forall_forall in Hslash; by apply Hslash).
  by rewrite (FindDescriptorByName_method registry svc mth).
Qed.

Lemma listed_methods_resolve_witness :
  ∃ mth,
    methodDesc_in (Some double_registry) "/pkg.Svc/Feed" = Ok mth ∧
    MethodDescriptor.Name mth = "Feed" ∧
    MethodDescriptor.IsStreamingClient mth = false ∧
    MethodDescriptor.IsStreamingServer mth = true.
Proof.
  apply (listed_methods_resolve double_registry (listed_service Svc)
           (listed_method Svc Feed)).
  - apply (bool_decide_unpack _). vm_compute. exact I.
  - vm_compute. repeat constructor.
  - vm_compute. repeat constructor.
  - vm_compute. apply elem_of_cons. right. apply elem_of_cons. by left.
Defined.

(** ** Discovery *)

(** [Dial] ends in the state it began in, does not panic, and reads files
    and makes a client only. *)
Lemma Dial_run (w : World) (req : GRPCRequestSpec.t) (st : State) :
  ∃ o evs,
    Dial w req st = mk_Run o st evs ∧ o ≠ Panic ∧ Forall is_dial_event evs.
Proof.
  pose proof (Dial_pure_state w req st) as Hstate.
  pose proof (Dial_never_panics w req st) as Hpanic.
  pose proof (Dial_emits w req st) as Hevents.
  destruct (Dial w req st) as [o st' evs]. cbn in *. subst st'.
  by exists o, evs.
Qed.

(** X8.  What a run of [GetServices] leaves.  When it returns, it has
    stored under the id of the request the registry that its discovery
    has delivered (the answer of server reflection on the dialled
    connection or, without server reflection, the parse of the schema
    files), in place of any earlier entry, has changed nothing else, and
    the list it returns is the list of that registry.  When it fails with
    an error it leaves the state as it was: nothing is stored in the
    registry cache, and an entry stored before stays. *)
Theorem GetServices_outcome (s : Service) (w : World) (id envid : string)
  (st : State) :
  (∀ services,
     outcome (GetServices s w id envid st) = Ok services →
     ∃ files,
       discovered_registry s w id envid st files ∧
       final (GetServices s w id envid st)
       = mk_State (<[id := files]> (protoFilesRegistry st)) (respHeaders st)
                  (respTrailers st) (clock st) ∧
       services = parseRegistryFiles files) ∧
  (∀ e,
     outcome (GetServices s w id envid st) = Err e →
     final (GetServices s w id envid st) = st).
Proof.
  split; [apply GetServices_discovers |].
  intros e.
  destruct (requests s !! id) as [req |] eqn:Hreq;
    [| unfold GetServices; by rewrite Hreq].
  rewrite (GetServices_discovery_spec s w id envid req st Hreq).
  destruct (Dial_run w (discovery_spec s w req envid) st)
    as (o & evs & Hdial & _ & _).
  destruct o as [conn | e0 |];
    [| by erewrite bind_run_Err by exact Hdial
     | by erewrite bind_run_Panic by exact Hdial].
  erewrite bind_prepend by exact Hdial.
  rewrite outcome_prepend, final_prepend.
  unfold grpc_ProtoFilesFromReflectionAPI, protoFiles_LoadProtoFilesFromDisk,
    grpc_ProtoFilesFromDisk.
  destruct (ServerInfo.ServerReflection _); [| destruct (0 <? _)%nat].
  all: repeat run_step; run_end; done.
Qed.

(** The double, asked for its services with an entry in the cache. *)
Lemma GetServices_outcome_witness :
  ∃ files,
    discovered_registry (double_service upload_spec) (double_world echo_reply)
      "req-1" "env-1" discovered files ∧
    final (GetServices (double_service upload_spec) (double_world echo_reply)
             "req-1" "env-1" discovered)
    = mk_State (<["req-1" := files]> (protoFilesRegistry discovered))
        (respHeaders discovered) (respTrailers discovered) (clock discovered) ∧
    parseRegistryFiles double_registry = parseRegistryFiles files.
Proof.
  apply (proj1 (GetServices_outcome (double_service upload_spec)
                  (double_world echo_reply) "req-1" "env-1" discovered)).
  vm_compute. reflexivity.
Defined.

(** X9.  Server reflection comes first.  When the call definition has
    server reflection on and [Dial] gives a connection, [GetServices]
    asks the reflection API of that connection and nothing else: the
    schema files are neither loaded nor parsed, also when the call
    definition names some.  It returns the list of what reflection
    delivers, or fails with the error of reflection. *)
Theorem GetServices_reflection_first (s : Service) (w : World)
  (id envid : string) (req : Request.t) (st : State) (conn : ClientConn) :
  requests s !! id = Some req →
  ServerInfo.ServerReflection
    (GRPCRequestSpec.ServerInfo (discovery_spec s w req envid)) = true →
  outcome (Dial w (discovery_spec s w req envid) st) = Ok conn →
  events (GetServices s w id envid st)
  = events (Dial w (discovery_spec s w req envid) st) ++ [EvReflection conn] ∧
  outcome (GetServices s w id envid st)
  = match ProtoFilesFromReflectionAPI w conn with
    | ok files => Ok (parseRegistryFiles files)
    | fail e => Err e
    end.
Proof.
  intros Hreq Hreflection Hconn.
  rewrite (GetServices_discovery_spec s w id envid req st Hreq).
  rewrite Hreflection.
  destruct (Dial_run w (discovery_spec s w req envid) st)
    as (o & evs & Hdial & _ & _).
  rewrite Hdial in Hconn |- *. cbn in Hconn. subst o.
  erewrite bind_prepend by exact Hdial.
  rewrite outcome_prepend, events_prepend. cbn [events].
  unfold grpc_ProtoFilesFromReflectionAPI.
  repeat run_step; run_end; done.
Qed.

(** The double with server reflection and a schema file. *)
Lemma GetServices_reflection_first_witness :
  events (GetServices (double_service with_both_sources)
            (double_world echo_reply) "req-1" "env-1" fresh)
  = events (Dial (double_world echo_reply)
              (discovery_spec (double_service with_both_sources)
                 (double_world echo_reply)
                 (Request.mk "req-1" with_both_sources) "env-1") fresh)
    ++ [EvReflection double_conn] ∧
  outcome (GetServices (double_service with_both_sources)
             (double_world echo_reply) "req-1" "env-1" fresh)
  = match ProtoFilesFromReflectionAPI (double_world echo_reply) double_conn
    with
    | ok files => Ok (parseRegistryFiles files)
    | fail e => Err e
    end.
Proof.
  exact (GetServices_reflection_first (double_service with_both_sources)
           (double_world echo_reply) "req-1" "env-1"
           (Request.mk "req-1" with_both_sources) fresh double_conn
           eq_refl eq_refl eq_refl).
Defined.

(** X10.  With server reflection off and no schema file in the call
    definition there is nothing to discover from, but [GetServices]
    finds that out only after it has dialled: it causes the events of
    [Dial], and fails with the error of [Dial] or, when [Dial] gives a
    connection, with [no server reflection or proto files found].  The
    state is as before. *)
Theorem GetServices_without_source (s : Service) (w : World)
  (id envid : string) (req : Request.t) (st : State) :
  requests s !! id = Some req →
  ServerInfo.ServerReflection
    (GRPCRequestSpec.ServerInfo (discovery_spec s w req envid)) = false →
  ServerInfo.ProtoFiles
    (GRPCRequestSpec.ServerInfo (discovery_spec s w req envid)) = [] →
  events (GetServices s w id envid st)
  = events (Dial w (discovery_spec s w req envid) st) ∧
  final (GetServices s w id envid st) = st ∧
  outcome (GetServices s w id envid st)
  = match outcome (Dial w (discovery_spec s w req envid) st) with
    | Ok _ => Err (errors_New "no server reflection or proto files found")
    | Err e => Err e
    | Panic => Panic
    end.
Proof.
  intros Hreq Hreflection Hfiles.
  rewrite (GetServices_discovery_spec s w id envid req st Hreq).
  rewrite Hreflection, Hfiles. cbn [length Nat.ltb Nat.leb].
  destruct (Dial_run w (discovery_spec s w req envid) st)
    as (o & evs & Hdial & _ & _).
  rewrite Hdial. cbn [outcome events].
  destruct o as [conn | e |];
    [erewrite bind_prepend by exact Hdial
    | erewrite bind_run_Err by exact Hdial
    | erewrite bind_run_Panic by exact Hdial]; try done.
  unfold raise. rewrite prepend_mk. cbn. by rewrite app_nil_r.
Qed.

Lemma GetServices_without_source_witness :
  events (GetServices (double_service without_source)
            (double_world echo_reply) "req-1" "" fresh)
  = events (Dial (double_world echo_reply)
              (discovery_spec (double_service without_source)
                 (double_world echo_reply)
                 (Request.mk "req-1" without_source) "") fresh) ∧
  final (GetServices (double_service without_source)
           (double_world echo_reply) "req-1" "" fresh) = fresh ∧
  outcome (GetServices (double_service without_source)
             (double_world echo_reply) "req-1" "" fresh)
  = match outcome (Dial (double_world echo_reply)
                     (discovery_spec (double_service without_source)
                        (double_world echo_reply)
                        (Request.mk "req-1" without_source) "") fresh) with
    | Ok _ => Err (errors_New "no server reflection or proto files found")
    | Err e => Err e
    | Panic => Panic
    end.
Proof.
  exact (GetServices_without_source (double_service without_source)
           (double_world echo_reply) "req-1" ""
           (Request.mk "req-1" without_source) fresh
           eq_refl eq_refl eq_refl).
Defined.

(** ** What a call leaves of the state *)

Section Preserved.
Context (R : State → State → Prop) `{!Reflexive R} `{!Transitive R}.
Context (id : string).
Hypothesis R_cells :
  ∀ st headers trailers now,
    R st (mk_State (protoFilesRegistry st) headers trailers now).
Hypothesis R_Set :
  ∀ st files,
    R st (mk_State (<[id := files]> (protoFilesRegistry st)) (respHeaders st)
            (respTrailers st) (clock st)).

Lemma preserves_pure_state {A} (c : M A) : pure_state c → preserves R c.
Proof. intros Hc st. by rewrite Hc. Qed.

Lemma preserves_bind {A B} (c : M A) (k : A → M B) :
  preserves R c → (∀ a, preserves R (k a)) → preserves R (bind c k).
Proof.
  intros Hc Hk st. unfold bind. specialize (Hc st).
  destruct (outcome (c st)); cbn [final]; [| done ..].
  etrans; [exact Hc | apply Hk].
Qed.

Lemma preserves_peer_answers (script : CallScript) :
  preserves R (peer_answers script).
Proof. intros st. apply R_cells. Qed.

Lemma preserves_declare_captured : preserves R declare_captured.
Proof. intros st. apply R_cells. Qed.

Lemma preserves_registry_Set (files : Files) :
  preserves R (registry_Set id files).
Proof. intros st. apply R_Set. Qed.

Ltac step_preserved :=
  repeat first
    [ apply preserves_bind; [| intros ?]
    | apply preserves_peer_answers
    | apply preserves_declare_captured
    | apply preserves_registry_Set
    | solve [apply preserves_pure_state; first [done | eauto with runs]]
    | match goal with
      | |- preserves _ (if ?b then _ else _) => destruct b
      | |- preserves _ (match ?x with _ => _ end) => destruct x
      end ].

Lemma preserves_recvLoop w ctx md fin pending :
  ∀ out counter, preserves R (recvLoop w ctx md fin pending out counter).
Proof.
  induction pending as [| content pending IH]; intros out counter;
    cbn [recvLoop]; step_preserved. apply IH.
Qed.

Lemma preserves_invokeServerStream w ctx conn method req md :
  preserves R (invokeServerStream w ctx conn method req md).
Proof.
  unfold invokeServerStream. step_preserved. apply preserves_recvLoop.
Qed.

Lemma preserves_invokeUnary w ctx conn method req md :
  preserves R (invokeUnary w ctx conn method req md).
Proof. unfold invokeUnary. step_preserved. Qed.

Lemma preserves_call_and_respond w spec conn md request ctx :
  preserves R (call_and_respond w spec conn md request ctx).
Proof.
  unfold call_and_respond.
  apply preserves_bind; [by apply preserves_pure_state | intros start].
  apply preserves_bind;
    [destruct (MethodDescriptor.IsStreamingServer md);
       [apply preserves_invokeServerStream | apply preserves_invokeUnary] |].
  intros r.
  apply preserves_bind; [by apply preserves_pure_state | intros now].
  apply preserves_bind; [by apply preserves_pure_state | intros captured].
  by apply preserves_pure_state.
Qed.

Lemma preserves_Dial w req : preserves R (Dial w req).
Proof. apply preserves_pure_state, Dial_pure_state. Qed.

Lemma preserves_GetServices s w envid :
  preserves R (GetServices s w id envid).
Proof.
  unfold GetServices, grpc_ProtoFilesFromReflectionAPI,
    protoFiles_LoadProtoFilesFromDisk, grpc_ProtoFilesFromDisk.
  destruct (requests s !! id); [| step_preserved].
  apply preserves_bind; [apply preserves_Dial | intros conn].
  step_preserved.
Qed.

Lemma preserves_getMethodDesc s w envid fullname :
  preserves R (getMethodDesc s w id envid fullname).
Proof.
  unfold getMethodDesc, registryFiles_of.
  apply preserves_bind; [| intros ?; by apply preserves_pure_state].
  apply preserves_bind; [by apply preserves_pure_state | intros cached].
  destruct cached; [by apply preserves_pure_state |].
  apply preserves_bind; [apply preserves_GetServices | intros _].
  by apply preserves_pure_state.
Qed.

Lemma preserves_Invoke s w envid : preserves R (Invoke s w id envid).
Proof.
  unfold Invoke.
  destruct (requests s !! id); [| by apply preserves_pure_state].
  destruct (getActiveEnvironment s envid); [| by apply preserves_pure_state].
  cbn zeta. case_bool_decide; [by apply preserves_pure_state |].
  apply preserves_bind; [apply preserves_Dial | intros conn].
  apply preserves_bind; [apply preserves_getMethodDesc | intros md].
  apply preserves_bind; [apply preserves_pure_state, pure_state_lift |].
  intros request.
  apply preserves_bind; [by apply preserves_pure_state | intros authHeaders].
  apply preserves_bind; [apply preserves_declare_captured | intros _].
  apply (preserves_call_and_respond w _ conn md request).
Qed.

Lemma preserves_GetRequestStruct s w envid :
  preserves R (GetRequestStruct s w id envid).
Proof.
  unfold GetRequestStruct.
  destruct (requests s !! id); [| by apply preserves_pure_state].
  cbn zeta. case_bool_decide; [by apply preserves_pure_state |].
  apply preserves_bind; [apply preserves_getMethodDesc | intros md].
  apply preserves_bind; [apply preserves_pure_state, pure_state_lift |].
  intros reqJSON. by apply preserves_pure_state.
Qed.
End Preserved.

Lemma same_registry_but_refl (id : string) : Reflexive (same_registry_but id).
Proof. by intros st id' _. Qed.

Lemma same_registry_but_trans (id : string) :
  Transitive (same_registry_but id).
Proof.
  intros st1 st2 st3 H12 H23 id' Hid. by rewrite (H23 id' Hid), (H12 id' Hid).
Qed.

(** X11.  The registry cache is touched at one key only: whatever
    [Invoke], [GetServices] and [GetRequestStruct] do for a request, and
    however they end, the cache entries of all other requests are after
    the run what they were before. *)
Theorem registry_of_other_requests_kept (s : Service) (w : World)
  (id envid : string) (st : State) (other : string) :
  other ≠ id →
  protoFilesRegistry (final (Invoke s w id envid st)) !! other
  = protoFilesRegistry st !! other ∧
  protoFilesRegistry (final (GetServices s w id envid st)) !! other
  = protoFilesRegistry st !! other ∧
  protoFilesRegistry (final (GetRequestStruct s w id envid st)) !! other
  = protoFilesRegistry st !! other.
Proof.
  intros Hother.
  pose proof (same_registry_but_refl id) as Hrefl.
  pose proof (same_registry_but_trans id) as Htrans.
  assert (∀ st headers trailers now,
            same_registry_but id st
              (mk_State (protoFilesRegistry st) headers trailers now))
    as Hcells by by intros ? ? ? ? id' _.
  assert (∀ st files,
            same_registry_but id st
              (mk_State (<[id := files]> (protoFilesRegistry st))
                 (respHeaders st) (respTrailers st) (clock st)))
    as Hset.
  { intros ? files id' Hid. cbn. by rewrite lookup_insert_ne. }
  split; [| split].
  - by apply (preserves_Invoke (same_registry_but id) id Hcells Hset).
  - by apply (preserves_GetServices (same_registry_but id) id Hset).
  - by apply (preserves_GetRequestStruct (same_registry_but id) id Hset).
Qed.

Lemma registry_of_other_requests_kept_witness :
  protoFilesRegistry
    (final (Invoke (double_service upload_spec) (double_world echo_reply)
              "req-1" "env-1" discovered)) !! "req-2"
  = protoFilesRegistry discovered !! "req-2" ∧
  protoFilesRegistry
    (final (GetServices (double_service upload_spec) (double_world echo_reply)
              "req-1" "env-1" discovered)) !! "req-2"
  = protoFilesRegistry discovered !! "req-2" ∧
  protoFilesRegistry
    (final (GetRequestStruct (double_service upload_spec)
              (double_world echo_reply) "req-1" "env-1" discovered)) !! "req-2"
  = protoFilesRegistry discovered !! "req-2".
Proof.
  apply (registry_of_other_requests_kept (double_service upload_spec)
           (double_world echo_reply) "req-1" "env-1" discovered "req-2").
  discriminate.
Defined.

(** ** The response *)

Lemma make_response_consistent (w : World) (captured : MD * MD) (elapsed : Z)
  (respStr : string) (respErr : option error) (out : Response.t)
  (e : option error) :
  (respErr ≠ None → respStr = "") →
  make_response w captured elapsed respStr respErr = (out, e) →
  e = respErr ∧
  Response.Error_ out = respErr ∧
  Response.StatueCode out = status_Code respErr ∧
  Response.Status out = Code_String (status_Code respErr) ∧
  Response.Size out = len (Response.Body out) ∧
  (respErr ≠ None → Response.Body out = "").
Proof.
  intros Hempty. unfold make_response.
  destruct respErr as [err |]; intros [= <- <-]; cbn; repeat split; try done.
  by rewrite Hempty.
Qed.

Lemma call_and_respond_made w spec conn md request ctx st :
  ∃ captured elapsed respStr respErr,
    outcome (call_and_respond w spec conn md request ctx st)
    = Ok (make_response w captured elapsed respStr respErr) ∧
    (respErr ≠ None → respStr = "").
Proof.
  unfold call_and_respond. rewrite bind_time_Now.
  assert (∃ call : M (string * option error),
            call
            = (if MethodDescriptor.IsStreamingServer md
               then invokeServerStream w ctx (Some conn)
                      (GRPCRequestSpec.LasSelectedMethod spec) request md
               else invokeUnary w ctx (Some conn)
                      (GRPCRequestSpec.LasSelectedMethod spec) request md) ∧
            returns_pair (call st))
    as (call & <- & respStr & respErr & Hrun & Hempty).
  { eexists. split; [reflexivity |].
    destruct (MethodDescriptor.IsStreamingServer md);
      [apply invokeServerStream_returns | apply invokeUnary_returns]. }
  destruct (call st) as [o st2 evs2] eqn:Hcall. cbn in Hrun. subst o.
  erewrite bind_prepend by exact Hcall.
  rewrite outcome_prepend, bind_time_Now, bind_get_captured.
  unfold ret. cbn [outcome fst snd].
  by eexists _, _, _, _.
Qed.

(** X12.  Every response [Invoke] returns is consistent with the error
    it comes with: the response carries that error, the status code and
    the status text are those of the error ([OK] for none), the size is
    the length of the body, and with an error the body is empty. *)
Theorem Invoke_response_consistent (s : Service) (w : World)
  (id envid : string) (st : State) (out : Response.t)
  (respErr : option error) :
  outcome (Invoke s w id envid st) = Ok (out, respErr) →
  Response.Error_ out = respErr ∧
  Response.StatueCode out = status_Code respErr ∧
  Response.Status out = Code_String (status_Code respErr) ∧
  Response.Size out = len (Response.Body out) ∧
  (respErr ≠ None → Response.Body out = "").
Proof.
  intros Hrun.
  destruct (Invoke_cases s w id envid st)
    as [(spec & conn & md & request & ctx & st' & evs & Hreach) | [Hno _]];
    [| by destruct (Hno (out, respErr))].
  rewrite (Invoke_from_call _ _ _ _ _ _ _ _ _ _ _ _ Hreach) in Hrun.
  cbn [outcome] in Hrun.
  destruct (call_and_respond_made w spec conn md request ctx st')
    as (captured & elapsed & respStr & respErr' & Hmade & Hempty).
  rewrite Hmade in Hrun. injection Hrun as Hrun.
  by destruct (make_response_consistent _ _ _ _ _ _ _ Hempty Hrun)
    as (-> & ? & ? & ? & ? & ?).
Qed.

(** The double, with a stream that breaks after two messages. *)
Lemma Invoke_response_consistent_witness :
  ∃ out,
    outcome (Invoke (double_service feed_spec)
               (double_world two_then_unavailable) "req-1" "env-1" fresh)
    = Ok (out, Some (status_Error 14 "connection lost")) ∧
    Response.StatueCode out = 14 ∧
    Response.Status out = "Unavailable" ∧
    Response.Size out = len (Response.Body out).
Proof.
  eexists. split; [vm_compute; reflexivity |].
  assert (outcome (Invoke (double_service feed_spec)
               (double_world two_then_unavailable) "req-1" "env-1" fresh)
    = Ok (Response.mk "" [] [] 40 0 (Some (status_Error 14 "connection lost")) 14 "Unavailable",
          Some (status_Error 14 "connection lost"))) as Hrun
    by (vm_compute; reflexivity).
  destruct (Invoke_response_consistent _ _ _ _ _ _ _ Hrun)
    as (_ & Hcode & Hstatus & Hsize & _).
  by repeat split.
Defined.

(** X13.  [Invoke] returns a response exactly when it has turned to the
    peer: a run that ends without a response, in an error or a panic, has
    caused no event of a call, and a run that has caused one ends with a
    response. *)
Theorem Invoke_responds_iff_called (s : Service) (w : World)
  (id envid : string) (st : State) :
  (∃ out respErr, outcome (Invoke s w id envid st) = Ok (out, respErr)) ↔
  Exists is_call (events (Invoke s w id envid st)).
Proof.
  destruct (Invoke_cases s w id envid st)
    as [(spec & conn & md & request & ctx & st' & evs & Hreach)
       | [Hno Hevents]].
  - rewrite (Invoke_from_call _ _ _ _ _ _ _ _ _ _ _ _ Hreach).
    cbn [outcome events]. split; intros _.
    + apply Exists_exists.
      exists (first_call_event conn ctx
                (GRPCRequestSpec.LasSelectedMethod spec) request md).
      split; [apply elem_of_app; right; apply call_and_respond_begins |].
      unfold first_call_event, is_call.
      by destruct (MethodDescriptor.IsStreamingServer md).
    + destruct (call_and_respond_returns w spec conn md request ctx st')
        as (out & respErr & Hrun & _).
      by exists out, respErr.
  - split.
    + intros (out & respErr & Hrun). by destruct (Hno (out, respErr)).
    + intros Hcalled. apply Exists_exists in Hcalled as (ev & Hin & Hcall).
      rewrite Forall_forall in Hevents. by destruct (Hcall (Hevents ev Hin)).
Qed.

(** ** Unary calls *)

(** X14.  A unary call that the peer answers.  Once [Invoke] has got as
    far as the call of a method without the server-streaming flag, it
    sends one request to the peer; when the peer replies and the reply
    encodes, [Invoke] returns a response without error: the body is the
    encoded reply, the size its length, the status [OK], and the headers,
    the trailers and the time passed are those of the call. *)
Theorem Invoke_unary_success (s : Service) (w : World) (id envid : string)
  (st : State) spec conn md request ctx st' evs
  (script : CallScript) (content respJSON : string) :
  reaches_call s w id envid st spec conn md request ctx st' evs →
  MethodDescriptor.IsStreamingServer md = false →
  peer w conn ctx (GRPCRequestSpec.LasSelectedMethod spec) request = script →
  unary_reply script = ok content →
  Marshal w indent_two
    (fill (dynamicpb_NewMessage (MethodDescriptor.Output md)) content)
  = ok respJSON →
  events (Invoke s w id envid st)
  = evs ++ [EvInvoke conn ctx (GRPCRequestSpec.LasSelectedMethod spec) request] ∧
  ∃ out,
    outcome (Invoke s w id envid st) = Ok (out, None) ∧
    Response.Body out = respJSON ∧
    Response.Size out = len respJSON ∧
    Response.Error_ out = None ∧
    Response.StatueCode out = 0 ∧
    Response.Status out = "OK" ∧
    Response.Metadata out = MetadataToKeyValue w (peer_headers script) ∧
    Response.Trailers out = MetadataToKeyValue w (peer_trailers script) ∧
    Response.TimePassed out = wrap64 (elapsed script).
Proof.
  intros Hreach Hserver <- Hreply Hjson.
  rewrite (Invoke_from_call _ _ _ _ _ _ _ _ _ _ _ _ Hreach).
  cbn [outcome events]. unfold call_and_respond. rewrite Hserver.
  unfold invokeUnary.
  repeat first [rewrite Hreply | rewrite Hjson | run_law].
  unfold ret. rewrite prepend_mk. cbn [outcome events fst snd app].
  split; [done |].
  eexists. split; [reflexivity |]. cbn.
  repeat split. f_equal. lia.
Qed.

(** The double, at [/pkg.Svc/Upload], which it answers as a unary
    call. *)
Lemma Invoke_unary_success_witness :
  events (Invoke (double_service upload_spec) (double_world echo_reply)
            "req-1" "env-1" fresh)
  = ([double_dialled] ++ [double_dialled; EvReflection double_conn])
    ++ [EvInvoke double_conn (call_context upload_spec None)
          "/pkg.Svc/Upload" (mk_Message "pkg.Msg" "hi")] ∧
  ∃ out,
    outcome (Invoke (double_service upload_spec) (double_world echo_reply)
               "req-1" "env-1" fresh) = Ok (out, None) ∧
    Response.Body out = "{hi}" ∧
    Response.Size out = len "{hi}" ∧
    Response.Error_ out = None ∧
    Response.StatueCode out = 0 ∧
    Response.Status out = "OK" ∧
    Response.Metadata out = [] ∧
    Response.Trailers out = [] ∧
    Response.TimePassed out = wrap64 1.
Proof.
  exact (Invoke_unary_success _ _ _ _ _ _ _ _ _ _ _ _ echo_reply "hi" "{hi}"
           upload_reaches_call eq_refl eq_refl eq_refl eq_refl).
Defined.

(** X15.  A unary call that the peer fails.  [Invoke] still returns a
    response, together with the error of the call: the body is empty and
    the size 0, the status code is the code of the error, and the
    headers, the trailers and the time passed are still those of the
    call. *)
Theorem Invoke_unary_failure (s : Service) (w : World) (id envid : string)
  (st : State) spec conn md request ctx st' evs
  (script : CallScript) (err : error) :
  reaches_call s w id envid st spec conn md request ctx st' evs →
  MethodDescriptor.IsStreamingServer md = false →
  peer w conn ctx (GRPCRequestSpec.LasSelectedMethod spec) request = script →
  unary_reply script = fail err →
  events (Invoke s w id envid st)
  = evs ++ [EvInvoke conn ctx (GRPCRequestSpec.LasSelectedMethod spec) request] ∧
  ∃ out,
    outcome (Invoke s w id envid st) = Ok (out, Some err) ∧
    Response.Body out = "" ∧
    Response.Size out = 0 ∧
    Response.Error_ out = Some err ∧
    Response.StatueCode out = status_Code (Some err) ∧
    Response.Status out = Code_String (status_Code (Some err)) ∧
    Response.Metadata out = MetadataToKeyValue w (peer_headers script) ∧
    Response.Trailers out = MetadataToKeyValue w (peer_trailers script) ∧
    Response.TimePassed out = wrap64 (elapsed script).
Proof.
  intros Hreach Hserver <- Hreply.
  rewrite (Invoke_from_call _ _ _ _ _ _ _ _ _ _ _ _ Hreach).
  cbn [outcome events]. unfold call_and_respond. rewrite Hserver.
  unfold invokeUnary.
  repeat first [rewrite Hreply | run_law].
  unfold ret. rewrite prepend_mk. cbn [outcome events fst snd app].
  split; [done |].
  eexists. split; [reflexivity |]. cbn.
  repeat split. f_equal. lia.
Qed.

(** The double reaches the call of [/pkg.Svc/Upload], whatever the peer
    is to answer. *)
Lemma upload_reaches (script : CallScript) :
  reaches_call (double_service upload_spec) (double_world script)
    "req-1" "env-1" fresh upload_spec double_conn Upload
    (mk_Message "pkg.Msg" "hi") (call_context upload_spec None) discovered
    ([double_dialled] ++ [double_dialled; EvReflection double_conn]).
Proof.
  exact (reaches_call_intro (double_service upload_spec)
           (double_world script)
           "req-1" "env-1" fresh (Environment.mk "env-1" []) upload_spec
           double_conn Upload (mk_Message "pkg.Msg" "hi") None
           [double_dialled] discovered
           [double_dialled; EvReflection double_conn]
           eq_refl (fun H => eq_ind "/pkg.Svc/Upload"
                               (fun s => match s with
                                         | EmptyString => False
                                         | String _ _ => True
                                         end) I "" H)
           eq_refl eq_refl eq_refl eq_refl).
Defined.

Lemma Invoke_unary_failure_witness :
  events (Invoke (double_service upload_spec) (double_world refused)
            "req-1" "env-1" fresh)
  = ([double_dialled] ++ [double_dialled; EvReflection double_conn])
    ++ [EvInvoke double_conn (call_context upload_spec None)
          "/pkg.Svc/Upload" (mk_Message "pkg.Msg" "hi")] ∧
  ∃ out,
    outcome (Invoke (double_service upload_spec) (double_world refused)
               "req-1" "env-1" fresh)
    = Ok (out, Some (status_Error 7 "not allowed")) ∧
    Response.Body out = "" ∧
    Response.Size out = 0 ∧
    Response.Error_ out = Some (status_Error 7 "not allowed") ∧
    Response.StatueCode out = 7 ∧
    Response.Status out = "PermissionDenied" ∧
    Response.Metadata out = [] ∧
    Response.Trailers out = [] ∧
    Response.TimePassed out = wrap64 2.
Proof.
  exact (Invoke_unary_failure _ _ _ _ _ _ _ _ _ _ _ _ refused
           (status_Error 7 "not allowed")
           (upload_reaches refused) eq_refl eq_refl eq_refl).
Defined.

(** ** With the registry in the cache *)

Lemma getMethodDesc_cached (s : Service) (w : World)
  (id envid fullname : string) (st : State) (files : Files) :
  protoFilesRegistry st !! id = Some files →
  getMethodDesc s w id envid fullname st
  = mk_Run (methodDesc_in (Some files) fullname) st [].
Proof.
  intros Hcached. unfold getMethodDesc, registryFiles_of.
  by rewrite bind_bind, bind_registry_Get, Hcached, bind_ret.
Qed.

Lemma same_registry_refl : Reflexive same_registry.
Proof. by intros st. Qed.

Lemma same_registry_trans : Transitive same_registry.
Proof. intros st1 st2 st3 H12 H23. unfold same_registry in *. congruence. Qed.

Lemma call_and_respond_same_registry w spec conn md request ctx st :
  protoFilesRegistry (final (call_and_respond w spec conn md request ctx st))
  = protoFilesRegistry st.
Proof.
  pose proof same_registry_refl as Hrefl.
  pose proof same_registry_trans as Htrans.
  by apply (preserves_call_and_respond same_registry).
Qed.

Lemma call_and_respond_calls w spec conn md request ctx st :
  Forall is_call (events (call_and_respond w spec conn md request ctx st)).
Proof.
  eapply Forall_impl; [apply call_and_respond_emits |].
  intros ev Hev. unfold is_call. unfold under in Hev. by rewrite Hev.
Qed.

(** X16.  With the registry of the request in the cache, [Invoke] does
    not discover and does not touch the cache: its events are those of one
    [Dial], with the call definition after substitution and overlay, and
    after them only events of the call; and the registry cache is after
    the run what it was before, however the run ends. *)
Theorem Invoke_cached (s : Service) (w : World) (id envid : string)
  (st : State) (files : Files) :
  protoFilesRegistry st !! id = Some files →
  protoFilesRegistry (final (Invoke s w id envid st)) = protoFilesRegistry st ∧
  (events (Invoke s w id envid st) = [] ∨
   ∃ env spec called,
     built_spec s w id envid = Some (env, spec) ∧
     events (Invoke s w id envid st) = events (Dial w spec st) ++ called ∧
     Forall is_call called).
Proof.
  intros Hcached. unfold Invoke, built_spec.
  destruct (requests s !! id) as [req |]; [| by split; [| left]].
  destruct (getActiveEnvironment s envid) as [env |]; [| by split; [| left]].
  cbv zeta.
  set (spec := Environment_ApplyToGRPCRequest w _ _).
  set (env' := variables_ApplyToEnv w _ env).
  case_bool_decide; [by split; [| left] |].
  destruct (Dial_run w spec st) as (o & evs & Hdial & _ & _).
  assert (∀ r : Run (Response.t * option error),
            protoFilesRegistry (final r) = protoFilesRegistry st →
            Forall is_call (events r) →
            protoFilesRegistry (final (prepend evs r)) = protoFilesRegistry st ∧
            (events (prepend evs r) = [] ∨
             ∃ env0 spec0 called,
               Some (env', spec) = Some (env0, spec0) ∧
               events (prepend evs r) = events (Dial w spec0 st) ++ called ∧
               Forall is_call called)) as Hrest.
  { intros r Hregistry Hcalls. split; [done |]. right.
    exists env', spec, (events r). by rewrite Hdial. }
  destruct o as [conn | e |];
    [erewrite bind_prepend by exact Hdial
    | erewrite bind_run_Err by exact Hdial
    | erewrite bind_run_Panic by exact Hdial].
  2, 3: split; [done |]; right; exists env', spec, [];
    by rewrite Hdial, app_nil_r.
  apply Hrest; clear Hrest.
  all: destruct (methodDesc_in (Some files)
                   (GRPCRequestSpec.LasSelectedMethod spec)) as [md | e |]
         eqn:Hdesc;
    [erewrite bind_silent
       by (erewrite getMethodDesc_cached by exact Hcached;
           by rewrite Hdesc)
    | erewrite bind_run_Err
        by (erewrite getMethodDesc_cached by exact Hcached;
            by rewrite Hdesc); by cbn
    | erewrite bind_run_Panic
        by (erewrite getMethodDesc_cached by exact Hcached;
            by rewrite Hdesc); by cbn].
  all: destruct (Unmarshal w _ _ _) as [request | e]; cbn [lift];
    [rewrite bind_ret | rewrite bind_raise; by cbn].
  all: destruct (prepareAuth spec) as [authHeaders | e |];
    [erewrite bind_silent by reflexivity
    | erewrite bind_run_Err by reflexivity; by cbn
    | erewrite bind_run_Panic by reflexivity; by cbn].
  all: rewrite bind_declare_captured.
  - exact (call_and_respond_same_registry w spec conn md request
             (call_context spec authHeaders)
             (mk_State (protoFilesRegistry st) ∅ ∅ (clock st))).
  - exact (call_and_respond_calls w spec conn md request
             (call_context spec authHeaders)
             (mk_State (protoFilesRegistry st) ∅ ∅ (clock st))).
Qed.

(** The double after a discovery. *)
Lemma Invoke_cached_witness :
  protoFilesRegistry
    (final (Invoke (double_service upload_spec) (double_world echo_reply)
              "req-1" "env-1" discovered))
  = protoFilesRegistry discovered ∧
  (events (Invoke (double_service upload_spec) (double_world echo_reply)
             "req-1" "env-1" discovered) = [] ∨
   ∃ env spec called,
     built_spec (double_service upload_spec) (double_world echo_reply)
       "req-1" "env-1" = Some (env, spec) ∧
     events (Invoke (double_service upload_spec) (double_world echo_reply)
               "req-1" "env-1" discovered)
     = events (Dial (double_world echo_reply) spec discovered) ++ called ∧
     Forall is_call called).
Proof.
  exact (Invoke_cached (double_service upload_spec) (double_world echo_reply)
           "req-1" "env-1" discovered double_registry eq_refl).
Defined.

(** ** Server streams *)

(** X17.  A server-streaming call that fails before the first receive.
    When the stream cannot be opened, the request cannot be sent, or the
    sending side cannot be closed, [invokeServerStream] returns the empty
    text together with that error and receives nothing: its events are
    the opening of the stream and, as far as it got, the sending of the
    request and the closing of the sending side.  The call has taken
    its time all the same, also when the stream could not be opened: the
    state it leaves is the one after the answer of the peer, with the
    clock advanced by the time of the call. *)
Theorem invokeServerStream_fails_early (w : World) (ctx : Context)
  (conn : ClientConn) (method : string) (req : Message)
  (md : MethodDescriptor.t) (st : State) (script : CallScript) (err : error) :
  peer w conn ctx method req = script →
  stream_open script = Some err ∨
  stream_open script = None ∧
    (stream_send script = Some err ∨
     stream_send script = None ∧ stream_close script = Some err) →
  outcome (invokeServerStream w ctx (Some conn) method req md st)
  = Ok ("", Some err) ∧
  events (invokeServerStream w ctx (Some conn) method req md st)
  = EvNewStream conn ctx (mk_StreamDesc method false true) method
    :: match stream_open script, stream_send script with
       | Some _, _ => []
       | None, Some _ => [EvSendMsg ctx req]
       | None, None => [EvSendMsg ctx req; EvCloseSend ctx]
       end ∧
  final (invokeServerStream w ctx (Some conn) method req md st)
  = answered st script ∧
  clock (final (invokeServerStream w ctx (Some conn) method req md st))
  = clock st + elapsed script.
Proof.
  intros <- Hfails. unfold invokeServerStream, WithCancel.
  rewrite bind_emit. cbv zeta. rewrite bind_peer_answers.
  destruct Hfails as [Hopen | [Hopen [Hsend | [Hsend Hclose]]]];
    rewrite Hopen.
  - by unfold ret.
  - rewrite bind_emit, Hsend.
    unfold ret. rewrite !prepend_mk. by repeat split.
  - rewrite bind_emit, Hsend, bind_emit, Hclose.
    unfold ret. rewrite !prepend_mk. by repeat split.
Qed.

(** The double, with a peer that refuses to open the stream. *)
Lemma invokeServerStream_fails_early_witness :
  outcome (invokeServerStream (double_world no_stream)
             (call_context feed_spec None) (Some double_conn)
             "/pkg.Svc/Feed" (mk_Message "pkg.Msg" "hi") Feed discovered)
  = Ok ("", Some (status_Error 12 "unknown method Feed")) ∧
  events (invokeServerStream (double_world no_stream)
            (call_context feed_spec None) (Some double_conn)
            "/pkg.Svc/Feed" (mk_Message "pkg.Msg" "hi") Feed discovered)
  = [EvNewStream double_conn (call_context feed_spec None)
       (mk_StreamDesc "/pkg.Svc/Feed" false true) "/pkg.Svc/Feed"] ∧
  final (invokeServerStream (double_world no_stream)
           (call_context feed_spec None) (Some double_conn)
           "/pkg.Svc/Feed" (mk_Message "pkg.Msg" "hi") Feed discovered)
  = answered discovered no_stream ∧
  clock (final (invokeServerStream (double_world no_stream)
                  (call_context feed_spec None) (Some double_conn)
                  "/pkg.Svc/Feed" (mk_Message "pkg.Msg" "hi") Feed discovered))
  = clock discovered + 5.
Proof.
  exact (invokeServerStream_fails_early (double_world no_stream)
           (call_context feed_spec None) double_conn "/pkg.Svc/Feed"
           (mk_Message "pkg.Msg" "hi") Feed discovered no_stream
           (status_Error 12 "unknown method Feed") eq_refl
           (or_introl eq_refl)).
Defined.

Lemma recvLoop_encoding_fails (w : World) (ctx : Context)
  (md : MethodDescriptor.t) (fin : error) (contents texts : list string)
  (content : string) (rest : list string) (err : error) :
  encoded w md contents texts →
  Marshal w indent_two
    (fill (dynamicpb_NewMessage (MethodDescriptor.Output md)) content)
  = fail err →
  ∀ (out : string) (counter : Z) (st : State),
    recvLoop w ctx md fin (contents ++ content :: rest) out counter st =
    mk_Run (Ok ("", Some err)) st
           (replicate (S (length contents)) (EvRecvMsg ctx)).
Proof.
  intros Henc Hfail.
  induction Henc as [| content0 json contents texts Hjson _ IH];
    intros out counter st.
  - cbn [app recvLoop]. rewrite bind_emit, Hfail. by unfold ret.
  - cbn [app recvLoop]. rewrite bind_emit, Hjson, IH. done.
Qed.

(** X18.  A message that does not encode ends a server stream.  When
    the stream has opened and the [k+1]-th message that arrives cannot be
    encoded, [invokeServerStream] returns the empty text together with
    the error of the encoder, after [k+1] receives: the text of the [k]
    messages before is discarded, and what the peer has still to deliver
    is never received. *)
Theorem invokeServerStream_encoding_fails (w : World) (ctx : Context)
  (conn : ClientConn) (method : string) (req : Message)
  (md : MethodDescriptor.t) (script : CallScript)
  (contents texts : list string) (content : string) (rest : list string)
  (err : error) (st : State) :
  peer w conn ctx method req = script →
  stream_open script = None →
  stream_send script = None →
  stream_close script = None →
  stream_msgs script = contents ++ content :: rest →
  encoded w md contents texts →
  Marshal w indent_two
    (fill (dynamicpb_NewMessage (MethodDescriptor.Output md)) content)
  = fail err →
  invokeServerStream w ctx (Some conn) method req md st =
  mk_Run (Ok ("", Some err))
         (answered st script)
         ([EvNewStream conn ctx (mk_StreamDesc method false true) method;
           EvSendMsg ctx req; EvCloseSend ctx]
          ++ replicate (S (length contents)) (EvRecvMsg ctx)).
Proof.
  intros <- Hopen Hsend Hclose Hmsgs Henc Hfail.
  unfold invokeServerStream, WithCancel.
  rewrite bind_emit. cbv zeta.
  rewrite bind_peer_answers, Hopen, bind_emit, Hsend, bind_emit, Hclose, Hmsgs.
  rewrite (recvLoop_encoding_fails w ctx md _ contents texts content rest err
             Henc Hfail).
  by rewrite !prepend_mk.
Qed.

Lemma invokeServerStream_encoding_fails_witness :
  invokeServerStream (double_world_strict good_bad_good)
    (call_context feed_spec None) (Some double_conn) "/pkg.Svc/Feed"
    (mk_Message "pkg.Msg" "hi") Feed discovered
  = mk_Run (Ok ("", Some (errors_New "proto: invalid UTF-8")))
      (answered discovered good_bad_good)
      ([EvNewStream double_conn (call_context feed_spec None)
          (mk_StreamDesc "/pkg.Svc/Feed" false true) "/pkg.Svc/Feed";
        EvSendMsg (call_context feed_spec None) (mk_Message "pkg.Msg" "hi");
        EvCloseSend (call_context feed_spec None)]
       ++ replicate 2 (EvRecvMsg (call_context feed_spec None))).
Proof.
  apply (invokeServerStream_encoding_fails (double_world_strict good_bad_good)
           (call_context feed_spec None) double_conn "/pkg.Svc/Feed"
           (mk_Message "pkg.Msg" "hi") Feed good_bad_good
           ["n:0"] ["{n:0}"] "bad" ["n:2"]
           (errors_New "proto: invalid UTF-8") discovered);
    try reflexivity.
  repeat constructor.
Defined.

(** ** The request structure *)

(** X19.  [GetRequestStruct] never turns to the peer for a call, and
    what it causes is at most one discovery.  With the registry of the
    request in the cache it causes no event and leaves the state as it
    is, whatever the stored method name and the environment id are;
    without, its events are none or exactly those of [GetServices] for
    the same request and environment. *)
Theorem GetRequestStruct_discovers_only (s : Service) (w : World)
  (id envid : string) (st : State) :
  Forall no_call (events (GetRequestStruct s w id envid st)) ∧
  (∀ files,
     protoFilesRegistry st !! id = Some files →
     events (GetRequestStruct s w id envid st) = [] ∧
     final (GetRequestStruct s w id envid st) = st) ∧
  (protoFilesRegistry st !! id = None →
   events (GetRequestStruct s w id envid st) = [] ∨
   events (GetRequestStruct s w id envid st)
   = events (GetServices s w id envid st)).
Proof.
  split; [| split].
  - unfold GetRequestStruct.
    destruct (requests s !! id) as [req |]; [| apply emits_raise].
    cbv zeta. case_bool_decide as Hmethod; [apply emits_raise |].
    apply emits_bind; [apply getMethodDesc_no_call | intros md].
    apply emits_bind; [apply emits_lift | intros reqJSON].
    apply emits_ret.
  - intros files Hcached. unfold GetRequestStruct.
    destruct (requests s !! id) as [req |]; [| done].
    cbv zeta. case_bool_decide as Hmethod; [done |].
    destruct (methodDesc_in (Some files)
                (GRPCRequestSpec.LasSelectedMethod (Request.Spec_GRPC req)))
      as [md | e |] eqn:Hdesc;
      [erewrite bind_silent
         by (erewrite getMethodDesc_cached by exact Hcached;
             by rewrite Hdesc)
      | by erewrite bind_run_Err
          by (erewrite getMethodDesc_cached by exact Hcached;
              by rewrite Hdesc)
      | by erewrite bind_run_Panic
          by (erewrite getMethodDesc_cached by exact Hcached;
              by rewrite Hdesc)].
    destruct (Marshal w _ _) as [reqJSON | e]; cbn [lift];
      [by rewrite bind_ret | by rewrite bind_raise].
  - intros Hmiss. unfold GetRequestStruct.
    destruct (requests s !! id) as [req |]; [| by left].
    cbv zeta. case_bool_decide as Hmethod; [by left |].
    right. unfold getMethodDesc, registryFiles_of.
    rewrite !bind_bind, bind_registry_Get, Hmiss, bind_bind.
    destruct (GetServices s w id envid st) as [[services | e |] stg evg]
      eqn:Hget;
      [erewrite bind_prepend by exact Hget
      | by erewrite bind_run_Err by exact Hget
      | by erewrite bind_run_Panic by exact Hget].
    rewrite events_prepend, bind_registry_Get. cbn [events].
    destruct (methodDesc_in (protoFilesRegistry stg !! id)
                (GRPCRequestSpec.LasSelectedMethod (Request.Spec_GRPC req)))
      as [md | e |] eqn:Hdesc;
      [erewrite bind_silent by reflexivity
      | erewrite bind_run_Err by reflexivity; by rewrite app_nil_r
      | erewrite bind_run_Panic by reflexivity; by rewrite app_nil_r].
    destruct (Marshal w _ _) as [reqJSON | e]; cbn [lift];
      [rewrite bind_ret | rewrite bind_raise]; by rewrite app_nil_r.
Qed.

(** X20.  From the list to the form.  With the registry of the request
    in the cache, its declarations under distinct full names and no slash
    in the names of its services: when the method selected in the stored
    request is one that [parseRegistryFiles] lists for that registry,
    [GetRequestStruct] resolves it without discovery, causes no event and
    leaves the state as it is, and it returns the encoding of the empty
    message of the input type of that method, with unpopulated fields
    and proto names, or fails with the error of the encoder. *)
Theorem GetRequestStruct_of_listed (s : Service) (w : World)
  (id envid : string) (st : State) (req : Request.t) (registry : Files)
  (srv : GRPCService.t) (m : GRPCMethod.t) :
  requests s !! id = Some req →
  protoFilesRegistry st !! id = Some registry →
  NoDup (map fst (declarations registry)) →
  Forall (fun svc => contains_slash (ServiceDescriptor.FullName svc) = false)
         (services_of registry) →
  srv ∈ parseRegistryFiles registry →
  m ∈ GRPCService.Methods srv →
  GRPCRequestSpec.LasSelectedMethod (Request.Spec_GRPC req)
  = GRPCMethod.FullName m →
  ∃ mth,
    methodDesc_in (Some registry) (GRPCMethod.FullName m) = Ok mth ∧
    MethodDescriptor.Name mth = GRPCMethod.Name m ∧
    GetRequestStruct s w id envid st
    = mk_Run
        match Marshal w (protojson.mk_MarshalOptions "  " true true)
                (dynamicpb_NewMessage (MethodDescriptor.Input mth)) with
        | ok reqJSON => Ok reqJSON
        | fail e => Err e
        end st [].
Proof.
  intros Hreq Hcached Hnodup Hslash Hsrv Hm Hselected.
  destruct (parseRegistryFiles_entry registry srv m Hsrv Hm)
    as (svc & mth & Hsvc & Hmth & -> & ->).
  exists mth.
  assert (methodDesc_in (Some registry)
            (GRPCMethod.FullName (listed_method svc mth)) = Ok mth) as Hdesc.
  { unfold listed_method. cbn [GRPCMethod.FullName].
    change ("/" +:+ ServiceDescriptor.FullName svc +:+ "/"
            +:+ MethodDescriptor.Name mth)
      with (String "/" (ServiceDescriptor.FullName svc +:+ "/"
                        +:+ MethodDescriptor.Name mth)).
    cbn [methodDesc_in].
    rewrite replace_first_slash_app
      by (rewrite Forall_forall in Hslash; by apply Hslash).
    by rewrite (FindDescriptorByName_method registry svc mth). }
  split; [exact Hdesc |]. split; [done |].
  unfold GetRequestStruct. rewrite Hreq. cbv zeta. rewrite Hselected.
  rewrite bool_decide_eq_false_2 by done.
  erewrite bind_silent
    by (erewrite getMethodDesc_cached by exact Hcached; by rewrite Hdesc).
  unfold preview_options.
  destruct (Marshal w _ _) as [reqJSON | e]; cbn [lift];
    [by rewrite bind_ret | by rewrite bind_raise].
Qed.

(** The double after a discovery, with [/pkg.Svc/Upload] selected. *)
Lemma GetRequestStruct_of_listed_witness :
  ∃ mth,
    methodDesc_in (Some double_registry) "/pkg.Svc/Upload" = Ok mth ∧
    MethodDescriptor.Name mth = "Upload" ∧
    GetRequestStruct (double_service upload_spec) (double_world echo_reply)
      "req-1" "" discovered
    = mk_Run
        match Marshal (double_world echo_reply)
                (protojson.mk_MarshalOptions "  " true true)
                (dynamicpb_NewMessage (MethodDescriptor.Input mth)) with
        | ok reqJSON => Ok reqJSON
        | fail e => Err e
        end discovered [].
Proof.
  apply (GetRequestStruct_of_listed (double_service upload_spec)
           (double_world echo_reply) "req-1" "" discovered
           (Request.mk "req-1" upload_spec) double_registry
           (listed_service Svc) (listed_method Svc Upload));
    try reflexivity.
  - apply (bool_decide_unpack _). vm_compute. exact I.
  - vm_compute. repeat constructor.
  - vm_compute. repeat constructor.
  - vm_compute. do 2 (apply elem_of_cons; right). apply elem_of_cons. by left.
Defined.

(** ** Metadata without auth headers *)

Lemma fold_Append_Get (pairs : list (string * string)) :
  ∀ (md : MD) (k : string),
    MD_Get (fold_left (fun out kv => MD_Append out kv.1 kv.2) pairs md) k
    = MD_Get md k
      ++ map snd (filter (fun kv => ToLower kv.1 = ToLower k) pairs).
Proof.
  induction pairs as [| [k0 v0] pairs IH]; intros md k.
  - cbn. by rewrite app_nil_r.
  - cbn [fold_left]. rewrite IH, MD_Get_Append, filter_cons. cbn [fst snd].
    case_bool_decide as Hk.
    + rewrite decide_True by done. cbn [map]. by rewrite <- app_assoc.
    + by rewrite decide_False by done.
Qed.

Lemma enabled_pairs_filter (items : list KeyValue.t) (k : string) :
  map snd (filter (fun kv => ToLower kv.1 = ToLower k) (enabled_pairs items))
  = map KeyValue.Value
      (filter
         (fun item =>
            KeyValue.Enable item = true ∧
            ToLower (KeyValue.Key item) = ToLower k)
         items).
Proof.
  unfold enabled_pairs.
  induction items as [| item items IH]; [done |].
  rewrite !filter_cons.
  destruct (decide (KeyValue.Enable item = true)) as [Henable | Henable].
  - cbn [map]. rewrite filter_cons. cbn [fst].
    destruct (decide (ToLower (KeyValue.Key item) = ToLower k)) as [Hk | Hk].
    + rewrite decide_True by done. cbn [map snd]. by rewrite IH.
    + rewrite decide_False by tauto. exact IH.
  - rewrite decide_False by tauto. exact IH.
Qed.

(** X21.  What a call sends as metadata when the auth config resolves
    to no header.  Under every event of a call of [Invoke], the values
    sent under a key are the values of the enabled metadata entries of
    the call definition whose key is that key up to the case of its
    letters, in the order of the entries: entries that differ in case
    only are merged under one key, and a disabled entry is never sent. *)
Theorem Invoke_metadata_without_auth (s : Service) (w : World)
  (id envid : string) (st : State) (ev : Event) (ctx : Context)
  (env : Environment.t) (spec : GRPCRequestSpec.t) (k : string) :
  built_spec s w id envid = Some (env, spec) →
  prepareAuth spec = Ok None →
  ev ∈ events (Invoke s w id envid st) →
  event_ctx ev = Some ctx →
  MD_Get (FromOutgoingContext ctx) k
  = map KeyValue.Value
      (filter
         (fun item =>
            KeyValue.Enable item = true ∧
            ToLower (KeyValue.Key item) = ToLower k)
         (GRPCRequestSpec.Metadata spec)).
Proof.
  intros Hbuilt Hauth Hin Hctx.
  destruct (Invoke_call_context s w id envid st ev ctx Hin Hctx)
    as (env' & spec' & authHeaders & Hbuilt' & Hauth' & ->).
  rewrite Hbuilt in Hbuilt'. injection Hbuilt' as <- <-.
  rewrite Hauth in Hauth'. injection Hauth' as <-.
  unfold call_context, NewOutgoingContext, Background.
  cbn [ctx_timeout]. rewrite attach_metadata_added.
  unfold FromOutgoingContext, WithTimeout.
  cbn [ctx_outgoing raw_md raw_added app].
  rewrite fold_Append_Get, enabled_pairs_filter.
  unfold MD_Get, MD_New. by rewrite lookup_empty.
Qed.

Lemma Invoke_metadata_without_auth_witness :
  MD_Get
    (FromOutgoingContext (call_context two_spellings None)) "X-Trace"
  = map KeyValue.Value
      (filter
         (fun item =>
            KeyValue.Enable item = true ∧
            ToLower (KeyValue.Key item) = ToLower "X-Trace")
         (GRPCRequestSpec.Metadata two_spellings)).
Proof.
  assert (EvInvoke double_conn (call_context two_spellings None)
            "/pkg.Svc/Upload" (mk_Message "pkg.Msg" "hi")
          ∈ events (Invoke (double_service two_spellings)
                      (double_world echo_reply) "req-1" "env-1" fresh))
    as Hin.
  { apply (bool_decide_unpack _). vm_compute. exact I. }
  exact (Invoke_metadata_without_auth (double_service two_spellings)
           (double_world echo_reply) "req-1" "env-1" fresh _
           (call_context two_spellings None) (Environment.mk "env-1" [])
           two_spellings "X-Trace" eq_refl eq_refl Hin eq_refl).
Defined.

Example two_spellings_sent :
  MD_Get (FromOutgoingContext (call_context two_spellings None)) "X-Trace"
  = ["abc"; "def"].
Proof. reflexivity. Qed.

(** ** How often [Invoke] dials *)

Lemma clients_made_app (evs1 evs2 : list Event) :
  clients_made (evs1 ++ evs2) = (clients_made evs1 + clients_made evs2)%nat.
Proof. unfold clients_made. by rewrite filter_app, length_app. Qed.

Lemma calls_make_no_client (evs : list Event) :
  Forall is_call evs → clients_made evs = 0%nat ∧ discovery_runs evs = 0%nat.
Proof.
  unfold clients_made, discovery_runs.
  induction 1 as [| ev evs Hev _ [IH1 IH2]]; [done |].
  rewrite !filter_cons.
  destruct ev; try (by destruct Hev); by rewrite !decide_False.
Qed.

Lemma Dial_makes_one_client (w : World) (req : GRPCRequestSpec.t)
  (st : State) (conn : ClientConn) :
  outcome (Dial w req st) = Ok conn →
  clients_made (events (Dial w req st)) = 1%nat.
Proof.
  unfold Dial, os_ReadFile, tls_X509KeyPair, grpc_NewClient.
  repeat run_step; run_end; try discriminate; by intros _.
Qed.

Lemma GetServices_makes_one_client (s : Service) (w : World)
  (id envid : string) (st : State) (services : list GRPCService.t) :
  outcome (GetServices s w id envid st) = Ok services →
  clients_made (events (GetServices s w id envid st)) = 1%nat.
Proof.
  destruct (requests s !! id) as [req |] eqn:Hreq;
    [| unfold GetServices; by rewrite Hreq].
  rewrite (GetServices_discovery_spec s w id envid req st Hreq).
  pose proof (Dial_makes_one_client w (discovery_spec s w req envid) st)
    as Hone.
  destruct (Dial w (discovery_spec s w req envid) st)
    as [[conn | e |] st1 evs] eqn:Hdial;
    [erewrite bind_prepend by exact Hdial
    | by erewrite bind_run_Err by exact Hdial
    | by erewrite bind_run_Panic by exact Hdial].
  specialize (Hone conn eq_refl). cbn [events] in Hone.
  rewrite outcome_prepend, events_prepend, clients_made_app, Hone.
  unfold grpc_ProtoFilesFromReflectionAPI, protoFiles_LoadProtoFilesFromDisk,
    grpc_ProtoFilesFromDisk.
  destruct (ServerInfo.ServerReflection _); [| destruct (0 <? _)%nat].
  all: repeat run_step; run_end; try discriminate; by intros _.
Qed.

(** X22.  How often [Invoke] dials.  A run of [Invoke] that returns a
    response has made one client when the registry of the request was in
    the cache, and has not discovered; when the registry was not in the
    cache it has made two clients, one for the call and one more inside
    the discovery, and has discovered once. *)
Theorem Invoke_clients_made (s : Service) (w : World) (id envid : string)
  (st : State) (r : Response.t * option error) :
  outcome (Invoke s w id envid st) = Ok r →
  clients_made (events (Invoke s w id envid st))
  = match protoFilesRegistry st !! id with Some _ => 1%nat | None => 2%nat end ∧
  discovery_runs (events (Invoke s w id envid st))
  = match protoFilesRegistry st !! id with Some _ => 0%nat | None => 1%nat end.
Proof.
  intros Hrun.
  destruct (Invoke_cases s w id envid st)
    as [(spec & conn & md & request & ctx & st' & evs & Hreach) | [Hno _]];
    [| by destruct (Hno r)].
  rewrite (Invoke_from_call _ _ _ _ _ _ _ _ _ _ _ _ Hreach).
  cbn [events].
  destruct (calls_make_no_client _
              (call_and_respond_calls w spec conn md request ctx st'))
    as [Hcall1 Hcall2].
  rewrite clients_made_app, discovery_runs_app, Hcall1, Hcall2, !Nat.add_0_r.
  clear Hcall1 Hcall2 Hrun.
  destruct Hreach as [env spec conn md request authHeaders evs1 st2 evs2
                        Hbuilt Hmethod Hdial Hdesc Hjson Hauth].
  rewrite clients_made_app, discovery_runs_app.
  assert (clients_made evs1 = 1%nat) as ->.
  { pose proof (Dial_makes_one_client w spec st conn) as Hone.
    rewrite Hdial in Hone. by apply Hone. }
  assert (discovery_runs evs1 = 0%nat) as ->.
  { apply discovery_runs_dial.
    change evs1 with (events (mk_Run (Ok conn) st evs1)). rewrite <- Hdial.
    apply Dial_emits. }
  destruct (protoFilesRegistry st !! id) as [files |] eqn:Hcached.
  - rewrite (getMethodDesc_cached _ _ _ _ _ _ files Hcached) in Hdesc.
    by injection Hdesc as _ _ <-.
  - unfold getMethodDesc, registryFiles_of in Hdesc.
    rewrite bind_bind, bind_registry_Get, Hcached, bind_bind in Hdesc.
    pose proof (GetServices_makes_one_client s w id
                  (Environment.MetaData_ID env) st) as Hone.
    pose proof (GetServices_stores s w id (Environment.MetaData_ID env) st)
      as Hstores.
    destruct (GetServices s w id (Environment.MetaData_ID env) st)
      as [[services | e |] stg evg] eqn:Hget;
      [erewrite bind_prepend in Hdesc by exact Hget
      | by erewrite bind_run_Err in Hdesc by exact Hget
      | by erewrite bind_run_Panic in Hdesc by exact Hget].
    rewrite bind_registry_Get in Hdesc. unfold pure in Hdesc.
    rewrite prepend_mk in Hdesc. injection Hdesc as _ _ <-.
    rewrite app_nil_r.
    destruct (Hstores services eq_refl) as (_ & _ & Hdisc).
    specialize (Hone services eq_refl). cbn [events] in Hone, Hdisc.
    by rewrite Hone, Hdisc.
Qed.

(** The double, first without and then with the registry in the
    cache. *)
Lemma Invoke_clients_made_witness :
  (clients_made
     (events (Invoke (double_service upload_spec) (double_world echo_reply)
                "req-1" "env-1" fresh)) = 2%nat ∧
   discovery_runs
     (events (Invoke (double_service upload_spec) (double_world echo_reply)
                "req-1" "env-1" fresh)) = 1%nat) ∧
  (clients_made
     (events (Invoke (double_service upload_spec) (double_world echo_reply)
                "req-1" "env-1" discovered)) = 1%nat ∧
   discovery_runs
     (events (Invoke (double_service upload_spec) (double_world echo_reply)
                "req-1" "env-1" discovered)) = 0%nat).
Proof.
  split.
  - assert (∃ r, outcome (Invoke (double_service upload_spec)
                            (double_world echo_reply) "req-1" "env-1" fresh)
                 = Ok r) as [r Hrun]
      by (eexists; vm_compute; reflexivity).
    exact (Invoke_clients_made _ _ _ _ _ r Hrun).
  - assert (∃ r, outcome (Invoke (double_service upload_spec)
                            (double_world echo_reply) "req-1" "env-1"
                            discovered)
                 = Ok r) as [r Hrun]
      by (eexists; vm_compute; reflexivity).
    exact (Invoke_clients_made _ _ _ _ _ r Hrun).
Defined.

(** ** The cache after a call, and discovery again *)

Lemma getMethodDesc_leaves_cached (s : Service) (w : World)
  (id envid fullname : string) (st st2 : State) (md : MethodDescriptor.t)
  (evs2 : list Event) :
  getMethodDesc s w id envid fullname st = mk_Run (Ok md) st2 evs2 →
  is_Some (protoFilesRegistry st2 !! id).
Proof.
  destruct (protoFilesRegistry st !! id) as [files |] eqn:Hcached.
  - rewrite (getMethodDesc_cached _ _ _ _ _ _ files Hcached).
    intros [= _ <- _]. by rewrite Hcached.
  - unfold getMethodDesc, registryFiles_of.
    rewrite bind_bind, bind_registry_Get, Hcached, bind_bind.
    pose proof (GetServices_stores s w id envid st) as Hstores.
    destruct (GetServices s w id envid st)
      as [[services | e |] stg evg] eqn:Hget;
      [erewrite bind_prepend by exact Hget
      | by erewrite bind_run_Err by exact Hget
      | by erewrite bind_run_Panic by exact Hget].
    destruct (Hstores services eq_refl) as (files & Hfinal & _).
    cbn [final] in Hfinal. subst stg.
    rewrite bind_registry_Get. unfold pure. rewrite prepend_mk.
    intros [= _ <- _]. cbn. by rewrite lookup_insert_eq.
Qed.

(** X23.  After a run of [Invoke] that returns a response, the registry
    of the request is in the cache: the next call of the request does
    not discover again. *)
Theorem Invoke_leaves_cached (s : Service) (w : World) (id envid : string)
  (st : State) (r : Response.t * option error) :
  outcome (Invoke s w id envid st) = Ok r →
  is_Some (protoFilesRegistry (final (Invoke s w id envid st)) !! id).
Proof.
  intros Hrun.
  destruct (Invoke_cases s w id envid st)
    as [(spec & conn & md & request & ctx & st' & evs & Hreach) | [Hno _]];
    [| by destruct (Hno r)].
  rewrite (Invoke_from_call _ _ _ _ _ _ _ _ _ _ _ _ Hreach).
  cbn [final]. rewrite call_and_respond_same_registry.
  destruct Hreach as [env spec conn md request authHeaders evs1 st2 evs2
                        Hbuilt Hmethod Hdial Hdesc Hjson Hauth].
  cbn [protoFilesRegistry].
  by eapply getMethodDesc_leaves_cached.
Qed.

Lemma Invoke_leaves_cached_witness :
  is_Some
    (protoFilesRegistry
       (final (Invoke (double_service upload_spec) (double_world echo_reply)
                 "req-1" "env-1" fresh)) !! "req-1").
Proof.
  assert (∃ r, outcome (Invoke (double_service upload_spec)
                          (double_world echo_reply) "req-1" "env-1" fresh)
               = Ok r) as [r Hrun]
    by (eexists; vm_compute; reflexivity).
  exact (Invoke_leaves_cached _ _ _ _ _ r Hrun).
Defined.



(** ** Auth configs without their part *)

(** X25.  An auth config of type token without a token part, or of type
    API key without an API key part, makes [prepareAuth] panic on the nil
    pointer; a run of [Invoke] with such a call definition returns no
    response and sends no call. *)
Theorem Invoke_auth_without_config (s : Service) (w : World)
  (id envid : string) (st : State) (env : Environment.t)
  (spec : GRPCRequestSpec.t) :
  built_spec s w id envid = Some (env, spec) →
  Auth.Type_ (GRPCRequestSpec.Auth spec) = AuthTypeToken ∧
    Auth.TokenAuth (GRPCRequestSpec.Auth spec) = None ∨
  Auth.Type_ (GRPCRequestSpec.Auth spec) = AuthTypeAPIKey ∧
    Auth.APIKeyAuth (GRPCRequestSpec.Auth spec) = None →
  prepareAuth spec = Panic ∧
  (∀ r, outcome (Invoke s w id envid st) ≠ Ok r) ∧
  Forall no_call (events (Invoke s w id envid st)).
Proof.
  intros Hbuilt Hconfig.
  assert (prepareAuth spec = Panic) as Hpanic.
  { unfold prepareAuth.
    destruct Hconfig as [[-> ->] | [-> ->]]; [done |].
    cbn. by destruct (Auth.BasicAuth _). }
  split; [exact Hpanic |].
  destruct (Invoke_cases s w id envid st)
    as [(spec' & conn & md & request & ctx & st' & evs & Hreach) | Hno];
    [| exact Hno].
  destruct Hreach as [env' spec' conn md request authHeaders evs1 st2 evs2
                        Hbuilt' Hmethod Hdial Hdesc Hjson Hauth].
  rewrite Hbuilt in Hbuilt'. injection Hbuilt' as <- <-.
  by rewrite Hpanic in Hauth.
Qed.

Lemma Invoke_auth_without_config_witness :
  prepareAuth token_without_config = Panic ∧
  (∀ r, outcome (Invoke (double_service token_without_config)
                   (double_world echo_reply) "req-1" "env-1" fresh) ≠ Ok r) ∧
  Forall no_call
    (events (Invoke (double_service token_without_config)
               (double_world echo_reply) "req-1" "env-1" fresh)).
Proof.
  exact (Invoke_auth_without_config (double_service token_without_config)
           (double_world echo_reply) "req-1" "env-1" fresh
           (Environment.mk "env-1" []) token_without_config
           eq_refl (or_introl (conj eq_refl eq_refl))).
Defined.
